(** * AnimeSynth MIDI scraper: a shallow embedding of [Input/scraper.py]

    The development follows the source file top-down.  Python [str] values
    are sequences of Unicode code points ([list Z]), [bytes] values are
    sequences of octets ([list Z] below 256).  Functions that can raise are
    embedded in the [result] monad; the exception is the error value.

    The standard-library functions the scraper calls ([urllib.parse],
    [posixpath], [re] on the four patterns used, [pathlib] on a small file
    tree, [time.sleep]) are embedded from CPython 3.11, which is the
    reference the source targets ([from __future__ import annotations],
    built-in generics).  Three tables of the runtime are not reproduced and
    are kept abstract in the class [Runtime]: Unicode case mapping
    ([str.lower]), NFKC normalisation and the [ipaddress] parser. *)

From Stdlib Require Import ZArith List String Ascii Lia QArith Bool.
From stdpp Require Import base option list gmap.

Local Open Scope Z_scope.
Local Open Scope list_scope.

(** ** Strings *)

Abbreviation str := (list Z).
Abbreviation bytes := (list Z).

(** [lit "abc"] is the Python literal ['abc'] (ASCII text only). *)
Definition lit (s : string) : str :=
  List.map (fun a => Z.of_N (N_of_ascii a)) (list_ascii_of_string s).

Definition str_eqb (a b : str) : bool := bool_decide (a = b).

(** [c in s] for a one-character [c]. *)
Definition mem (c : Z) (s : str) : bool := existsb (Z.eqb c) s.

(** [s.startswith(p)] *)
Fixpoint startswith (p s : str) : bool :=
  match p, s with
  | [], _ => true
  | a :: p', b :: s' => (a =? b) && startswith p' s'
  | _ :: _, [] => false
  end.

(** [s[:n]] and [s[n:]] for a Python integer [n] (negative counts from
    the end, out-of-range indices are clamped). *)
Definition slice_index (len n : Z) : nat :=
  Z.to_nat (if n <? 0 then Z.max 0 (len + n) else Z.min n len).

Definition slice_to {A} (l : list A) (n : Z) : list A :=
  firstn (slice_index (Z.of_nat (length l)) n) l.

Definition slice_from {A} (l : list A) (n : Z) : list A :=
  skipn (slice_index (Z.of_nat (length l)) n) l.

(** [s.lstrip(chars)], [s.rstrip(chars)], [s.strip(chars)] with the
    character set given as a predicate. *)
Fixpoint lstrip (p : Z -> bool) (s : str) : str :=
  match s with
  | c :: s' => if p c then lstrip p s' else s
  | [] => []
  end.

Definition rstrip (p : Z -> bool) (s : str) : str := rev (lstrip p (rev s)).

Definition strip (p : Z -> bool) (s : str) : str := rstrip p (lstrip p s).

(** [str.isspace] for one character; [re]'s [\s] on [str] patterns and
    argument-less [str.strip] use the same set. *)
Definition isspace (c : Z) : bool :=
  ((9 <=? c) && (c <=? 13)) || ((28 <=? c) && (c <=? 32))
  || (c =? 133) || (c =? 160) || (c =? 5760)
  || ((8192 <=? c) && (c <=? 8202))
  || (c =? 8232) || (c =? 8233) || (c =? 8239) || (c =? 8287) || (c =? 12288).

Definition is_ascii (c : Z) : bool := (0 <=? c) && (c <? 128).
Definition is_upper (c : Z) : bool := (65 <=? c) && (c <=? 90).
Definition is_lower (c : Z) : bool := (97 <=? c) && (c <=? 122).
Definition is_digit (c : Z) : bool := (48 <=? c) && (c <=? 57).
Definition is_alpha_ascii (c : Z) : bool := is_upper c || is_lower c.

Definition ascii_lower_char (c : Z) : Z := if is_upper c then c + 32 else c.

(** ** The parts of the runtime kept abstract

    [str_lower] is [str.lower] (full Unicode case mapping, including the
    final-sigma rule, hence a function on strings); on ASCII text it is the
    usual letter shift.  [nfkc] is [unicodedata.normalize('NFKC', _)].
    [ip_address_v6 h] holds when [ipaddress.ip_address(h)] returns an IPv6
    address (it raises, or returns an IPv4 address, otherwise). *)
Class Runtime := {
  str_lower : str -> str;
  nfkc : str -> str;
  ip_address_v6 : str -> bool;
  str_lower_ascii : forall s,
    forallb is_ascii s = true -> str_lower s = List.map ascii_lower_char s;
}.

(** A runtime that is exact on ASCII text, used to evaluate the embedding
    on concrete ASCII inputs. *)
Definition ascii_runtime : Runtime :=
  {| str_lower := List.map ascii_lower_char;
     nfkc := fun s => s;
     ip_address_v6 := fun _ => false;
     str_lower_ascii := fun s _ => eq_refl |}.

(** ** Exceptions and results *)

Inductive exn :=
| ValueError (msg : str)
| UnicodeEncodeError (start stop : nat) (obj : str)
| OverflowError (msg : str)
| FileNotFoundError (msg : str)
| OSError (msg : str)
| OtherError (msg : str).

Inductive result (A : Type) :=
| Ok (a : A)
| Raise (e : exn).
Arguments Ok {A} a.
Arguments Raise {A} e.

#[global] Instance result_ret : MRet result := fun A a => Ok a.
#[global] Instance result_bind : MBind result := fun A B f r =>
  match r with Ok a => f a | Raise e => Raise e end.

Definition is_ok {A} (r : result A) : bool :=
  match r with Ok _ => true | Raise _ => false end.

(** ** [_slugify] *)

(** [re.sub(r"C+", rep, s)] for a character class [C]: every maximal run of
    characters of the class is replaced by [rep].  [in_run] tells that the
    previous character belonged to the run being replaced. *)
Fixpoint sub_runs_from (cls : Z -> bool) (rep : str) (in_run : bool) (s : str) : str :=
  match s with
  | [] => []
  | c :: s' =>
      if cls c then (if in_run then [] else rep) ++ sub_runs_from cls rep true s'
      else c :: sub_runs_from cls rep false s'
  end.

Definition sub_runs (cls : Z -> bool) (rep : str) (s : str) : str :=
  sub_runs_from cls rep false s.

(** The class [[a-z0-9\-_.()]] of the second substitution. *)
Definition slug_char (c : Z) : bool :=
  is_lower c || is_digit c || mem c (lit "-_.()").

Definition is_hyphen (c : Z) : bool := c =? 45.

Definition untitled : str := Eval cbv in lit "untitled".

Definition _slugify `{Runtime} (text : str) (max_len : Z) : str :=
  let text := str_lower (strip isspace text) in
  let text := sub_runs isspace (lit "-") text in
  let text := sub_runs (fun c => negb (slug_char c)) (lit "-") text in
  let text := strip is_hyphen (sub_runs is_hyphen (lit "-") text) in
  match slice_to text max_len with
  | [] => untitled
  | t => t
  end.

(** The default [max_len=120]. *)
Definition _slugify_default `{Runtime} (text : str) : str := _slugify text 120.

(** ** [iter_selected] *)

Definition iter_selected {A} (items : list A) (limit : option Z) : list A :=
  match limit with
  | None => items
  | Some n => if n <? 0 then items else slice_to items n
  end.

(** ** More of [str] *)

(** [s.find(c)] and [s.rfind(c)] for a one-character [c]: an index, or -1. *)
Fixpoint find_from (c : Z) (s : str) (i : Z) : Z :=
  match s with
  | [] => -1
  | x :: s' => if x =? c then i else find_from c s' (i + 1)
  end.

Definition find (c : Z) (s : str) : Z := find_from c s 0.

Definition rfind (c : Z) (s : str) : Z :=
  let r := find c (rev s) in
  if r <? 0 then -1 else Z.of_nat (length s) - 1 - r.

(** [s.find(c, start)] *)
Definition find_at (c : Z) (s : str) (start : Z) : Z :=
  find_from c (slice_from s start) (Z.of_nat (slice_index (Z.of_nat (length s)) start)).

(** [s.replace(c, empty)] for a one-character [c]: every [c] is removed. *)
Definition remove_char (c : Z) (s : str) : str :=
  List.filter (fun x => negb (x =? c)) s.

(** [s.replace(c, d)] for one-character [c] and [d]. *)
Definition replace_char (c d : Z) (s : str) : str :=
  List.map (fun x => if x =? c then d else x) s.

(** [s.partition(c)]: the text before the first [c], whether [c] occurs,
    and the text after it. *)
Fixpoint partition (c : Z) (s : str) : str * bool * str :=
  match s with
  | [] => ([], false, [])
  | x :: s' =>
      if x =? c then ([], true, s')
      else let '(a, found, b) := partition c s' in (x :: a, found, b)
  end.

(** [s.rpartition(c)[2]]: the text after the last [c], or all of [s]. *)
Definition after_last (c : Z) (s : str) : str :=
  let '(a, _, _) := partition c (rev s) in rev a.

(** [s.split(c)] for a one-character separator. *)
Fixpoint split (c : Z) (s : str) : list str :=
  match s with
  | [] => [[]]
  | x :: s' =>
      if x =? c then [] :: split c s'
      else match split c s' with
           | w :: ws => (x :: w) :: ws
           | [] => [[x]]
           end
  end.

(** [sep.join(parts)] for a one-character separator. *)
Fixpoint join (c : Z) (parts : list str) : str :=
  match parts with
  | [] => []
  | [w] => w
  | w :: ws => w ++ c :: join c ws
  end.

(** The text after the first occurrence of [sep], as in
    [s.split(sep, 1)[1]]; [None] stands for the [IndexError]. *)
Fixpoint after_first (sep s : str) : option str :=
  if startswith sep s then Some (skipn (length sep) s)
  else match s with
       | [] => None
       | _ :: s' => after_first sep s'
       end.

(** Lexicographic order on code points, the order of [sorted] on [str]. *)
Fixpoint str_ltb (a b : str) : bool :=
  match a, b with
  | _, [] => false
  | [], _ :: _ => true
  | x :: a', y :: b' => (x <? y) || ((x =? y) && str_ltb a' b')
  end.

Fixpoint insert_sorted (x : str) (l : list str) : list str :=
  match l with
  | [] => [x]
  | y :: l' => if str_ltb y x then y :: insert_sorted x l' else x :: l
  end.

(** [sorted(l)] *)
Definition sorted (l : list str) : list str := foldr insert_sorted [] l.

(** Decimal and hexadecimal digits for messages and escapes. *)
Definition hex_upper (n : Z) : Z := if n <? 10 then 48 + n else 55 + n.
Definition hex_lower (n : Z) : Z := if n <? 10 then 48 + n else 87 + n.

Definition hex_value (c : Z) : option Z :=
  if is_digit c then Some (c - 48)
  else if (65 <=? c) && (c <=? 70) then Some (c - 55)
  else if (97 <=? c) && (c <=? 102) then Some (c - 87)
  else None.

Fixpoint decimal_digits (fuel : nat) (n : Z) (acc : str) : str :=
  match fuel with
  | O => acc
  | S fuel' =>
      let acc' := (48 + n mod 10) :: acc in
      if n <? 10 then acc' else decimal_digits fuel' (n / 10) acc'
  end.

(** [str(n)] for a natural number. *)
Definition str_of_nat (n : nat) : str := decimal_digits (S n) (Z.of_nat n) [].

(** ** UTF-8 *)

Definition is_surrogate (c : Z) : bool := (55296 <=? c) && (c <=? 57343).

(** The encoder of [str.encode('utf-8')] for one code point; [None] is a
    lone surrogate (or a number that is no code point). *)
Definition encode_cp (c : Z) : option bytes :=
  if c <? 0 then None
  else if c <? 128 then Some [c]
  else if c <? 2048 then
    Some [Z.lor 192 (Z.shiftr c 6); Z.lor 128 (Z.land c 63)]
  else if is_surrogate c then None
  else if c <? 65536 then
    Some [Z.lor 224 (Z.shiftr c 12); Z.lor 128 (Z.land (Z.shiftr c 6) 63);
          Z.lor 128 (Z.land c 63)]
  else if c <? 1114112 then
    Some [Z.lor 240 (Z.shiftr c 18); Z.lor 128 (Z.land (Z.shiftr c 12) 63);
          Z.lor 128 (Z.land (Z.shiftr c 6) 63); Z.lor 128 (Z.land c 63)]
  else None.

(** [s.encode('utf-8', 'strict')]; the error names the run of unencodable
    characters that starts at the first one. *)
Fixpoint utf8_encode_from (whole : str) (i : nat) (s : str) : result bytes :=
  match s with
  | [] => Ok []
  | c :: s' =>
      match encode_cp c with
      | Some bs =>
          match utf8_encode_from whole (S i) s' with
          | Ok r => Ok (bs ++ r)
          | Raise e => Raise e
          end
      | None =>
          let run := (length s' - length (lstrip is_surrogate s'))%nat in
          Raise (UnicodeEncodeError i (S i + run)%nat whole)
      end
  end.

Definition utf8_encode (s : str) : result bytes := utf8_encode_from s 0 s.

Definition is_cont (b : Z) : bool := (128 <=? b) && (b <? 192).

Definition replacement : Z := 65533.

(** [bs.decode('utf-8', 'replace')].  Each malformed sequence becomes one
    U+FFFD: a bad lead byte alone, a lead byte with the valid continuation
    bytes before the first bad one, or the whole truncated tail. *)
Fixpoint utf8_decode (bs : bytes) : str :=
  match bs with
  | [] => []
  | b :: r1 =>
      if b <? 128 then b :: utf8_decode r1
      else if b <? 194 then replacement :: utf8_decode r1
      else if b <? 224 then
        match r1 with
        | [] => [replacement]
        | b2 :: r2 =>
            if is_cont b2
            then (Z.shiftl b 6 + b2 - (Z.shiftl 192 6 + 128)) :: utf8_decode r2
            else replacement :: utf8_decode r1
        end
      else if b <? 240 then
        match r1 with
        | [] => [replacement]
        | b2 :: r2 =>
            if negb (is_cont b2) || (if b2 <? 160 then b =? 224 else b =? 237)
            then replacement :: utf8_decode r1
            else
              match r2 with
              | [] => [replacement]
              | b3 :: r3 =>
                  if is_cont b3
                  then (Z.shiftl b 12 + Z.shiftl b2 6 + b3
                        - (Z.shiftl 224 12 + Z.shiftl 128 6 + 128))
                       :: utf8_decode r3
                  else replacement :: utf8_decode r2
              end
        end
      else if b <? 245 then
        match r1 with
        | [] => [replacement]
        | b2 :: r2 =>
            if negb (is_cont b2) || (if b2 <? 144 then b =? 240 else b =? 244)
            then replacement :: utf8_decode r1
            else
              match r2 with
              | [] => [replacement]
              | b3 :: r3 =>
                  if negb (is_cont b3) then replacement :: utf8_decode r2
                  else
                    match r3 with
                    | [] => [replacement]
                    | b4 :: r4 =>
                        if is_cont b4
                        then (Z.shiftl b 18 + Z.shiftl b2 12 + Z.shiftl b3 6 + b4
                              - (Z.shiftl 240 18 + Z.shiftl 128 12
                                 + Z.shiftl 128 6 + 128))
                             :: utf8_decode r4
                        else replacement :: utf8_decode r3
                    end
              end
        end
      else replacement :: utf8_decode r1
  end.

(** ** [urllib.parse]: quoting *)

(** [unquote_to_bytes] on ASCII text: an escape is a percent sign followed
    by two hexadecimal digits; any other percent sign stands for itself. *)
Fixpoint unquote_to_bytes (s : str) : bytes :=
  match s with
  | [] => []
  | c :: s' =>
      if c =? 37 then
        match s' with
        | h :: l :: s'' =>
            match hex_value h, hex_value l with
            | Some hv, Some lv => (16 * hv + lv) :: unquote_to_bytes s''
            | _, _ => c :: unquote_to_bytes s'
            end
        | _ => c :: unquote_to_bytes s'
        end
      else c :: unquote_to_bytes s'
  end.

(** The decoding of one maximal ASCII run of [unquote]. *)
Definition unquote_run (run : str) : str := utf8_decode (unquote_to_bytes run).

(** The loop of [unquote] over the pieces of [_asciire.split]: maximal runs
    of ASCII characters are decoded, the other characters are kept.  [run]
    is the ASCII run read so far. *)
Fixpoint unquote_pieces (run : str) (s : str) : str :=
  match s with
  | [] => unquote_run run
  | c :: s' =>
      if is_ascii c then unquote_pieces (run ++ [c]) s'
      else unquote_run run ++ c :: unquote_pieces [] s'
  end.

(** [unquote(string)] with the defaults [encoding='utf-8'],
    [errors='replace']. *)
Definition unquote (s : str) : str :=
  if negb (mem 37 s) then s else unquote_pieces [] s.

(** [unquote_plus(string)] *)
Definition unquote_plus (s : str) : str := unquote (replace_char 43 32 s).

(** [_ALWAYS_SAFE]: letters, digits and [_.-~]. *)
Definition always_safe (b : Z) : bool :=
  is_upper b || is_lower b || is_digit b || mem b (lit "_.-~").

(** [_Quoter(safe).__missing__]: the byte itself when safe, else
    ['%{:02X}'.format(b)]. *)
Definition quoter (safe : str) (b : Z) : str :=
  if always_safe b || (is_ascii b && mem b safe) then [b]
  else [37; hex_upper (b / 16); hex_upper (b mod 16)].

(** [quote_from_bytes(bs, safe)] *)
Definition quote_from_bytes (bs : bytes) (safe : str) : str :=
  flat_map (quoter safe) bs.

(** [quote(string, safe)] with the defaults [encoding='utf-8'],
    [errors='strict']. *)
Definition quote (s : str) (safe : str) : result str :=
  match s with
  | [] => Ok []
  | _ => bs ← utf8_encode s; Ok (quote_from_bytes bs safe)
  end.

(** [quote_plus(string, safe)] *)
Definition quote_plus (s : str) (safe : str) : result str :=
  if negb (mem 32 s) then quote s safe
  else q ← quote s (safe ++ [32]); Ok (replace_char 32 43 q).

(** ** [urllib.parse]: splitting and joining *)

Definition uses_relative : list str := Eval cbv in [] :: List.map lit
  ["ftp"; "http"; "gopher"; "nntp"; "imap"; "wais"; "file"; "https";
   "shttp"; "mms"; "prospero"; "rtsp"; "rtspu"; "sftp"; "svn"; "svn+ssh";
   "ws"; "wss"]%string.

Definition uses_netloc : list str := Eval cbv in [] :: List.map lit
  ["ftp"; "http"; "gopher"; "nntp"; "telnet"; "imap"; "wais"; "file";
   "mms"; "https"; "shttp"; "snews"; "prospero"; "rtsp"; "rtspu"; "rsync";
   "svn"; "svn+ssh"; "sftp"; "nfs"; "git"; "git+ssh"; "ws"; "wss"]%string.

Definition uses_params : list str := Eval cbv in [] :: List.map lit
  ["ftp"; "hdl"; "prospero"; "http"; "imap"; "https"; "shttp"; "rtsp";
   "rtspu"; "sip"; "sips"; "mms"; "sftp"; "tel"]%string.

Definition in_list (s : str) (l : list str) : bool := existsb (str_eqb s) l.

(** [scheme_chars] *)
Definition scheme_char (c : Z) : bool :=
  is_lower c || is_upper c || is_digit c || mem c (lit "+-.").

(** [_WHATWG_C0_CONTROL_OR_SPACE] *)
Definition c0_or_space (c : Z) : bool := (0 <=? c) && (c <=? 32).

(** The loop over [_UNSAFE_URL_BYTES_TO_REMOVE]. *)
Definition remove_unsafe (s : str) : str :=
  remove_char 10 (remove_char 13 (remove_char 9 s)).

(** [_splitnetloc(url, 2)]: the text between the two leading slashes and
    the first of [/?#], and the rest. *)
Definition is_delim (c : Z) : bool := mem c (lit "/?#").

Fixpoint span_until (p : Z -> bool) (s : str) : str * str :=
  match s with
  | [] => ([], [])
  | c :: s' =>
      if p c then ([], s)
      else let '(a, b) := span_until p s' in (c :: a, b)
  end.

Definition _splitnetloc (url : str) : str * str :=
  span_until is_delim (skipn 2 url).

Definition invalid_ipv6 : exn := ValueError (lit "Invalid IPv6 URL").

Definition is_hexdigit (c : Z) : bool :=
  match hex_value c with Some _ => true | None => false end.

(** [re.match(r"\Av[a-fA-F0-9]+\..+\Z", hostname)] *)
Definition ipvfuture_match (hostname : str) : bool :=
  match hostname with
  | v :: rest =>
      let '(digits, tail) := span_until (fun c => negb (is_hexdigit c)) rest in
      match digits, tail with
      | _ :: _, dot :: more =>
          (v =? 118) && (dot =? 46) && negb (str_eqb more []) && negb (mem 10 more)
      | _, _ => false
      end
  | [] => false
  end.

Section WithRuntime.
Context `{RT : Runtime}.

Definition _check_bracketed_host (hostname : str) : result unit :=
  if startswith (lit "v") hostname then
    if ipvfuture_match hostname then Ok tt
    else Raise (ValueError (lit "IPvFuture address is invalid"))
  else
    if ip_address_v6 hostname then Ok tt
    else Raise (ValueError (lit "bracketed host is not an IPv6 address")).

Definition _check_bracketed_netloc (netloc : str) : result unit :=
  let hostname_and_port := after_last 64 netloc in
  let '(before_bracket, have_open_br, bracketed) := partition 91 hostname_and_port in
  if have_open_br then
    match before_bracket with
    | _ :: _ => Raise invalid_ipv6
    | [] =>
        let '(hostname, _, port) := partition 93 bracketed in
        match port with
        | c :: _ => if c =? 58 then _check_bracketed_host hostname
                    else Raise invalid_ipv6
        | [] => _check_bracketed_host hostname
        end
    end
  else
    let '(hostname, _, _) := partition 58 hostname_and_port in
    _check_bracketed_host hostname.

Definition _checknetloc (netloc : str) : result unit :=
  if forallb is_ascii netloc then Ok tt
  else
    let n := remove_char 63 (remove_char 35 (remove_char 58 (remove_char 64 netloc))) in
    let netloc2 := nfkc n in
    if str_eqb n netloc2 then Ok tt
    else if existsb (fun c => mem c netloc2) (lit "/?#@:")
    then Raise (ValueError (lit "netloc '" ++ netloc ++
                  lit "' contains invalid characters under NFKC normalization"))
    else Ok tt.

(** [urlsplit(url, scheme)] with [allow_fragments=True]; the result is
    [(scheme, netloc, path, query, fragment)]. *)
Definition urlsplit (url scheme : str) : result (str * str * str * str * str) :=
  let url := lstrip c0_or_space url in
  let scheme := strip c0_or_space scheme in
  let url := remove_unsafe url in
  let scheme := remove_unsafe scheme in
  let i := find 58 url in
  let '(scheme, url) :=
    match url with
    | c0 :: _ =>
        if (0 <? i) && is_ascii c0 && is_alpha_ascii c0
           && forallb scheme_char (slice_to url i)
        then (str_lower (slice_to url i), slice_from url (i + 1))
        else (scheme, url)
    | [] => (scheme, url)
    end in
  '(netloc, url) ←
    (if str_eqb (slice_to url 2) (lit "//") then
       let '(netloc, url) := _splitnetloc url in
       if (mem 91 netloc && negb (mem 93 netloc))
          || (mem 93 netloc && negb (mem 91 netloc))
       then Raise invalid_ipv6
       else
         _ ← (if mem 91 netloc && mem 93 netloc
              then _check_bracketed_netloc netloc else Ok tt);
         Ok (netloc, url)
     else Ok ([], url));
  let '(url, fragment) :=
    if mem 35 url then let '(a, _, b) := partition 35 url in (a, b)
    else (url, []) in
  let '(url, query) :=
    if mem 63 url then let '(a, _, b) := partition 63 url in (a, b)
    else (url, []) in
  _ ← _checknetloc netloc;
  Ok (scheme, netloc, url, query, fragment).

(** [_splitparams(url)] *)
Definition _splitparams (url : str) : str * str :=
  if mem 47 url then
    let i := find_at 59 url (rfind 47 url) in
    if i <? 0 then (url, [])
    else (slice_to url i, slice_from url (i + 1))
  else
    let i := find 59 url in
    (slice_to url i, slice_from url (i + 1)).

(** [urlparse(url, scheme)]; the result is
    [(scheme, netloc, path, params, query, fragment)]. *)
Definition urlparse (url scheme : str)
  : result (str * str * str * str * str * str) :=
  '(scheme, netloc, url, query, fragment) ← urlsplit url scheme;
  let '(url, params) :=
    if in_list scheme uses_params && mem 59 url then _splitparams url
    else (url, []) in
  Ok (scheme, netloc, url, params, query, fragment).

(** [urlunsplit((scheme, netloc, url, query, fragment))] *)
Definition urlunsplit (scheme netloc url query fragment : str) : str :=
  let url :=
    if negb (str_eqb netloc [])
       || (negb (str_eqb scheme []) && in_list scheme uses_netloc
           && negb (str_eqb (slice_to url 2) (lit "//")))
    then
      let url :=
        if negb (str_eqb url []) && negb (str_eqb (slice_to url 1) (lit "/"))
        then lit "/" ++ url else url in
      lit "//" ++ netloc ++ url
    else url in
  let url := if negb (str_eqb scheme []) then scheme ++ lit ":" ++ url else url in
  let url := if negb (str_eqb query []) then url ++ lit "?" ++ query else url in
  let url := if negb (str_eqb fragment []) then url ++ lit "#" ++ fragment else url in
  url.

(** [urlunparse((scheme, netloc, url, params, query, fragment))] *)
Definition urlunparse (scheme netloc url params query fragment : str) : str :=
  let url := if negb (str_eqb params []) then url ++ lit ";" ++ params else url in
  urlunsplit scheme netloc url query fragment.

(** The assignment [segments[1:-1] = filter(None, segments[1:-1])]. *)
Definition filter_middle (segments : list str) : list str :=
  match segments with
  | [] => []
  | [a] => [a]
  | a :: rest =>
      a :: List.filter (fun w => negb (str_eqb w [])) (removelast rest)
        ++ [List.last rest []]
  end.

(** The loop of [urljoin] that removes dot segments. *)
Fixpoint resolve_segments (segments resolved_path : list str) : list str :=
  match segments with
  | [] => resolved_path
  | seg :: more =>
      if str_eqb seg (lit "..") then resolve_segments more (removelast resolved_path)
      else if str_eqb seg (lit ".") then resolve_segments more resolved_path
      else resolve_segments more (resolved_path ++ [seg])
  end.

(** [urljoin(base, url)] with [allow_fragments=True]. *)
Definition urljoin (base url : str) : result str :=
  match base, url with
  | [], _ => Ok url
  | _, [] => Ok base
  | _, _ =>
      '(bscheme, bnetloc, bpath, bparams, bquery, bfragment) ← urlparse base [];
      '(scheme, netloc, path, params, query, fragment) ← urlparse url bscheme;
      if negb (str_eqb scheme bscheme) || negb (in_list scheme uses_relative)
      then Ok url
      else if in_list scheme uses_netloc && negb (str_eqb netloc [])
      then Ok (urlunparse scheme netloc path params query fragment)
      else
        let netloc := if in_list scheme uses_netloc then bnetloc else netloc in
        if str_eqb path [] && str_eqb params [] then
          let query := if str_eqb query [] then bquery else query in
          Ok (urlunparse scheme netloc bpath bparams query fragment)
        else
          let base_parts := split 47 bpath in
          let base_parts :=
            if negb (str_eqb (List.last base_parts []) [])
            then removelast base_parts else base_parts in
          let segments :=
            if str_eqb (slice_to path 1) (lit "/") then split 47 path
            else filter_middle (base_parts ++ split 47 path) in
          let resolved_path := resolve_segments segments [] in
          let resolved_path :=
            if in_list (List.last segments []) [lit ".."; lit "."]
            then resolved_path ++ [[]] else resolved_path in
          let joined := join 47 resolved_path in
          Ok (urlunparse scheme netloc
                (if str_eqb joined [] then lit "/" else joined)
                params query fragment)
  end.

(** ** [normalize_url] *)

Definition BASE_URL : str := Eval cbv in lit "https://animezen.net".

Definition normalize_url (url : str) : result str :=
  url ← urljoin BASE_URL url;
  '(scheme, netloc, path, query, fragment) ← urlsplit url [];
  safe_path ← quote (unquote path) (lit "/()!.,;:@-_");
  safe_query ← quote_plus (unquote_plus query) (lit "=&");
  safe_fragment ← quote (unquote fragment) [];
  Ok (urlunsplit scheme netloc safe_path safe_query safe_fragment).

End WithRuntime.

(** ** [posixpath] *)

(** [os.path.basename(p)] *)
Definition basename (p : str) : str := slice_from p (rfind 47 p + 1).

(** [os.path.splitext(p)]: the extension starts at the last dot of the
    last component unless only dots precede it there. *)
Definition splitext (p : str) : str * str :=
  let sepIndex := rfind 47 p in
  let dotIndex := rfind 46 p in
  if (sepIndex <? dotIndex)
     && existsb (fun c => negb (c =? 46))
          (slice_to (slice_from p (sepIndex + 1)) (dotIndex - (sepIndex + 1)))
  then (slice_to p dotIndex, slice_from p dotIndex)
  else (p, []).

(** ** [_safe_filename_from_url] *)

Section WithRuntime.
Context `{RT : Runtime}.

Definition _safe_filename_from_url (url : str) : result str :=
  '(_, _, path, _, _, _) ← urlparse url [];
  let basename := basename path in
  let basename := unquote basename in
  let '(root, ext) := splitext basename in
  let ext := match ext with [] => lit ".mid" | _ => ext end in
  let safe_root := _slugify root 120 in
  Ok (safe_root ++ str_lower ext).

End WithRuntime.

(** ** The two patterns of the link extractor *)

Definition is_quote (c : Z) : bool := (c =? 34) || (c =? 39).

(** The href pattern of the extractor under [re.IGNORECASE], tried at the
    start of [s]: the letters of href in either case, an equals sign, a
    single or double quote, one or more characters that are no quote (the
    captured group), and a quote.  The result is the group and the length
    of the match. *)
Definition href_match (s : str) : option (str * nat) :=
  match s with
  | h :: r :: e :: f :: eq :: q :: rest =>
      if ((h =? 104) || (h =? 72)) && ((r =? 114) || (r =? 82))
         && ((e =? 101) || (e =? 69)) && ((f =? 102) || (f =? 70))
         && (eq =? 61) && is_quote q
      then
        let '(value, tail) := span_until is_quote rest in
        match value, tail with
        | _ :: _, _ :: _ => Some (value, (7 + length value)%nat)
        | _, _ => None
        end
      else None
  | _ => None
  end.

(** [re.findall] of that pattern: matches are taken left to right and do
    not overlap; [skip] characters of the last match are still to pass. *)
Fixpoint findall_href_from (skip : nat) (s : str) : list str :=
  match s with
  | [] => []
  | _ :: s' =>
      match skip with
      | S k => findall_href_from k s'
      | O =>
          match href_match s with
          | Some (value, n) => value :: findall_href_from (pred n) s'
          | None => findall_href_from 0 s'
          end
      end
  end.

Definition findall_href (html : str) : list str := findall_href_from 0 html.

(** The letters of [mid] under [re.IGNORECASE]: [i] also matches U+0130
    and U+0131. *)
Definition matches_m (c : Z) : bool := (c =? 109) || (c =? 77).
Definition matches_i (c : Z) : bool :=
  (c =? 105) || (c =? 73) || (c =? 304) || (c =? 305).
Definition matches_d (c : Z) : bool := (c =? 100) || (c =? 68).

(** [(\?|$)]: a question mark, the end, or a final newline. *)
Definition ext_end (s : str) : bool :=
  match s with
  | [] => true
  | c :: s' => (c =? 63) || ((c =? 10) && str_eqb s' [])
  end.

(** The pattern [\.(mid|midi)(\?|$)] tried at the start of [s]. *)
Definition midi_match (s : str) : bool :=
  match s with
  | dot :: m :: i :: d :: rest =>
      (dot =? 46) && matches_m m && matches_i i && matches_d d
      && (ext_end rest
          || match rest with
             | i2 :: rest' => matches_i i2 && ext_end rest'
             | [] => false
             end)
  | _ => false
  end.

(** [re.search] of that pattern under [re.IGNORECASE], as a truth value. *)
Fixpoint search_midi (s : str) : bool :=
  midi_match s ||
  match s with
  | [] => false
  | _ :: s' => search_midi s'
  end.

(** ** [parse_categories] and [parse_midis] *)

Record category := { cat_name : str; cat_url : str }.

Record midi := { midi_category_name : str; midi_title : str; midi_url : str }.

Definition midis_prefix : str := Eval cbv in lit "/midis/".

Section WithRuntime.
Context `{RT : Runtime}.

(** The body of the loop of [parse_categories] for one [href]: [None] is
    [continue]. *)
Definition category_of_href (href : str) : result (option category) :=
  if negb (startswith midis_prefix href) then Ok None
  else if str_eqb href (lit "/midis") then Ok None
  else if search_midi href then Ok None
  else
    url ← urljoin BASE_URL href;
    let name :=
      match after_first midis_prefix href with
      | Some rest =>
          match strip isspace (replace_char 45 32 (unquote rest)) with
          | [] => href
          | name => name
          end
      | None => href
      end in
    Ok (Some {| cat_name := name; cat_url := url |}).

Fixpoint collect_categories (hrefs : list str) : result (list category) :=
  match hrefs with
  | [] => Ok []
  | href :: more =>
      c ← category_of_href href;
      cs ← collect_categories more;
      Ok (match c with Some c => c :: cs | None => cs end)
  end.

Definition parse_categories (index_html : str) : result (list category) :=
  let hrefs : gset (list Z) := list_to_set (findall_href index_html) in
  collect_categories (sorted (elements hrefs)).

(** The first loop of [parse_midis]. *)
Fixpoint collect_midis (category_name : str) (hrefs : list str) : result (list midi) :=
  match hrefs with
  | [] => Ok []
  | href :: more =>
      if negb (search_midi href) then collect_midis category_name more
      else
        url ← normalize_url href;
        '(_, _, path, _, _, _) ← urlparse url [];
        let title := unquote (basename path) in
        ms ← collect_midis category_name more;
        Ok ({| midi_category_name := category_name; midi_title := title;
               midi_url := url |} :: ms)
  end.

(** The second loop of [parse_midis]: [seen] is the set of URLs already
    kept. *)
Fixpoint unique_midis (seen : gset (list Z)) (midis : list midi) : list midi :=
  match midis with
  | [] => []
  | m :: more =>
      if bool_decide (midi_url m ∈ seen) then unique_midis seen more
      else m :: unique_midis ({[midi_url m]} ∪ seen) more
  end.

Definition parse_midis (category_html category_name : str) : result (list midi) :=
  let hrefs := findall_href category_html in
  midis ← collect_midis category_name hrefs;
  Ok (unique_midis ∅ midis).

End WithRuntime.

(** ** Exception messages *)

Definition hex4 (c : Z) : str :=
  [hex_lower (c / 4096 mod 16); hex_lower (c / 256 mod 16);
   hex_lower (c / 16 mod 16); hex_lower (c mod 16)].

(** [str(e)] *)
Definition exn_str (e : exn) : str :=
  match e with
  | ValueError msg | OverflowError msg | FileNotFoundError msg
  | OSError msg | OtherError msg => msg
  | UnicodeEncodeError start stop obj =>
      if (stop =? S start)%nat then
        lit "'utf-8' codec can't encode character '\u"
        ++ hex4 (nth start obj 0) ++ lit "' in position " ++ str_of_nat start
        ++ lit ": surrogates not allowed"
      else
        lit "'utf-8' codec can't encode characters in position "
        ++ str_of_nat start ++ lit "-" ++ str_of_nat (pred stop)
        ++ lit ": surrogates not allowed"
  end.

(** ** A file tree

    Paths are [pathlib] paths below a fixed directory, given by their
    components; the empty path is that directory itself.  A tree maps the
    paths that exist to what they are.  Component names are plain names:
    the special entries [.] and [..] are not interpreted, and no name is
    refused for a NUL or for its length.  The tree is the file system of
    the code on the paths of [plain_path] below. *)

Inductive node :=
| File (data : bytes)
| Dir.

Abbreviation path := (list (list Z)).
Abbreviation tree := (gmap (list (list Z)) node).

(** [p.parent] and [p.name] *)
Definition parent (p : path) : path := removelast p.
Definition name (p : path) : str := List.last p [].

(** [PurePath.suffix] of a name. *)
Definition suffix (name : str) : str :=
  let i := rfind 46 name in
  if (0 <? i) && (i <? Z.of_nat (length name) - 1) then slice_from name i else [].

(** [p.with_suffix(suffix)] *)
Definition with_suffix (p : path) (sfx : str) : result path :=
  if mem 47 sfx then Raise (ValueError (lit "Invalid suffix"))
  else if (negb (str_eqb sfx []) && negb (startswith (lit ".") sfx))
          || str_eqb sfx (lit ".")
  then Raise (ValueError (lit "Invalid suffix"))
  else
    let name := name p in
    if str_eqb name [] then Raise (ValueError (lit "path has an empty name"))
    else
      let old_suffix := suffix name in
      let name :=
        if str_eqb old_suffix [] then name ++ sfx
        else slice_to name (- Z.of_nat (length old_suffix)) ++ sfx in
      Ok (parent p ++ [name]).

Definition tree_is_dir (t : tree) (p : path) : bool :=
  match p with
  | [] => true
  | _ => match t !! p with Some Dir => true | _ => false end
  end.

(** [p.exists()], on a path of plain names: an entry is at [p]. *)
Definition tree_exists (t : tree) (p : path) : bool :=
  match p with
  | [] => true
  | _ => match t !! p with Some _ => true | None => false end
  end.

Definition tree_is_file (t : tree) (p : path) : bool :=
  match t !! p with Some (File _) => true | _ => false end.

(** [os.mkdir(p)] *)
Definition os_mkdir (t : tree) (p : path) : result tree :=
  if tree_exists t p then Raise (OSError (lit "File exists"))
  else if tree_is_dir t (parent p) then Ok (<[p := Dir]> t)
  else if tree_exists t (parent p) then Raise (OSError (lit "Not a directory"))
  else Raise (FileNotFoundError (lit "No such file or directory")).

(** [p.mkdir(parents=False, exist_ok=True)] *)
Definition mkdir_single (t : tree) (p : path) : result tree :=
  match os_mkdir t p with
  | Ok t' => Ok t'
  | Raise (FileNotFoundError msg) => Raise (FileNotFoundError msg)
  | Raise e => if tree_is_dir t p then Ok t else Raise e
  end.

(** [p.mkdir(parents=True, exist_ok=True)] for the path [rev rp]: the
    recursion of [Path.mkdir] goes to the parent, which is [rev] of the
    tail of [rp]. *)
Fixpoint mkdir_from (t : tree) (rp : path) : result tree :=
  match os_mkdir t (rev rp) with
  | Ok t' => Ok t'
  | Raise (FileNotFoundError msg) =>
      match rp with
      | [] => Raise (FileNotFoundError msg)
      | _ :: rparent => t1 ← mkdir_from t rparent; mkdir_single t1 (rev rp)
      end
  | Raise e => if tree_is_dir t (rev rp) then Ok t else Raise e
  end.

Definition mkdir_parents (t : tree) (p : path) : result tree := mkdir_from t (rev p).

(** [p.open("wb")], on a path of plain names: the file is created or
    truncated. *)
Definition open_wb (t : tree) (p : path) : result tree :=
  if tree_is_dir t p then Raise (OSError (lit "Is a directory"))
  else if tree_is_dir t (parent p) then Ok (<[p := File []]> t)
  else Raise (FileNotFoundError (lit "No such file or directory")).

(** [out.write(chunk)] on the file opened at [p]. *)
Definition write_chunk (t : tree) (p : path) (chunk : bytes) : tree :=
  match t !! p with
  | Some (File data) => <[p := File (data ++ chunk)]> t
  | _ => t
  end.

(** [src.replace(dst)] for a regular file [src] (the scraper renames
    nothing else; renaming a directory is answered by an error here). *)
Definition replace_file (t : tree) (src dst : path) : result tree :=
  match t !! src with
  | Some (File data) =>
      if tree_is_dir t dst then Raise (OSError (lit "Is a directory"))
      else if tree_is_dir t (parent dst) then Ok (<[dst := File data]> (delete src t))
      else Raise (FileNotFoundError (lit "No such file or directory"))
  | Some Dir => Raise (OSError (lit "Is a directory"))
  | None => Raise (FileNotFoundError (lit "No such file or directory"))
  end.

(** [p.unlink()] *)
Definition unlink (t : tree) (p : path) : result tree :=
  match t !! p with
  | Some (File _) => Ok (delete p t)
  | Some Dir => Raise (OSError (lit "Is a directory"))
  | None => Raise (FileNotFoundError (lit "No such file or directory"))
  end.

(** ** The world of [download_file]

    The network is the environment: for the URL requested and the number of
    requests made before, it answers with an error of [urlopen] or with the
    results of the successive [resp.read] calls (after the last one the
    stream is at its end).  A [ReadError] stands for any failure inside the
    copying loop, of the network or of the disk.  The world records the
    file tree, the URLs requested, the delays slept (each with the file tree
    at that moment), and every file tree the program has produced, in
    order. *)

Inductive read_result :=
| Chunk (data : bytes)
| ReadError (e : exn).

Inductive response :=
| OpenError (e : exn)
| Stream (reads : list read_result).

Definition network := str -> nat -> response.

(** The body a stream delivers when it is read to its end: the chunks up to
    the first empty one; [None] when a read fails first. *)
Fixpoint stream_body (reads : list read_result) : option bytes :=
  match reads with
  | [] => Some []
  | Chunk [] :: _ => Some []
  | Chunk chunk :: more => (fun rest => chunk ++ rest) <$> stream_body more
  | ReadError _ :: _ => None
  end.

Record world := {
  w_tree : tree;
  w_requests : list str;
  w_sleeps : list (Q * tree);
  w_history : list tree;
}.

Definition prog (A : Type) : Type := world -> result A * world.

#[global] Instance prog_ret : MRet prog := fun A a w => (Ok a, w).
#[global] Instance prog_bind : MBind prog := fun A B f m w =>
  match m w with
  | (Ok a, w') => f a w'
  | (Raise e, w') => (Raise e, w')
  end.

(** [try: body except Exception as e: handler(e)] *)
Definition try_except {A} (body : prog A) (handler : exn -> prog A) : prog A :=
  fun w =>
    match body w with
    | (Ok a, w') => (Ok a, w')
    | (Raise e, w') => handler e w'
    end.

Definition lift {A} (r : result A) : prog A := fun w => (r, w).

Definition get_tree : prog tree := fun w => (Ok (w_tree w), w).

Definition with_tree (w : world) (t : tree) : world :=
  {| w_tree := t; w_requests := w_requests w; w_sleeps := w_sleeps w;
     w_history := w_history w ++ [t] |}.

Definition with_request (w : world) (url : str) : world :=
  {| w_tree := w_tree w; w_requests := w_requests w ++ [url];
     w_sleeps := w_sleeps w; w_history := w_history w |}.

Definition with_sleep (w : world) (secs : Q) : world :=
  {| w_tree := w_tree w; w_requests := w_requests w;
     w_sleeps := w_sleeps w ++ [(secs, w_tree w)]; w_history := w_history w |}.

Definition set_tree (t : tree) : prog unit := fun w => (Ok tt, with_tree w t).

(** A file operation: it changes the tree or raises. *)
Definition file_op (op : tree -> result tree) : prog unit :=
  t ← get_tree; t' ← lift (op t); set_tree t'.

Definition path_exists (p : path) : prog bool :=
  t ← get_tree; mret (tree_exists t p).

(** [urllib.request.urlopen(req)] *)
Definition urlopen (net : network) (url : str) : prog (list read_result) :=
  fun w =>
    match net url (length (w_requests w)) with
    | OpenError e => (Raise e, with_request w url)
    | Stream reads => (Ok reads, with_request w url)
    end.

(** [time.sleep(secs)]: the delay must fit the clock's 64-bit count of
    nanoseconds and must not be negative. *)
Definition Qltb (a b : Q) : bool := negb (Qle_bool b a).

Definition time_sleep (secs : Q) : prog unit := fun w =>
  let ns := (secs * inject_Z (10 ^ 9))%Q in
  if negb (Qle_bool (inject_Z (- 2 ^ 63)) ns && Qltb ns (inject_Z (2 ^ 63)))
  then (Raise (OverflowError (lit "timestamp too large to convert to C _PyTime_t")), w)
  else if Qltb secs 0
  then (Raise (ValueError (lit "sleep length must be non-negative")), w)
  else (Ok tt, with_sleep w secs).

(** [x * n] for a float [x] and an integer [n]: [n] is converted to a
    float first, which fails from [2 ** 1024] on. *)
Definition float_mul_int (x : Q) (n : Z) : result Q :=
  if 2 ^ 1024 <=? n then Raise (OverflowError (lit "int too large to convert to float"))
  else Ok (x * inject_Z n)%Q.

(** [range(n)] *)
Definition range (n : Z) : list Z := List.map Z.of_nat (seq 0 (Z.to_nat n)).

(** ** [download_file] *)

Section WithRuntime.
Context `{RT : Runtime}.

(** The loop [while True: chunk = resp.read(...)]. *)
Fixpoint copy_chunks (tmp_path : path) (reads : list read_result) : prog unit :=
  match reads return prog unit with
  | [] => mret tt
  | Chunk [] :: _ => mret tt
  | Chunk chunk :: more =>
      file_op (fun t => Ok (write_chunk t tmp_path chunk));;
      copy_chunks tmp_path more
  | ReadError e :: _ => lift (Raise e)
  end.

(** The body of the [try]. *)
Definition transfer (net : network) (url : str) (tmp_path dest_path : path) : prog unit :=
  req ← lift (normalize_url url);
  reads ← urlopen net req;
  file_op (fun t => open_wb t tmp_path);;
  copy_chunks tmp_path reads;;
  file_op (fun t => replace_file t tmp_path dest_path).

(** The best-effort cleanup of the handler. *)
Definition cleanup (tmp_path : path) : prog unit :=
  try_except (A := unit)
    (present ← path_exists tmp_path;
     if (present : bool) then file_op (fun t => unlink t tmp_path) else mret tt)
    (fun _ => mret tt).

(** One iteration of the loop, up to the [continue] or [break]: [None]
    when the [try] body reached its [return], else the exception caught. *)
Definition attempt_once (net : network) (url : str) (tmp_path dest_path : path)
    (retries : Z) (backoff_s : Q) (attempt : Z) : prog (option exn) :=
  try_except (A := option exn)
    (transfer net url tmp_path dest_path;; mret None)
    (fun e =>
       cleanup tmp_path;;
       (if attempt <? retries then
          secs ← lift (float_mul_int backoff_s (2 ^ attempt));
          time_sleep secs
        else mret tt);;
       mret (Some e)).

(** The [for attempt in range(retries + 1)] loop and the final [return]. *)
Fixpoint attempts_loop (net : network) (url : str) (tmp_path dest_path : path)
    (retries : Z) (backoff_s : Q) (attempts : list Z) (last_err : option exn)
  : prog (bool * str) :=
  match attempts with
  | [] =>
      mret (false, lit "error: " ++
                   match last_err with Some e => exn_str e | None => lit "None" end)
  | attempt :: more =>
      r ← attempt_once net url tmp_path dest_path retries backoff_s attempt;
      match r with
      | None => mret (true, lit "downloaded")
      | Some e =>
          if attempt <? retries
          then attempts_loop net url tmp_path dest_path retries backoff_s more (Some e)
          else mret (false, lit "error: " ++ exn_str e)
      end
  end.

(** [user_agent] and [timeout_s] only parametrise the request, which the
    network answers; they are not arguments here. *)
Definition download_file (net : network) (url : str) (dest_path : path)
    (retries : Z) (backoff_s : Q) (dry_run : bool) : prog (bool * str) :=
  present ← path_exists dest_path;
  if (present : bool) then mret (false, lit "exists")
  else if dry_run then mret (false, lit "dry-run")
  else
    file_op (fun t => mkdir_parents t (parent dest_path));;
    tmp_path ← lift (with_suffix dest_path (suffix (name dest_path) ++ lit ".part"));
    attempts_loop net url tmp_path dest_path retries backoff_s
      (range (retries + 1)) None.

End WithRuntime.

(** ** Vocabulary of the statements *)

(** A path component as [pathlib] produces them: not empty, no slash. *)
Definition valid_name (n : str) : Prop := n <> [] /\ mem 47 n = false.

(** [time.sleep] accepts the delay. *)
Definition sleep_accepts (secs : Q) : bool :=
  Qle_bool (inject_Z (- 2 ^ 63)) (secs * inject_Z (10 ^ 9))
  && Qltb (secs * inject_Z (10 ^ 9)) (inject_Z (2 ^ 63))
  && negb (Qltb secs 0).

(** The delay after failed attempt [k] can be computed and slept. *)
Definition delay_ok (backoff_s : Q) (k : Z) : bool :=
  (2 ^ k <? 2 ^ 1024) && sleep_accepts (backoff_s * inject_Z (2 ^ k)).

(** The response makes the transfer fail: the request fails, or a read
    fails before the end of the stream. *)
Definition response_fails (r : response) : bool :=
  match r with
  | OpenError _ => true
  | Stream reads => match stream_body reads with Some _ => false | None => true end
  end.

(** The exception that ends the reading of a stream, if one does: that of
    the first read that fails before the end. *)
Fixpoint stream_error (reads : list read_result) : option exn :=
  match reads with
  | [] => None
  | Chunk [] :: _ => None
  | Chunk _ :: more => stream_error more
  | ReadError e :: _ => Some e
  end.

(** The exception with which the response makes the transfer fail. *)
Definition response_error (r : response) : option exn :=
  match r with
  | OpenError e => Some e
  | Stream reads => stream_error reads
  end.

(** The temporary path of [download_file]. *)
Definition part_path (dest_path : path) : path :=
  parent dest_path ++ [name dest_path ++ lit ".part"].

(** What one run of a program appends to the logs of the world. *)
Record extends (w w1 : world) (hs : list tree) (rs : list str)
    (sl : list (Q * tree)) : Prop := {
  ext_history : w_history w1 = w_history w ++ hs;
  ext_requests : w_requests w1 = w_requests w ++ rs;
  ext_sleeps : w_sleeps w1 = w_sleeps w ++ sl;
}.

(** Nothing is at [dest]. *)
Definition absent (dest : path) (t : tree) : Prop := t !! dest = None.

(** The trees a failed step may leave: nothing at [dest], every path but
    [tmp] as before, and at [tmp] no directory that was not there. *)
Definition quiet (tmp dest : path) (t t1 : tree) : Prop :=
  t1 !! dest = None
  /\ (forall p, p <> tmp -> p <> dest -> t1 !! p = t !! p)
  /\ (tree_is_dir t tmp = false -> tree_is_dir t1 tmp = false).

(** The tree lets a transfer through: nothing is at [dest], no directory
    is at [tmp], and the parent of [dest] is a directory. *)
Definition ready (tmp dest : path) (t : tree) : Prop :=
  absent dest t /\ tree_is_dir t tmp = false /\ tree_is_dir t (parent dest) = true.

(** The delays slept after failed attempts [a], ..., [a + m - 1]. *)
Definition delays (backoff_s : Q) (a m : nat) : list Q :=
  List.map (fun k => (backoff_s * inject_Z (2 ^ Z.of_nat k))%Q) (seq a m).

(** During a sleep nothing is at [dest] and no file is at [tmp]. *)
Definition clean_sleep (tmp dest : path) (p : Q * tree) : Prop :=
  absent dest (snd p) /\ tree_is_file (snd p) tmp = false.

Section WithRuntime.
Context `{RT : Runtime}.

(** What a completed transfer leaves: the last tree produced holds the
    whole body of the last response at [dest] and nothing at [tmp]; the
    tree before it holds that body at [tmp]; no earlier tree has anything
    at [dest]. *)
Definition completed (net : network) (url : str) (tmp dest : path)
    (w w1 : world) (hs : list tree) (rs : list str) : Prop :=
  exists hs0 t_before rs0 u reads body,
    hs = hs0 ++ [t_before; w_tree w1]
    /\ Forall (absent dest) (hs0 ++ [t_before])
    /\ t_before !! tmp = Some (File body)
    /\ rs = rs0 ++ [u]
    /\ normalize_url url = Ok u
    /\ net u (length (w_requests w ++ rs0)) = Stream reads
    /\ stream_body reads = Some body
    /\ w_tree w1 !! dest = Some (File body)
    /\ w_tree w1 !! tmp = None.

(** What a failed attempt leaves, once its handler has cleaned up: [e] is
    the exception the [try] body raised from [w]. *)
Definition failed_attempt (net : network) (url : str) (tmp dest : path)
    (e : exn) (w w1 : world) (hs : list tree) : Prop :=
  Forall (absent dest) hs
  /\ quiet tmp dest (w_tree w) (w_tree w1)
  /\ tree_is_file (w_tree w1) tmp = false
  /\ fst (transfer net url tmp dest w) = Raise e
  /\ w_tree w1 = w_tree (snd (cleanup tmp (snd (transfer net url tmp dest w)))).

(** The exception of the attempt that finds [n] requests made, when no
    file operation fails: that of [normalize_url], which makes no request,
    or else that of the response to request number [n]. *)
Definition attempt_error (net : network) (url : str) (n : nat) : option exn :=
  match normalize_url url with
  | Raise e => Some e
  | Ok u => response_error (net u n)
  end.

End WithRuntime.

Section WithRuntime.
Context `{RT : Runtime}.

(** The entry [parse_midis] builds for a matching [href]. *)
Definition midi_entry_of (category_name href : str) (m : midi) : Prop :=
  search_midi href = true
  /\ normalize_url href = Ok (midi_url m)
  /\ midi_category_name m = category_name
  /\ exists scheme netloc path params query fragment,
       urlparse (midi_url m) [] = Ok (scheme, netloc, path, params, query, fragment)
       /\ midi_title m = unquote (basename path).

(** The entry [parse_categories] builds for an [href] that it keeps. *)
Definition category_entry_of (href : str) (c : category) : Prop :=
  exists rest tail,
    href = midis_prefix ++ rest
    /\ urljoin BASE_URL href = Ok (cat_url c)
    /\ cat_url c = BASE_URL ++ tail
    /\ cat_name c = match strip isspace (replace_char 45 32 (unquote rest)) with
                    | [] => href
                    | name => name
                    end.

End WithRuntime.

(** The hrefs [parse_categories] keeps. *)
Definition is_category_href (h : str) : bool :=
  startswith midis_prefix h && negb (search_midi h).

(** Strictly increasing in the order of [sorted]. *)
Fixpoint increasing (l : list str) : bool :=
  match l with
  | a :: (b :: _) as l' => str_ltb a b && increasing l'
  | _ => true
  end.

(** The letters of [mid] or [midi] in either case. *)
Definition is_mid_ext (ext : str) : Prop :=
  exists m i d tail,
    ext = m :: i :: d :: tail
    /\ matches_m m = true /\ matches_i i = true /\ matches_d d = true
    /\ (tail = [] \/ exists i2, tail = [i2] /\ matches_i i2 = true).

(** A Unicode scalar value: a code point that is no surrogate. *)
Definition is_scalar (c : Z) : bool :=
  ((0 <=? c) && (c <? 55296)) || ((57344 <=? c) && (c <? 1114112)).

Definition is_byte (b : Z) : bool := (0 <=? b) && (b <? 256).

(** What the quoter can write: safe characters, the percent sign and
    hexadecimal digits. *)
Definition quoted_char (safe : str) (c : Z) : Prop :=
  (always_safe c || (is_ascii c && mem c safe)) = true
  \/ c = 37 \/ (exists x, 0 <= x < 16 /\ c = hex_upper x).

(** A name under which a POSIX file system can hold a new file: not empty,
    without NUL and slash, and neither of the entries [.] and [..]. *)
Definition posix_file_name (n : str) : bool :=
  negb (str_eqb n []) && negb (mem 0 n) && negb (mem 47 n)
  && negb (str_eqb n (lit ".")) && negb (str_eqb n (lit "..")).

(** The number of bytes of a name in UTF-8, the encoding of file names. *)
Definition utf8_size (c : Z) : Z :=
  if c <? 128 then 1 else if c <? 2048 then 2 else if c <? 65536 then 3 else 4.

Definition name_bytes (n : str) : Z := fold_right (fun c k => utf8_size c + k) 0 n.

(** A name the file system takes for an entry: a [posix_file_name] of
    Unicode scalar values whose encoding has at most 255 bytes
    ([NAME_MAX]). *)
Definition plain_name (n : str) : bool :=
  posix_file_name n && forallb is_scalar n && (name_bytes n <=? 255).

(** A path of plain names that fits [PATH_MAX] with its separators.  On
    these paths the keys of the tree are the entries of the file system. *)
Definition plain_path (p : path) : bool :=
  forallb plain_name p && (fold_right (fun n k => name_bytes n + 1 + k) 0 p <? 4096).

(** ** The stages of [urlsplit], for the statements about URLs *)

(** One of the characters [urlsplit] removes: tab, line feed, carriage
    return. *)
Definition is_unsafe (c : Z) : bool := (c =? 9) || (c =? 10) || (c =? 13).

(** The URL after the stripping and the removals at the head of
    [urlsplit]. *)
Definition clean_url (url : str) : str := remove_unsafe (lstrip c0_or_space url).

(** The test under which [urlsplit] reads a scheme off the URL. *)
Definition has_scheme (u : str) : bool :=
  match u with
  | c0 :: _ =>
      (0 <? find 58 u) && is_ascii c0 && is_alpha_ascii c0
      && forallb scheme_char (slice_to u (find 58 u))
  | [] => false
  end.

Definition after_scheme (u : str) : str :=
  if has_scheme u then slice_from u (find 58 u + 1) else u.

Definition has_netloc (rest : str) : bool := str_eqb (slice_to rest 2) (lit "//").

Definition netloc_of (rest : str) : str :=
  if has_netloc rest then fst (_splitnetloc rest) else [].

Definition after_netloc (rest : str) : str :=
  if has_netloc rest then snd (_splitnetloc rest) else rest.

Definition body_of (tail : str) : str :=
  if mem 35 tail then fst (fst (partition 35 tail)) else tail.

Definition fragment_of (tail : str) : str :=
  if mem 35 tail then snd (partition 35 tail) else [].

Definition path_of (tail : str) : str :=
  if mem 63 (body_of tail) then fst (fst (partition 63 (body_of tail)))
  else body_of tail.

Definition query_of (tail : str) : str :=
  if mem 63 (body_of tail) then snd (partition 63 (body_of tail)) else [].

(** A scheme as [urlsplit] returns it when it reads one: lowercase scheme
    characters after a first letter. *)
Definition good_scheme (s : str) : bool :=
  match s with
  | c :: _ => is_lower c && forallb (fun x => scheme_char x && negb (is_upper x)) s
  | [] => false
  end.

(** The characters that can stand in the components of a split URL. *)
Definition netloc_char (c : Z) : bool := negb (is_unsafe c) && negb (is_delim c).
Definition path_char (c : Z) : bool :=
  negb (is_unsafe c) && negb (c =? 63) && negb (c =? 35).
Definition query_char (c : Z) : bool := negb (is_unsafe c) && negb (c =? 35).
Definition fragment_char (c : Z) : bool := negb (is_unsafe c).

(** The slash [urlunsplit] puts between a network location and a path
    that does not start with one. *)
Definition slashed (url : str) : str :=
  if negb (str_eqb url []) && negb (str_eqb (slice_to url 1) (lit "/"))
  then lit "/" ++ url else url.

Section WithRuntime.
Context `{RT : Runtime}.

Definition scheme_of (u default : str) : str :=
  if has_scheme u then str_lower (slice_to u (find 58 u))
  else remove_unsafe (strip c0_or_space default).

(** The checks of [urlsplit] on the brackets of a network location. *)
Definition check_brackets (n : str) : result unit :=
  if (mem 91 n && negb (mem 93 n)) || (mem 93 n && negb (mem 91 n))
  then Raise invalid_ipv6
  else if mem 91 n && mem 93 n then _check_bracketed_netloc n else Ok tt.

Definition netloc_accepted (n : str) : bool :=
  is_ok (check_brackets n) && is_ok (_checknetloc n).

(** The path [urljoin] computes for a reference with the path [path]
    against a base whose path is empty. *)
Definition join_root (path : str) : str :=
  let segments :=
    if str_eqb (slice_to path 1) (lit "/") then split 47 path
    else filter_middle ([[]] ++ split 47 path) in
  let resolved_path := resolve_segments segments [] in
  let resolved_path :=
    if in_list (List.last segments []) [lit ".."; lit "."]
    then resolved_path ++ [[]] else resolved_path in
  let joined := join 47 resolved_path in
  if str_eqb joined [] then lit "/" else joined.

(** The five parts [normalize_url] hands to [urlunsplit]. *)
Definition normalize_parts (url : str) : result (str * str * str * str * str) :=
  url ← urljoin BASE_URL url;
  '(scheme, netloc, path, query, fragment) ← urlsplit url [];
  safe_path ← quote (unquote path) (lit "/()!.,;:@-_");
  safe_query ← quote_plus (unquote_plus query) (lit "=&");
  safe_fragment ← quote (unquote fragment) [];
  Ok (scheme, netloc, safe_path, safe_query, safe_fragment).

End WithRuntime.

(** ** Concrete inputs *)

(** A source that refuses the first request, breaks off the second one
    after two bytes and serves the third one. *)
Definition flaky_net : network := fun _ n =>
  match n with
  | O => OpenError (OtherError (lit "timed out"))
  | S O => Stream [Chunk [77; 84]; ReadError (OtherError (lit "connection reset"))]
  | _ => Stream [Chunk [77; 84]; Chunk [104; 100]]
  end.

(** A source that serves every request. *)
Definition steady_net : network := fun _ _ => Stream [Chunk [77; 84]; Chunk [104; 100]].

Definition empty_world : world :=
  {| w_tree := ∅; w_requests := []; w_sleeps := []; w_history := [] |}.

(** A world in which a file sits where the directory of the downloads
    should be. *)
Definition blocked_world : world :=
  {| w_tree := {[ [lit "downloaded_midis"] := File [] ]};
     w_requests := []; w_sleeps := []; w_history := [] |}.

Definition song_url : str := Eval cbv in lit "/midis/Ah! My Goddess - Opening.mid".

Definition song_path : path :=
  Eval cbv in [lit "downloaded_midis"; lit "ah-my-goddess"; lit "opening.mid"].

(** A double quote, for markup. *)
Definition dq : str := [34].

(** An index page with the bare index link, a series link and a direct
    file link. *)
Definition evangelion_html : str :=
  Eval cbv in
    lit "<a href=" ++ dq ++ lit "/midis" ++ dq ++ lit ">All</a> <a href=" ++ dq
    ++ lit "/midis/evangelion" ++ dq ++ lit ">Evangelion</a> <a href=" ++ dq
    ++ lit "/midis/boo.mid" ++ dq ++ lit ">boo</a>".

(** An index page with two links that resolve to the same URL. *)
Definition twin_html : str :=
  Eval cbv in
    lit "<a href=" ++ dq ++ lit "/midis/a b" ++ dq ++ lit ">one</a> <a href=" ++ dq
    ++ lit "/midis/./a b" ++ dq ++ lit ">two</a>".

(** A series page that links the same file twice. *)
Definition goddess_html : str :=
  Eval cbv in
    lit "<a href=" ++ dq ++ lit "https://site/midis/Ah! My Goddess - Opening.mid" ++ dq
    ++ lit ">Opening</a> <a href=" ++ dq
    ++ lit "https://site/midis/Ah! My Goddess - Opening.mid" ++ dq ++ lit ">again</a>".

(** ** Vocabulary for further properties *)

(** No two hyphens in a row. *)
Fixpoint no_double_hyphen (s : str) : bool :=
  match s with
  | a :: (b :: _) as s' => negb (is_hyphen a && is_hyphen b) && no_double_hyphen s'
  | _ => true
  end.

(** A printable ASCII character that is no space. *)
Definition is_printable (c : Z) : bool := (32 <? c) && (c <? 127).

(** Every path but [tmp] and [dest] holds what it held. *)
Definition same_elsewhere (tmp dest : path) (t t1 : tree) : Prop :=
  forall p, p <> tmp -> p <> dest -> t1 !! p = t !! p.

(** A step of a program that makes no request and leaves every path but
    [tmp] and [dest] as it is. *)
Definition quiet_step {A} (tmp dest : path) (m : prog A) : Prop :=
  forall w r w1, m w = (r, w1) ->
    same_elsewhere tmp dest (w_tree w) (w_tree w1) /\ w_requests w1 = w_requests w.

(** The requests of [k] attempts for [url]: none when [normalize_url]
    rejects it. *)
(** What [mkdir] may do at the path [q] on the way to [target]: nothing, or
    make a directory where nothing was, at a prefix of [target]. *)
Definition made_dirs (target : path) (t t1 : tree) (q : path) : Prop :=
  t1 !! q = t !! q
  \/ (t !! q = None /\ t1 !! q = Some Dir /\ q `prefix_of` target).

Definition requests_of `{Runtime} (url : str) (k : nat) : list str :=
  match normalize_url url with
  | Ok u => repeat u k
  | Raise _ => []
  end.

(** ** Tactics *)

(** Left shifts by the widths of the UTF-8 fields, as multiplications. *)
Ltac shifts :=
  rewrite ?Z.shiftl_mul_pow2 by lia;
  change (2 ^ 6) with 64; change (2 ^ 12) with 4096; change (2 ^ 18) with 262144.


(** * Properties *)

(** ** Strings and slices *)

Lemma slice_to_nonneg {A} (l : list A) (n : Z) :
  0 <= n -> slice_to l n = firstn (Z.to_nat n) l.
Proof.
  intros Hn. unfold slice_to, slice_index.
  destruct (Z.ltb_spec n 0); [lia|].
  destruct (Z.le_gt_cases n (Z.of_nat (length l))).
  - now rewrite Z.min_l.
  - rewrite Z.min_r, Nat2Z.id by lia.
    rewrite !firstn_all2; [reflexivity | lia | lia].
Qed.

Lemma slice_to_length {A} (l : list A) (n : Z) :
  0 <= n -> Z.of_nat (length (slice_to l n)) <= n.
Proof.
  intros Hn. rewrite slice_to_nonneg by assumption.
  rewrite length_firstn. lia.
Qed.

Lemma Forall_slice_to {A} (P : A -> Prop) (l : list A) (n : Z) :
  Forall P l -> Forall P (slice_to l n).
Proof. intros H. unfold slice_to. now apply Forall_take. Qed.

Lemma Forall_lstrip (P : Z -> Prop) (p : Z -> bool) (s : str) :
  Forall P s -> Forall P (lstrip p s).
Proof.
  induction 1 as [|c s Hc Hs IH]; simpl; [constructor|].
  destruct (p c); [exact IH | now constructor].
Qed.

Lemma Forall_strip (P : Z -> Prop) (p : Z -> bool) (s : str) :
  Forall P s -> Forall P (strip p s).
Proof.
  intros H. unfold strip, rstrip.
  apply Forall_rev, Forall_lstrip, Forall_rev, Forall_lstrip, H.
Qed.

(** ** [_slugify] *)

Lemma Forall_sub_runs_from (P : Z -> Prop) cls rep in_run (s : str) :
  Forall P rep ->
  Forall (fun c => cls c = false -> P c) s ->
  Forall P (sub_runs_from cls rep in_run s).
Proof.
  intros Hrep Hs. revert in_run.
  induction Hs as [|c s Hc Hs IH]; intros in_run; simpl; [constructor|].
  destruct (cls c) eqn:E.
  - apply Forall_app. split; [destruct in_run; [constructor | exact Hrep] | apply IH].
  - constructor; [now apply Hc | apply IH].
Qed.

Lemma slug_char_hyphen : Forall (fun c => slug_char c = true) (lit "-").
Proof. repeat constructor. Qed.

Lemma slug_chars_untitled : Forall (fun c => slug_char c = true) untitled.
Proof. repeat constructor. Qed.

(** C6, the falsifying input: with [max_len = 5] the empty text gives the
    eight-character fallback, so the length bound of the claim fails. *)
Lemma slugify_fallback_longer_than_max_len :
  let s := @_slugify ascii_runtime [] 5 in
  ~ (Forall (fun c => slug_char c = true) s
     /\ Z.of_nat (length s) <= 5
     /\ s <> []).
Proof. intros s (_ & Hlen & _). vm_compute in Hlen. now apply Hlen. Qed.

(** C6, as amended: for every text and every [max_len >= 0] the slug is not
    empty, contains only characters of [[a-z0-9-_.()]], and either is the
    fallback [untitled] or has at most [max_len] characters. *)
Theorem slugify_safe `{RT : Runtime} (text : str) (max_len : Z) :
  0 <= max_len ->
  let s := _slugify text max_len in
  Forall (fun c => slug_char c = true) s
  /\ s <> []
  /\ (s = untitled \/ Z.of_nat (length s) <= max_len).
Proof.
  intros Hlen. unfold _slugify.
  set (t := strip is_hyphen _).
  assert (Ht : Forall (fun c => slug_char c = true) t).
  { subst t. apply Forall_strip.
    apply Forall_sub_runs_from; [exact slug_char_hyphen|].
    apply Forall_forall. intros c Hc _. revert c Hc. apply Forall_forall.
    apply Forall_sub_runs_from; [exact slug_char_hyphen|].
    apply Forall_forall. intros c _ Hcls.
    now apply negb_false_iff in Hcls. }
  pose proof (Forall_slice_to _ t max_len Ht) as Hs.
  pose proof (slice_to_length t max_len Hlen) as Hl.
  destruct (slice_to t max_len) as [|c r] eqn:E; cbv zeta.
  - split; [exact slug_chars_untitled|]. split; [discriminate | now left].
  - split; [exact Hs|]. split; [discriminate | now right].
Qed.

Lemma slugify_safe_witness :
  let s := @_slugify ascii_runtime (lit "Ah! My Goddess") 120 in
  Forall (fun c => slug_char c = true) s
  /\ s <> []
  /\ (s = untitled \/ Z.of_nat (length s) <= 120).
Proof. apply (@slugify_safe ascii_runtime (lit "Ah! My Goddess") 120). lia. Defined.

(** ** [iter_selected] *)

(** C10: a non-negative limit keeps the first [n] items; a negative or an
    absent limit keeps the list as it is. *)
Theorem iter_selected_limit {A} (items : list A) :
  (forall n, 0 <= n -> iter_selected items (Some n) = firstn (Z.to_nat n) items)
  /\ (forall n, n < 0 -> iter_selected items (Some n) = items)
  /\ iter_selected items None = items.
Proof.
  split; [|split]; [intros n Hn | intros n Hn | reflexivity]; unfold iter_selected.
  - destruct (Z.ltb_spec n 0); [lia|]. now apply slice_to_nonneg.
  - destruct (Z.ltb_spec n 0); [reflexivity | lia].
Qed.

Lemma iter_selected_limit_witness :
  iter_selected [1; 2; 3] (Some 2) = [1; 2]
  /\ iter_selected [1; 2; 3] (Some (-1)) = [1; 2; 3].
Proof.
  destruct (iter_selected_limit [1; 2; 3]) as (Hpos & Hneg & _).
  split; [rewrite Hpos by lia; reflexivity | apply Hneg; lia].
Defined.

(** ** Searching and slicing *)

Lemma str_eqb_eq (a b : str) : str_eqb a b = true <-> a = b.
Proof. unfold str_eqb. apply bool_decide_eq_true. Qed.

Lemma str_eqb_neq (a b : str) : str_eqb a b = false <-> a <> b.
Proof. unfold str_eqb. apply bool_decide_eq_false. Qed.

Lemma str_eqb_refl (a : str) : str_eqb a a = true.
Proof. now apply str_eqb_eq. Qed.

Lemma mem_app c (a b : str) : mem c (a ++ b) = mem c a || mem c b.
Proof. unfold mem. apply existsb_app. Qed.

Lemma mem_cons c x (s : str) : mem c (x :: s) = (c =? x) || mem c s.
Proof. reflexivity. Qed.

Lemma mem_false_Forall c (s : str) : mem c s = false <-> Forall (fun x => x <> c) s.
Proof.
  induction s as [|x s IH]; cbn.
  - split; [constructor | reflexivity].
  - rewrite orb_false_iff, IH. split.
    + intros [Hx Hs]. constructor; [|exact Hs]. apply Z.eqb_neq in Hx. congruence.
    + intros H. inversion H; subst. split; [|assumption]. apply Z.eqb_neq. congruence.
Qed.

Lemma mem_rev c (s : str) : mem c (rev s) = mem c s.
Proof.
  induction s as [|x s IH]; [reflexivity|].
  cbn [rev]. rewrite mem_app, IH, mem_cons. cbn. now rewrite orb_false_r, orb_comm.
Qed.

Lemma find_from_spec c (s : str) : forall i,
  (find_from c s i = -1 /\ mem c s = false)
  \/ (exists a b, s = a ++ c :: b /\ find_from c s i = i + Z.of_nat (length a)
                  /\ mem c a = false).
Proof.
  induction s as [|x s IH]; intros i; [now left|].
  cbn [find_from]. rewrite mem_cons. destruct (Z.eqb_spec x c) as [->|Hne].
  - right. exists [], s. cbn. split; [reflexivity|]. split; [lia | reflexivity].
  - destruct (IH (i + 1)) as [[Hf Hm]|(a & b & -> & Hf & Hm)].
    + left. split; [exact Hf|]. rewrite Hm.
      destruct (Z.eqb_spec c x); [congruence | reflexivity].
    + right. exists (x :: a), b. split; [reflexivity|].
      split; [rewrite Hf; cbn [length]; lia|].
      rewrite mem_cons, Hm. destruct (Z.eqb_spec c x); [congruence | reflexivity].
Qed.

Lemma find_spec c (s : str) :
  (find c s = -1 /\ mem c s = false)
  \/ (exists a b, s = a ++ c :: b /\ find c s = Z.of_nat (length a)
                  /\ mem c a = false).
Proof. unfold find. exact (find_from_spec c s 0). Qed.

Lemma rfind_spec c (s : str) :
  (rfind c s = -1 /\ mem c s = false)
  \/ (exists a b, s = a ++ c :: b /\ rfind c s = Z.of_nat (length a)
                  /\ mem c b = false).
Proof.
  unfold rfind. destruct (find_spec c (rev s)) as [[Hf Hm]|(a & b & Hs & Hf & Hm)].
  - left. rewrite Hf. cbn. split; [reflexivity|]. now rewrite <- mem_rev.
  - right. rewrite Hf. destruct (Z.ltb_spec (Z.of_nat (length a)) 0); [lia|].
    exists (rev b), (rev a).
    assert (Hs' : s = rev b ++ c :: rev a).
    { rewrite <- (rev_involutive s), Hs, rev_app_distr. cbn [rev].
      now rewrite <- app_assoc. }
    split; [exact Hs'|]. split; [|now rewrite mem_rev].
    rewrite Hs' at 1. rewrite length_app. cbn [length]. rewrite !length_rev. lia.
Qed.

Lemma slice_to_app {A} (a b : list A) : slice_to (a ++ b) (Z.of_nat (length a)) = a.
Proof.
  rewrite slice_to_nonneg by lia. rewrite Nat2Z.id.
  now rewrite firstn_app, firstn_all, Nat.sub_diag, app_nil_r.
Qed.

Lemma slice_from_app {A} (a b : list A) : slice_from (a ++ b) (Z.of_nat (length a)) = b.
Proof.
  unfold slice_from, slice_index. destruct (Z.ltb_spec (Z.of_nat (length a)) 0); [lia|].
  rewrite length_app, Z.min_l by lia. rewrite Nat2Z.id.
  now rewrite skipn_app, skipn_all, Nat.sub_diag.
Qed.

Lemma slice_to_neg_app {A} (a b : list A) :
  b <> [] -> slice_to (a ++ b) (- Z.of_nat (length b)) = a.
Proof.
  intros Hb. unfold slice_to, slice_index.
  assert (0 < length b)%nat by (destruct b; [easy | cbn; lia]).
  destruct (Z.ltb_spec (- Z.of_nat (length b)) 0); [|lia].
  rewrite length_app. rewrite Z.max_r by lia.
  replace (Z.to_nat _) with (length a) by lia.
  now rewrite firstn_app, firstn_all, Nat.sub_diag, app_nil_r.
Qed.

Lemma slice_to_all {A} (l : list A) (n : Z) :
  Z.of_nat (length l) <= n -> slice_to l n = l.
Proof.
  intros H. rewrite slice_to_nonneg by lia. apply firstn_all2. lia.
Qed.

Lemma startswith_app (p s : str) : startswith p (p ++ s) = true.
Proof. induction p as [|c p IH]; [reflexivity|]. cbn. now rewrite Z.eqb_refl. Qed.

Lemma startswith_inv (p s : str) :
  startswith p s = true -> exists r, s = p ++ r.
Proof.
  revert s. induction p as [|c p IH]; intros s H; [now exists s|].
  destruct s as [|x s]; [discriminate|]. cbn in H.
  apply andb_true_iff in H as [Hc Hp]. apply Z.eqb_eq in Hc as ->.
  destruct (IH s Hp) as (r & ->). now exists r.
Qed.

(** ** [PurePath.suffix] and [with_suffix] *)

Lemma parent_snoc (p : path) (x : str) : parent (p ++ [x]) = p.
Proof. unfold parent. apply removelast_last. Qed.

Lemma name_snoc (p : path) (x : str) : name (p ++ [x]) = x.
Proof. unfold name. apply last_last. Qed.


Lemma suffix_spec (n : str) :
  suffix n = [] \/ exists a b, n = a ++ 46 :: b /\ suffix n = 46 :: b /\ b <> [].
Proof.
  unfold suffix. destruct (rfind_spec 46 n) as [[Hr _]|(a & b & Hn & Hr & _)].
  - rewrite Hr. now left.
  - rewrite Hr. destruct (_ && _) eqn:E; [|now left].
    right. exists a, b. split; [exact Hn|].
    apply andb_true_iff in E as [_ Hlt]. apply Z.ltb_lt in Hlt.
    rewrite Hn at 1. rewrite slice_from_app. split; [reflexivity|].
    intros ->. rewrite Hn, length_app in Hlt. cbn in Hlt. lia.
Qed.

Lemma with_suffix_part (dest : path) :
  let sfx := suffix (name dest) ++ lit ".part" in
  with_suffix dest sfx =
  if mem 47 sfx then Raise (ValueError (lit "Invalid suffix"))
  else if str_eqb (name dest) [] then Raise (ValueError (lit "path has an empty name"))
  else Ok (part_path dest).
Proof.
  intros sfx. unfold with_suffix. fold sfx. destruct (mem 47 sfx); [reflexivity|].
  assert (Hcheck : (negb (str_eqb sfx []) && negb (startswith (lit ".") sfx))
                   || str_eqb sfx (lit ".") = false).
  { subst sfx. destruct (suffix_spec (name dest)) as [->|(a & b & _ & -> & _)].
    - reflexivity.
    - apply orb_false_iff. split.
      + cbn. now rewrite Z.eqb_refl, andb_false_r.
      + apply str_eqb_neq. destruct b; [|discriminate]. discriminate. }
  rewrite Hcheck. destruct (str_eqb (name dest) []); [reflexivity|].
  unfold part_path. do 3 f_equal. subst sfx.
  destruct (suffix_spec (name dest)) as [->|(a & b & Hn & Hs & Hb)].
  - reflexivity.
  - rewrite Hs. assert (Hne : str_eqb (46 :: b) [] = false) by now apply str_eqb_neq.
    rewrite Hne. rewrite Hn at 1.
    rewrite (slice_to_neg_app a (46 :: b)) by discriminate.
    rewrite Hn. now rewrite <- app_assoc.
Qed.

Lemma with_suffix_part_ok (dest : path) :
  valid_name (name dest) ->
  with_suffix dest (suffix (name dest) ++ lit ".part") = Ok (part_path dest).
Proof.
  intros [Hne Hslash]. rewrite with_suffix_part.
  assert (Hm : mem 47 (suffix (name dest) ++ lit ".part") = false).
  { rewrite mem_app. apply orb_false_iff. split; [|reflexivity].
    destruct (suffix_spec (name dest)) as [->|(a & b & Hn & -> & _)]; [reflexivity|].
    rewrite Hn, mem_app in Hslash. now apply orb_false_iff in Hslash. }
  rewrite Hm. apply str_eqb_neq in Hne. now rewrite Hne.
Qed.

Lemma with_suffix_part_inv (dest tmp : path) :
  with_suffix dest (suffix (name dest) ++ lit ".part") = Ok tmp ->
  tmp = part_path dest /\ name dest <> [].
Proof.
  rewrite with_suffix_part. destruct (mem _ _); [discriminate|].
  destruct (str_eqb (name dest) []) eqn:E; [discriminate|].
  intros [= <-]. split; [reflexivity | now apply str_eqb_neq].
Qed.

Lemma part_path_neq (dest : path) : part_path dest <> dest.
Proof.
  unfold part_path. intros H.
  destruct dest as [|c r] using rev_ind; [now destruct (parent [])|].
  rewrite parent_snoc, name_snoc in H.
  apply app_inj_tail in H as [_ H].
  apply (f_equal (@length Z)) in H. rewrite length_app in H. cbn in H. lia.
Qed.

(** ** The file tree and the world *)


Lemma path_split_last (p : path) : p <> [] -> p = parent p ++ [name p].
Proof. intros H. unfold parent, name. now apply app_removelast_last. Qed.

Lemma last_cons_default {A} (l : list A) (x d d' : A) :
  List.last (x :: l) d = List.last (x :: l) d'.
Proof. revert x. induction l as [|y l IH]; intros x; [reflexivity | apply (IH y)]. Qed.

Lemma tree_exists_None (t : tree) (p : path) :
  tree_exists t p = false -> p <> [] /\ t !! p = None.
Proof.
  unfold tree_exists. destruct p; [discriminate|].
  destruct (t !! _); [discriminate | now split].
Qed.

Lemma tree_exists_Some (t : tree) (p : path) (n : node) :
  t !! p = Some n -> tree_exists t p = true.
Proof. intros H. unfold tree_exists. destruct p; [reflexivity | now rewrite H]. Qed.

Lemma tree_is_dir_absent (t : tree) (p : path) :
  p <> [] -> t !! p = None -> tree_is_dir t p = false.
Proof. intros Hp H. unfold tree_is_dir. destruct p; [easy | now rewrite H]. Qed.

Lemma extends_refl w : extends w w [] [] [].
Proof. split; now rewrite app_nil_r. Qed.

Lemma extends_trans w w1 w2 hs rs sl hs' rs' sl' :
  extends w w1 hs rs sl -> extends w1 w2 hs' rs' sl' ->
  extends w w2 (hs ++ hs') (rs ++ rs') (sl ++ sl').
Proof.
  intros [H1 H2 H3] [H1' H2' H3'].
  split; rewrite app_assoc; congruence.
Qed.

Lemma extends_trans_eq w w1 w2 hs rs sl hs' rs' sl' hs2 rs2 sl2 :
  extends w w1 hs rs sl -> extends w1 w2 hs' rs' sl' ->
  hs2 = hs ++ hs' -> rs2 = rs ++ rs' -> sl2 = sl ++ sl' ->
  extends w w2 hs2 rs2 sl2.
Proof. intros H1 H2 -> -> ->. eapply extends_trans; eassumption. Qed.

Lemma bind_run {A B} (m : prog A) (f : A -> prog B) (w : world) :
  (m ≫= f) w =
  match m w with
  | (Ok a, w') => f a w'
  | (Raise e, w') => (Raise e, w')
  end.
Proof. reflexivity. Qed.

Lemma file_op_run (op : tree -> result tree) (w : world) :
  file_op op w =
  match op (w_tree w) with
  | Ok t' => (Ok tt, with_tree w t')
  | Raise e => (Raise e, w)
  end.
Proof. unfold file_op. rewrite bind_run. cbn. now destruct (op (w_tree w)). Qed.

Lemma extends_with_tree w t : extends w (with_tree w t) [t] [] [].
Proof. split; cbn; now rewrite ?app_nil_r. Qed.

Lemma extends_with_request w u : extends w (with_request w u) [] [u] [].
Proof. split; cbn; now rewrite ?app_nil_r. Qed.

Lemma extends_with_sleep w d : extends w (with_sleep w d) [] [] [(d, w_tree w)].
Proof. split; cbn; now rewrite ?app_nil_r. Qed.

Section Download.
Context `{RT : Runtime}.
Variable net : network.
Variable url : str.
Variables tmp dest : path.
Hypothesis tmp_dest : tmp <> dest.
Hypothesis dest_nonempty : dest <> [].

Lemma quiet_refl t : t !! dest = None -> quiet tmp dest t t.
Proof. now split. Qed.

Lemma quiet_trans t t1 t2 :
  quiet tmp dest t t1 -> quiet tmp dest t1 t2 -> quiet tmp dest t t2.
Proof.
  intros (_ & H2 & H3) (H1' & H2' & H3').
  split; [exact H1'|]. split; [|auto].
  intros p Hp Hq. now rewrite H2', H2.
Qed.

Lemma quiet_insert_tmp t n :
  t !! dest = None -> n <> Dir -> quiet tmp dest t (<[tmp := n]> t).
Proof.
  intros Hd Hn. split; [|split].
  - now rewrite lookup_insert_ne.
  - intros p Hp _. now rewrite lookup_insert_ne.
  - unfold tree_is_dir. destruct tmp as [|c r]; [easy|].
    intros _. rewrite lookup_insert_eq. now destruct n.
Qed.

Lemma quiet_delete_tmp t : t !! dest = None -> quiet tmp dest t (delete tmp t).
Proof.
  intros Hd. split; [|split].
  - now rewrite lookup_delete_ne.
  - intros p Hp _. now rewrite lookup_delete_ne.
  - unfold tree_is_dir. destruct tmp as [|c r]; [easy|].
    intros _. now rewrite lookup_delete_eq.
Qed.

(** The copying loop keeps a regular file at [tmp] and nothing at [dest];
    it ends normally exactly when the stream delivers a body, and then the
    file has grown by that body. *)
Lemma copy_chunks_spec reads : forall w data r w1,
  w_tree w !! tmp = Some (File data) ->
  w_tree w !! dest = None ->
  copy_chunks tmp reads w = (r, w1) ->
  exists hs data1,
    extends w w1 hs [] []
    /\ Forall (fun t => t !! dest = None) hs
    /\ quiet tmp dest (w_tree w) (w_tree w1)
    /\ w_tree w1 = List.last hs (w_tree w)
    /\ w_tree w1 !! tmp = Some (File data1)
    /\ match r with
       | Ok _ => stream_body reads = Some (skipn (length data) data1)
                 /\ firstn (length data) data1 = data
       | Raise _ => stream_body reads = None
       end.
Proof.
  assert (Hstop : forall reads' w data r w1,
    w_tree w !! tmp = Some (File data) -> w_tree w !! dest = None ->
    (Ok tt, w) = (r, w1) -> stream_body reads' = Some [] ->
    exists hs data1,
      extends w w1 hs [] [] /\ Forall (fun t => t !! dest = None) hs
      /\ quiet tmp dest (w_tree w) (w_tree w1) /\ w_tree w1 = List.last hs (w_tree w)
      /\ w_tree w1 !! tmp = Some (File data1)
      /\ match r with
         | Ok _ => stream_body reads' = Some (skipn (length data) data1)
                   /\ firstn (length data) data1 = data
         | Raise _ => stream_body reads' = None
         end).
  { intros reads' w data r w1 Htmp Hdest Hrun Hb. inversion Hrun; subst.
    exists [], data.
    split; [apply extends_refl|]. split; [constructor|].
    split; [now apply quiet_refl|]. split; [reflexivity|]. split; [exact Htmp|].
    now rewrite skipn_all, firstn_all. }
  induction reads as [|rd reads IH]; intros w data r w1 Htmp Hdest Hrun.
  - now apply Hstop.
  - destruct rd as [chunk|e].
    + destruct chunk as [|b chunk]; [now apply Hstop|].
      cbn [copy_chunks] in Hrun. rewrite bind_run, file_op_run in Hrun.
      unfold write_chunk in Hrun. rewrite Htmp in Hrun.
      set (t1 := <[tmp := File (data ++ b :: chunk)]> (w_tree w)) in *.
      assert (Ht1 : w_tree (with_tree w t1) !! tmp = Some (File (data ++ b :: chunk)))
        by apply lookup_insert_eq.
      assert (Hd1 : w_tree (with_tree w t1) !! dest = None)
        by (cbn; subst t1; now rewrite lookup_insert_ne).
      destruct (IH _ _ r w1 Ht1 Hd1 Hrun)
        as (hs & data1 & Hext & Hhs & Hq & Hlast & Htmp1 & Hr).
      exists ([t1] ++ hs), data1.
      split; [apply (extends_trans _ _ _ _ _ _ _ _ _ (extends_with_tree w t1) Hext)|].
      split; [now constructor|].
      split.
      { eapply quiet_trans; [|exact Hq].
        apply quiet_insert_tmp; [exact Hdest | discriminate]. }
      split; [rewrite Hlast; cbn [w_tree with_tree];
              destruct hs as [|g hs']; [reflexivity | exact (last_cons_default hs' g _ _)]|].
      split; [exact Htmp1|].
      destruct r as [[]|e].
      * destruct Hr as [Hbody Hpre].
        rewrite length_app in Hbody, Hpre. cbn [stream_body]. rewrite Hbody.
        cbn [fmap option_fmap option_map].
        assert (Hd : data1 = (data ++ b :: chunk)
                     ++ skipn (length data + length (b :: chunk)) data1).
        { rewrite <- Hpre at 1. now rewrite firstn_skipn. }
        split.
        -- f_equal. rewrite Hd at 2. rewrite <- app_assoc.
           now rewrite skipn_app, skipn_all, Nat.sub_diag.
        -- rewrite Hd. rewrite <- app_assoc.
           now rewrite firstn_app, firstn_all, Nat.sub_diag, app_nil_r.
      * cbn [stream_body]. now rewrite Hr.
    + inversion Hrun; subst. exists [], data.
      split; [apply extends_refl|]. split; [constructor|].
      split; [now apply quiet_refl|]. now split.
Qed.

Lemma transfer_spec w r w1 :
  absent dest (w_tree w) ->
  transfer net url tmp dest w = (r, w1) ->
  exists hs rs,
    extends w w1 hs rs []
    /\ (forall u, normalize_url url = Ok u -> rs = [u])
    /\ match r with
       | Ok _ => completed net url tmp dest w w1 hs rs
       | Raise _ => Forall (absent dest) hs /\ quiet tmp dest (w_tree w) (w_tree w1)
       end.
Proof.
  intros Hdest Hrun. unfold transfer in Hrun. rewrite bind_run in Hrun.
  unfold lift in Hrun. destruct (normalize_url url) as [u|e] eqn:Hu.
  2:{ inversion Hrun; subst. exists [], [].
      split; [apply extends_refl|]. split; [discriminate|].
      split; [constructor | now apply quiet_refl]. }
  assert (Hrs : forall u', Ok u = Ok u' -> [u] = [u']) by (now intros u' [= ->]).
  rewrite bind_run in Hrun. unfold urlopen in Hrun.
  pose proof (extends_with_request w u) as Hreq.
  assert (Hearly : forall e, (Raise e, with_request w u) = (r, w1) ->
    exists hs rs, extends w w1 hs rs []
      /\ (forall u', Ok u = Ok u' -> rs = [u'])
      /\ match r with
         | Ok _ => completed net url tmp dest w w1 hs rs
         | Raise _ => Forall (absent dest) hs /\ quiet tmp dest (w_tree w) (w_tree w1)
         end).
  { intros e [= <- <-]. exists [], [u]. split; [exact Hreq|]. split; [exact Hrs|].
    split; [constructor | now apply quiet_refl]. }
  destruct (net u (length (w_requests w))) as [e|reads] eqn:Hnet; [now apply (Hearly e)|].
  rewrite bind_run, file_op_run in Hrun. cbn [w_tree with_request] in Hrun.
  unfold open_wb in Hrun.
  destruct (tree_is_dir (w_tree w) tmp) eqn:Hdir; [now apply (Hearly _ Hrun)|].
  destruct (tree_is_dir (w_tree w) (parent tmp)) eqn:Hpar; [|now apply (Hearly _ Hrun)].
  clear Hearly.
  set (t1 := <[tmp := File []]> (w_tree w)) in *.
  set (w2 := with_tree (with_request w u) t1) in *.
  assert (Hext2 : extends w w2 [t1] [u] []).
  { apply (extends_trans _ _ _ _ _ _ _ _ _ Hreq (extends_with_tree _ t1)). }
  assert (Habs1 : absent dest t1) by (unfold absent, t1; now rewrite lookup_insert_ne).
  assert (Hq1 : quiet tmp dest (w_tree w) t1)
    by (apply quiet_insert_tmp; [exact Hdest | discriminate]).
  rewrite bind_run in Hrun.
  destruct (copy_chunks tmp reads w2) as [rc w3] eqn:Hcopy.
  destruct (copy_chunks_spec reads w2 [] rc w3)
    as (hs & data & Hext3 & Hhs & Hq3 & Hlast & Htmp3 & Hr);
    [apply lookup_insert_eq | exact Habs1 | exact Hcopy |].
  pose proof (extends_trans _ _ _ _ _ _ _ _ _ Hext2 Hext3) as Hext.
  assert (Habs3 : absent dest (w_tree w3)) by apply Hq3.
  assert (Hlate : forall e, (Raise e, w3) = (r, w1) ->
    exists hs rs, extends w w1 hs rs []
      /\ (forall u', Ok u = Ok u' -> rs = [u'])
      /\ match r with
         | Ok _ => completed net url tmp dest w w1 hs rs
         | Raise _ => Forall (absent dest) hs /\ quiet tmp dest (w_tree w) (w_tree w1)
         end).
  { intros e [= <- <-]. exists ([t1] ++ hs), ([u] ++ []).
    split; [exact Hext|]. split; [exact Hrs|]. split; [now constructor|].
    eapply quiet_trans; [exact Hq1 | exact Hq3]. }
  destruct rc as [[]|e]; [|now apply (Hlate e)].
  rewrite file_op_run in Hrun. unfold replace_file in Hrun. rewrite Htmp3 in Hrun.
  rewrite (tree_is_dir_absent _ _ dest_nonempty Habs3) in Hrun.
  destruct (tree_is_dir (w_tree w3) (parent dest)) eqn:Hpd; [|now apply (Hlate _ Hrun)].
  inversion Hrun; subst. clear Hrun Hlate.
  set (t4 := <[dest := File data]> (delete tmp (w_tree w3))).
  exists (([t1] ++ hs) ++ [t4]), (([u] ++ []) ++ []).
  split.
  { eapply extends_trans_eq; [exact Hext | apply extends_with_tree | reflexivity..]. }
  split; [exact Hrs|].
  destruct Hr as [Hbody _]. cbn in Hbody.
  assert (Hsplit : exists hs0, [t1] ++ hs = hs0 ++ [w_tree w3]).
  { rewrite Hlast. cbn [w_tree with_tree w2].
    destruct hs as [|h hs' _] using rev_ind; [now exists []|].
    exists (t1 :: hs'). now rewrite last_last. }
  destruct Hsplit as (hs0 & Hsplit).
  exists hs0, (w_tree w3), [], u, reads, data.
  cbn [w_tree with_tree]. rewrite app_nil_r.
  split; [rewrite Hsplit, <- app_assoc; reflexivity|].
  split; [rewrite <- Hsplit; now constructor|].
  split; [exact Htmp3|]. split; [reflexivity|].
  split; [exact Hu|]. split; [now rewrite app_nil_r|].
  split; [exact Hbody|]. split; [apply lookup_insert_eq|].
  unfold t4. rewrite lookup_insert_ne by congruence. apply lookup_delete_eq.
Qed.

Lemma cleanup_spec w :
  absent dest (w_tree w) ->
  exists w1 hs,
    cleanup tmp w = (Ok tt, w1)
    /\ extends w w1 hs [] []
    /\ Forall (absent dest) hs
    /\ quiet tmp dest (w_tree w) (w_tree w1)
    /\ tree_is_file (w_tree w1) tmp = false.
Proof.
  intros Hdest. unfold cleanup, try_except. rewrite bind_run.
  unfold path_exists. rewrite bind_run. cbn [get_tree mret prog_ret].
  assert (Hstay : tree_is_file (w_tree w) tmp = false ->
    exists w1 hs, (Ok tt, w) = (Ok tt, w1) /\ extends w w1 hs [] []
      /\ Forall (absent dest) hs /\ quiet tmp dest (w_tree w) (w_tree w1)
      /\ tree_is_file (w_tree w1) tmp = false).
  { intros Hf. exists w, []. split; [reflexivity|].
    split; [apply extends_refl|]. split; [constructor|].
    split; [now apply quiet_refl | exact Hf]. }
  destruct (tree_exists (w_tree w) tmp) eqn:Hex.
  - rewrite file_op_run. unfold unlink.
    destruct (w_tree w !! tmp) as [[data|]|] eqn:Htmp.
    + exists (with_tree w (delete tmp (w_tree w))), [delete tmp (w_tree w)].
      split; [reflexivity|]. split; [apply extends_with_tree|].
      assert (Hq : quiet tmp dest (w_tree w) (delete tmp (w_tree w)))
        by now apply quiet_delete_tmp.
      split; [constructor; [apply Hq | constructor]|]. split; [exact Hq|].
      unfold tree_is_file. cbn. now rewrite lookup_delete_eq.
    + apply Hstay. unfold tree_is_file. now rewrite Htmp.
    + apply Hstay. unfold tree_is_file. now rewrite Htmp.
  - apply Hstay. unfold tree_is_file, tree_exists in *.
    destruct tmp; [discriminate|]. now destruct (w_tree w !! _).
Qed.

Variable retries : Z.
Variable backoff_s : Q.

Lemma delay_run k w :
  (lift (float_mul_int backoff_s (2 ^ k)) ≫= time_sleep) w =
  if delay_ok backoff_s k
  then (Ok tt, with_sleep w (backoff_s * inject_Z (2 ^ k)))
  else (fst ((lift (float_mul_int backoff_s (2 ^ k)) ≫= time_sleep) w), w).
Proof.
  rewrite bind_run. unfold lift, float_mul_int, delay_ok.
  destruct (Z.leb_spec (2 ^ 1024) (2 ^ k)) as [Hbig|Hsmall].
  - destruct (Z.ltb_spec (2 ^ k) (2 ^ 1024)); [lia | reflexivity].
  - destruct (Z.ltb_spec (2 ^ k) (2 ^ 1024)); [|lia]. cbn [andb].
    unfold time_sleep, sleep_accepts.
    destruct (Qle_bool _ _ && Qltb _ _); cbn [negb andb]; [|reflexivity].
    now destruct (Qltb _ 0).
Qed.

Lemma delay_raises k w :
  delay_ok backoff_s k = false ->
  exists e, (lift (float_mul_int backoff_s (2 ^ k)) ≫= time_sleep) w = (Raise e, w).
Proof.
  intros Hd. rewrite bind_run. unfold lift, float_mul_int, delay_ok in *.
  destruct (Z.leb_spec (2 ^ 1024) (2 ^ k)) as [Hbig|Hsmall]; [now eexists|].
  destruct (Z.ltb_spec (2 ^ k) (2 ^ 1024)); [|lia]. cbn [andb] in Hd.
  unfold time_sleep, sleep_accepts in *.
  destruct (Qle_bool _ _ && Qltb _ _); cbn [negb andb] in *; [|now eexists].
  destruct (Qltb _ 0); [now eexists | discriminate].
Qed.

Lemma attempt_once_spec k w r w1 :
  absent dest (w_tree w) ->
  attempt_once net url tmp dest retries backoff_s k w = (r, w1) ->
  exists hs rs sl,
    extends w w1 hs rs sl
    /\ (forall u, normalize_url url = Ok u -> rs = [u])
    /\ match r with
       | Ok None => sl = [] /\ completed net url tmp dest w w1 hs rs
       | Ok (Some e) =>
           failed_attempt net url tmp dest e w w1 hs
           /\ sl = (if k <? retries
                    then [((backoff_s * inject_Z (2 ^ k))%Q, w_tree w1)] else [])
           /\ ((k <? retries) = true -> delay_ok backoff_s k = true)
       | Raise _ =>
           (exists e, failed_attempt net url tmp dest e w w1 hs)
           /\ sl = [] /\ (k <? retries) = true /\ delay_ok backoff_s k = false
       end.
Proof.
  intros Hdest Hrun. unfold attempt_once, try_except in Hrun.
  rewrite bind_run in Hrun.
  destruct (transfer net url tmp dest w) as [rt w2] eqn:Htr.
  destruct (transfer_spec w rt w2 Hdest Htr) as (hs & rs & Hext & Hrs & Hr).
  assert (Hrs' : forall u, normalize_url url = Ok u -> rs ++ [] = [u])
    by (intros u Hu; rewrite app_nil_r; now apply Hrs).
  destruct rt as [[]|e].
  { cbn in Hrun. inversion Hrun; subst. exists hs, rs, []. now split. }
  destruct Hr as [Hhs Hq].
  assert (Habs2 : absent dest (w_tree w2)) by apply Hq.
  destruct (cleanup_spec w2 Habs2) as (w3 & hs' & Hcl & Hext' & Hhs' & Hq' & Hfile).
  rewrite bind_run, Hcl, bind_run in Hrun.
  assert (Hfail : failed_attempt net url tmp dest e w w3 (hs ++ hs')).
  { split; [now apply Forall_app|]. split; [eapply quiet_trans; eassumption|].
    split; [exact Hfile|]. rewrite Htr. cbn [fst snd]. now rewrite Hcl. }
  pose proof (extends_trans _ _ _ _ _ _ _ _ _ Hext Hext') as Hext3.
  destruct (k <? retries) eqn:Hk.
  - rewrite delay_run in Hrun. destruct (delay_ok backoff_s k) eqn:Hd.
    + cbn in Hrun. inversion Hrun; subst.
      exists (hs ++ hs' ++ []), (rs ++ [] ++ []), ([] ++ [] ++ [((backoff_s * inject_Z (2 ^ k))%Q, w_tree w3)]).
      split.
      { rewrite !app_assoc. eapply extends_trans; [exact Hext3 | apply extends_with_sleep]. }
      rewrite !app_nil_r. split; [exact Hrs|]. split; [exact Hfail|]. now split.
    + destruct (delay_raises k w3 Hd) as (e' & He'). rewrite He' in Hrun.
      cbn in Hrun. inversion Hrun; subst.
      exists (hs ++ hs'), (rs ++ []), ([] ++ []).
      split; [exact Hext3|]. split; [exact Hrs'|]. split; [now exists e|]. now split.
  - cbn in Hrun. inversion Hrun; subst.
    exists (hs ++ hs'), (rs ++ []), ([] ++ []).
    split; [exact Hext3|]. split; [exact Hrs'|]. split; [exact Hfail|]. now split.
Qed.

Lemma completed_extend w w2 w1 hs1 rs1 sl1 hs rs :
  extends w w2 hs1 rs1 sl1 -> Forall (absent dest) hs1 ->
  completed net url tmp dest w2 w1 hs rs -> completed net url tmp dest w w1 (hs1 ++ hs) (rs1 ++ rs).
Proof.
  intros Hext Hhs1
    (hs0 & tb & rs0 & u & reads & body & -> & Hhs0 & Htb & -> & Hu & Hnet & Hrest).
  exists (hs1 ++ hs0), tb, (rs1 ++ rs0), u, reads, body.
  rewrite <- !app_assoc. split; [reflexivity|]. split; [now apply Forall_app|].
  split; [exact Htb|].
  split; [reflexivity|]. split; [exact Hu|]. split; [|exact Hrest].
  rewrite <- Hnet. now rewrite (ext_requests _ _ _ _ _ Hext), app_assoc.
Qed.

Lemma attempts_loop_spec n : forall a last_err w r w1,
  (n <> 0%nat -> Z.of_nat (a + n) = retries + 1) ->
  absent dest (w_tree w) ->
  attempts_loop net url tmp dest retries backoff_s
    (List.map Z.of_nat (seq a n)) last_err w = (r, w1) ->
  exists hs rs sl m,
    extends w w1 hs rs sl
    /\ Forall (clean_sleep tmp dest) sl
    /\ List.map fst sl = delays backoff_s a m
    /\ match r with
       | Ok (true, msg) =>
           msg = lit "downloaded" /\ (m < n)%nat /\ completed net url tmp dest w w1 hs rs
       | Ok (false, msg) =>
           Forall (absent dest) hs /\ quiet tmp dest (w_tree w) (w_tree w1)
           /\ ((n = 0%nat /\ m = 0%nat
                /\ msg = lit "error: " ++
                         match last_err with
                         | Some e => exn_str e
                         | None => lit "None"
                         end)
               \/ (n = S m
                   /\ exists e w_last hs_last,
                        failed_attempt net url tmp dest e w_last w1 hs_last
                        /\ msg = lit "error: " ++ exn_str e))
       | Raise _ =>
           Forall (absent dest) hs /\ quiet tmp dest (w_tree w) (w_tree w1)
           /\ (S m < n)%nat
           /\ delay_ok backoff_s (Z.of_nat (a + m)) = false
           /\ tree_is_file (w_tree w1) tmp = false
       end.
Proof.
  induction n as [|n IH]; intros a last_err w r w1 Hn Hdest Hrun.
  - cbn in Hrun. inversion Hrun; subst. exists [], [], [], 0%nat.
    split; [apply extends_refl|]. split; [constructor|]. split; [reflexivity|].
    split; [constructor|]. split; [now apply quiet_refl|]. now left.
  - cbn [seq List.map attempts_loop] in Hrun. rewrite bind_run in Hrun.
    destruct (attempt_once net url tmp dest retries backoff_s (Z.of_nat a) w)
      as [ra w2] eqn:Hatt.
    destruct (attempt_once_spec _ _ _ _ Hdest Hatt) as (hs & rs & sl & Hext & _ & Hr).
    specialize (Hn ltac:(discriminate)).
    destruct ra as [[e|]|e].
    + destruct Hr as (Hfail & Hsl & Hdelay).
      assert (Habs2 : absent dest (w_tree w2)) by apply Hfail.
      destruct (Z.ltb_spec (Z.of_nat a) retries) as [Hlt|Hge].
      * destruct n as [|n']; [lia|].
        destruct (IH (S a) (Some e) w2 r w1 ltac:(intros _; lia) Habs2 Hrun)
          as (hs' & rs' & sl' & m & Hext' & Hcl' & Hmap' & Hr').
        exists (hs ++ hs'), (rs ++ rs'), (sl ++ sl'), (S m).
        split; [eapply extends_trans; eassumption|].
        subst sl. split.
        { constructor; [|exact Hcl']. split; [exact Habs2 | apply Hfail]. }
        split; [cbn; unfold delays in *; cbn; now rewrite Hmap'|].
        destruct r as [[[] msg]|e'].
        -- destruct Hr' as (Hmsg & Hm & Hc). split; [exact Hmsg|]. split; [lia|].
           eapply completed_extend; [exact Hext | apply Hfail | exact Hc].
        -- destruct Hr' as (Hhs' & Hq' & Hcase).
           split; [apply Forall_app; split; [apply Hfail | exact Hhs']|].
           split; [eapply quiet_trans; [apply Hfail | exact Hq']|].
           right. destruct Hcase as [(Hz & _)|(Hm & Hlast)]; [discriminate|].
           split; [congruence | exact Hlast].
        -- destruct Hr' as (Hhs' & Hq' & Hm & Hd & Hf).
           split; [apply Forall_app; split; [apply Hfail | exact Hhs']|].
           split; [eapply quiet_trans; [apply Hfail | exact Hq']|].
           split; [lia|]. split; [|exact Hf].
           now replace (a + S m)%nat with (S a + m)%nat by lia.
      * cbn in Hrun. inversion Hrun; subst. clear Hrun.
        assert (n = 0%nat) by lia. subst n.
        destruct (Z.ltb_spec (Z.of_nat a) retries); [lia|].
        exists hs, rs, [], 0%nat.
        split; [exact Hext|]. split; [constructor|]. split; [reflexivity|].
        split; [apply Hfail|]. split; [apply Hfail|]. right.
        split; [reflexivity|]. now exists e, w, hs.
    + cbn in Hrun. inversion Hrun; subst. destruct Hr as [-> Hc].
      exists hs, rs, [], 0%nat.
      split; [exact Hext|]. split; [constructor|]. split; [reflexivity|].
      split; [reflexivity|]. split; [lia | exact Hc].
    + inversion Hrun; subst. destruct Hr as ((e0 & Hfail) & -> & Hk & Hd).
      exists hs, rs, [], 0%nat.
      split; [exact Hext|]. split; [constructor|]. split; [reflexivity|].
      split; [apply Hfail|]. split; [apply Hfail|].
      apply Z.ltb_lt in Hk. split; [lia|].
      split; [now rewrite Nat.add_0_r | apply Hfail].
Qed.

Lemma tree_is_dir_ext (t t1 : tree) (p : path) :
  t1 !! p = t !! p -> tree_is_dir t1 p = tree_is_dir t p.
Proof. intros H. unfold tree_is_dir. now rewrite H. Qed.

(** A transfer whose response delivers a body completes, when the
    temporary file can be opened. *)
Lemma transfer_succeeds w u reads body :
  absent dest (w_tree w) ->
  tree_is_dir (w_tree w) tmp = false ->
  tree_is_dir (w_tree w) (parent tmp) = true ->
  tree_is_dir (w_tree w) (parent dest) = true ->
  parent dest <> tmp -> parent dest <> dest ->
  normalize_url url = Ok u ->
  net u (length (w_requests w)) = Stream reads ->
  stream_body reads = Some body ->
  exists w1, transfer net url tmp dest w = (Ok tt, w1).
Proof.
  intros Hdest Hdir Hpar Hpd Hpt Hpp Hu Hnet Hbody.
  unfold transfer. rewrite bind_run. unfold lift. rewrite Hu.
  rewrite bind_run. unfold urlopen. rewrite Hnet.
  rewrite bind_run, file_op_run. cbn [w_tree with_request].
  unfold open_wb. rewrite Hdir, Hpar.
  set (t1 := <[tmp := File []]> (w_tree w)).
  set (w2 := with_tree (with_request w u) t1).
  rewrite bind_run.
  destruct (copy_chunks tmp reads w2) as [rc w3] eqn:Hcopy.
  destruct (copy_chunks_spec reads w2 [] rc w3)
    as (hs & data & _ & _ & Hq3 & _ & Htmp3 & Hr);
    [apply lookup_insert_eq
    | subst w2 t1; cbn [w_tree with_tree]; now rewrite lookup_insert_ne
    | exact Hcopy |].
  destruct rc as [[]|e]; [|congruence].
  rewrite file_op_run. unfold replace_file. rewrite Htmp3.
  destruct Hq3 as (Habs3 & Hframe & _).
  rewrite (tree_is_dir_absent _ _ dest_nonempty Habs3).
  assert (Hpd3 : tree_is_dir (w_tree w3) (parent dest) = true).
  { rewrite <- Hpd. apply tree_is_dir_ext. rewrite Hframe by assumption.
    cbn [w_tree with_tree w2]. unfold t1. now rewrite lookup_insert_ne. }
  rewrite Hpd3. now eexists.
Qed.

Lemma completed_response w w1 hs u :
  normalize_url url = Ok u ->
  completed net url tmp dest w w1 hs [u] ->
  response_fails (net u (length (w_requests w))) = false.
Proof.
  intros Hu (hs0 & tb & rs0 & u' & reads & body & _ & _ & _ & Hrs & Hu' & Hnet & Hbody & _).
  assert (rs0 = [] /\ u' = u) as [-> ->].
  { destruct rs0 as [|a [|b rs0]]; inversion Hrs; now subst. }
  rewrite app_nil_r in Hnet. rewrite Hnet. cbn. now rewrite Hbody.
Qed.

(** An attempt against a failing response fails, cleans up, sleeps and
    asks for a retry. *)
Lemma attempt_once_fails k w u :
  absent dest (w_tree w) ->
  normalize_url url = Ok u ->
  response_fails (net u (length (w_requests w))) = true ->
  (k <? retries) = true ->
  delay_ok backoff_s k = true ->
  exists e w1,
    attempt_once net url tmp dest retries backoff_s k w = (Ok (Some e), w1)
    /\ w_requests w1 = w_requests w ++ [u]
    /\ w_sleeps w1 = w_sleeps w ++ [((backoff_s * inject_Z (2 ^ k))%Q, w_tree w1)]
    /\ quiet tmp dest (w_tree w) (w_tree w1).
Proof.
  intros Hdest Hu Hfail Hk Hd.
  destruct (attempt_once net url tmp dest retries backoff_s k w) as [r w1] eqn:Hatt.
  destruct (attempt_once_spec _ _ _ _ Hdest Hatt) as (hs & rs & sl & Hext & Hrs & Hr).
  specialize (Hrs u Hu). subst rs.
  destruct r as [[e|]|e].
  - destruct Hr as (Hf & -> & _). rewrite Hk in Hext. exists e, w1.
    split; [reflexivity|]. split; [apply Hext|]. split; [apply Hext | apply Hf].
  - destruct Hr as [_ Hc]. apply (completed_response _ _ _ _ Hu) in Hc. congruence.
  - destruct Hr as (_ & _ & _ & Hd'). congruence.
Qed.

Lemma attempt_once_succeeds k w u reads body :
  absent dest (w_tree w) ->
  tree_is_dir (w_tree w) tmp = false ->
  tree_is_dir (w_tree w) (parent tmp) = true ->
  tree_is_dir (w_tree w) (parent dest) = true ->
  parent dest <> tmp -> parent dest <> dest ->
  normalize_url url = Ok u ->
  net u (length (w_requests w)) = Stream reads ->
  stream_body reads = Some body ->
  exists w1,
    attempt_once net url tmp dest retries backoff_s k w = (Ok None, w1)
    /\ w_sleeps w1 = w_sleeps w
    /\ w_requests w1 = w_requests w ++ [u]
    /\ w_tree w1 !! dest = Some (File body).
Proof.
  intros Hdest Hdir Hpar Hpd Hpt Hpp Hu Hnet Hbody.
  destruct (transfer_succeeds w u reads body) as (w1 & Htr); try assumption.
  exists w1. unfold attempt_once, try_except. rewrite bind_run, Htr. cbn.
  split; [reflexivity|].
  destruct (transfer_spec _ _ _ Hdest Htr) as (hs & rs & Hext & Hrs & Hc).
  rewrite (Hrs u Hu) in *.
  split; [rewrite (ext_sleeps _ _ _ _ _ Hext); apply app_nil_r|].
  split; [apply Hext|].
  destruct Hc as (hs0 & tb & rs0 & u' & reads' & body' & _ & _ & _ & Hrs' & _ & Hnet' & Hb' & Hd & _).
  assert (rs0 = [] /\ u' = u) as [-> ->].
  { destruct rs0 as [|a [|b rs0]]; inversion Hrs'; now subst. }
  rewrite app_nil_r in Hnet'. congruence.
Qed.

(** The retry scenario: two failing responses, then one that delivers. *)
Lemma attempts_loop_scenario w u reads body :
  retries = 2 ->
  absent dest (w_tree w) ->
  tree_is_dir (w_tree w) tmp = false ->
  tree_is_dir (w_tree w) (parent tmp) = true ->
  tree_is_dir (w_tree w) (parent dest) = true ->
  parent dest <> tmp -> parent dest <> dest -> parent tmp <> tmp -> parent tmp <> dest ->
  normalize_url url = Ok u ->
  response_fails (net u (length (w_requests w))) = true ->
  response_fails (net u (S (length (w_requests w)))) = true ->
  net u (S (S (length (w_requests w)))) = Stream reads ->
  stream_body reads = Some body ->
  delay_ok backoff_s 0 = true -> delay_ok backoff_s 1 = true ->
  exists w3,
    attempts_loop net url tmp dest retries backoff_s (range (retries + 1)) None w
      = (Ok (true, lit "downloaded"), w3)
    /\ List.map fst (w_sleeps w3)
       = List.map fst (w_sleeps w) ++ [(backoff_s * 1)%Q; (backoff_s * 2)%Q]
    /\ w_tree w3 !! dest = Some (File body).
Proof.
  intros Hret Hdest Hdir Hpar Hpd Hpt Hpp Htt Htd Hu Hf0 Hf1 Hnet Hbody Hd0 Hd1.
  assert (Hk0 : (0 <? retries) = true) by now rewrite Hret.
  assert (Hk1 : (1 <? retries) = true) by now rewrite Hret.
  replace (range (retries + 1)) with [0; 1; 2] by now rewrite Hret.
  destruct (attempt_once_fails 0 w u Hdest Hu Hf0 Hk0 Hd0)
    as (e0 & w1 & Ha0 & Hreq1 & Hsl1 & Hq1).
  cbn [attempts_loop]. rewrite bind_run, Ha0. cbn match.
  rewrite Hk0. cbn match.
  assert (Hlen1 : length (w_requests w1) = S (length (w_requests w)))
    by (rewrite Hreq1, length_app; cbn; lia).
  assert (Hdest1 : absent dest (w_tree w1)) by apply Hq1.
  rewrite <- Hlen1 in Hf1.
  destruct (attempt_once_fails 1 w1 u Hdest1 Hu Hf1 Hk1 Hd1)
    as (e1 & w2 & Ha1 & Hreq2 & Hsl2 & Hq2).
  rewrite bind_run, Ha1. cbn match. rewrite Hk1. cbn match.
  assert (Hlen2 : length (w_requests w2) = S (S (length (w_requests w))))
    by (rewrite Hreq2, length_app, Hlen1; cbn; lia).
  pose proof (quiet_trans _ _ _ Hq1 Hq2) as (Hdest2 & Hframe & Hdir2).
  rewrite <- Hlen2 in Hnet.
  destruct (attempt_once_succeeds 2 w2 u reads body) as (w3 & Ha2 & Hsl3 & _ & Hfile);
    try assumption.
  { now apply Hdir2. }
  { rewrite <- Hpar. apply tree_is_dir_ext. now apply Hframe. }
  { rewrite <- Hpd. apply tree_is_dir_ext. now apply Hframe. }
  rewrite bind_run, Ha2. cbn match. exists w3.
  split; [reflexivity|]. split; [|exact Hfile].
  rewrite Hsl3, Hsl2, Hsl1, <- app_assoc, List.map_app. reflexivity.
Qed.

End Download.

(** ** [mkdir(parents=True, exist_ok=True)] *)

Lemma os_mkdir_ok (t t' : tree) (p : path) :
  os_mkdir t p = Ok t' -> t' = <[p := Dir]> t /\ p <> [].
Proof.
  unfold os_mkdir. destruct (tree_exists t p) eqn:E; [discriminate|].
  destruct (tree_is_dir t (parent p));
    [|destruct (tree_exists t (parent p)); discriminate].
  intros [= <-]. split; [reflexivity|]. intros ->. cbn in E. discriminate.
Qed.

Lemma tree_is_dir_insert (t : tree) (p : path) : tree_is_dir (<[p := Dir]> t) p = true.
Proof. unfold tree_is_dir. destruct p; [reflexivity|]. now rewrite lookup_insert_eq. Qed.

Lemma mkdir_single_spec (t t' : tree) (p : path) :
  mkdir_single t p = Ok t' ->
  (forall q, q <> p -> t' !! q = t !! q) /\ tree_is_dir t' p = true.
Proof.
  unfold mkdir_single. destruct (os_mkdir t p) as [t1|e] eqn:E.
  - intros [= <-]. apply os_mkdir_ok in E as [-> _].
    split; [|apply tree_is_dir_insert]. intros q Hq. now rewrite lookup_insert_ne.
  - destruct e; try discriminate;
      (destruct (tree_is_dir t p) eqn:Hd; [|discriminate]);
      intros [= <-]; now split.
Qed.

Lemma mkdir_from_spec (rp : path) : forall t t',
  mkdir_from t rp = Ok t' ->
  (forall q, (length rp < length q)%nat -> t' !! q = t !! q)
  /\ tree_is_dir t' (rev rp) = true.
Proof.
  induction rp as [|c rp IH]; intros t t' H; cbn [mkdir_from] in H.
  - split; [|reflexivity]. intros q Hq.
    destruct (os_mkdir t (rev [])) as [t1|e] eqn:E.
    + apply os_mkdir_ok in E as [_ E]. now destruct E.
    + destruct e; try discriminate; cbn in H; now inversion H.
  - destruct (os_mkdir t (rev (c :: rp))) as [t1|e] eqn:E.
    + inversion H; subst. apply os_mkdir_ok in E as [-> _].
      split; [|apply tree_is_dir_insert]. intros q Hq.
      rewrite lookup_insert_ne; [reflexivity|].
      intros <-. rewrite length_rev in Hq. lia.
    + assert (Hother : (if tree_is_dir t (rev (c :: rp)) then Ok t else Raise e) = Ok t' ->
        (forall q, (length (c :: rp) < length q)%nat -> t' !! q = t !! q)
        /\ tree_is_dir t' (rev (c :: rp)) = true).
      { destruct (tree_is_dir t (rev (c :: rp))) eqn:Hd; [|discriminate].
        intros [= <-]. now split. }
      destruct e; try (now apply Hother).
      cbn [mbind result_bind] in H.
      destruct (mkdir_from t rp) as [t1|e] eqn:E1; [|discriminate].
      destruct (IH _ _ E1) as [Hframe _].
      destruct (mkdir_single_spec _ _ _ H) as [Hframe' Hdir].
      split; [|exact Hdir]. intros q Hq.
      rewrite Hframe'; [apply Hframe; cbn in Hq; lia|].
      intros ->. rewrite length_rev in Hq. lia.
Qed.

Lemma mkdir_parents_spec (t t' : tree) (p : path) :
  mkdir_parents t p = Ok t' ->
  (forall q, (length p < length q)%nat -> t' !! q = t !! q)
  /\ tree_is_dir t' p = true.
Proof.
  unfold mkdir_parents. intros H. apply mkdir_from_spec in H.
  now rewrite length_rev, rev_involutive in H.
Qed.

Lemma parent_length (p : path) : p <> [] -> length p = S (length (parent p)).
Proof.
  intros H. rewrite (path_split_last p H) at 1. rewrite length_app. cbn. lia.
Qed.

Lemma part_path_length (p : path) : p <> [] -> length (part_path p) = length p.
Proof.
  intros H. unfold part_path. rewrite length_app, (parent_length p H). cbn. lia.
Qed.

(** ** [download_file] *)

Section DownloadFile.
Context `{RT : Runtime}.
Variable net : network.
Variable url : str.
Variable dest : path.
Variable retries : Z.
Variable backoff_s : Q.

Lemma download_file_exists dry_run w :
  tree_exists (w_tree w) dest = true ->
  download_file net url dest retries backoff_s dry_run w = (Ok (false, lit "exists"), w).
Proof.
  intros H. unfold download_file. rewrite bind_run.
  unfold path_exists. rewrite bind_run. cbn [get_tree mret prog_ret]. now rewrite H.
Qed.

Lemma download_file_dry_run w :
  tree_exists (w_tree w) dest = false ->
  download_file net url dest retries backoff_s true w = (Ok (false, lit "dry-run"), w).
Proof.
  intros H. unfold download_file. rewrite bind_run.
  unfold path_exists. rewrite bind_run. cbn [get_tree mret prog_ret]. now rewrite H.
Qed.

(** The run of a real download: the directories, the temporary path, the
    loop. *)
Lemma download_file_run w :
  tree_exists (w_tree w) dest = false ->
  download_file net url dest retries backoff_s false w =
  match mkdir_parents (w_tree w) (parent dest) with
  | Raise e => (Raise e, w)
  | Ok t' =>
      match with_suffix dest (suffix (name dest) ++ lit ".part") with
      | Raise e => (Raise e, with_tree w t')
      | Ok tmp =>
          attempts_loop net url tmp dest retries backoff_s (range (retries + 1)) None
            (with_tree w t')
      end
  end.
Proof.
  intros H. unfold download_file. rewrite bind_run.
  unfold path_exists. rewrite bind_run. cbn [get_tree mret prog_ret]. rewrite H.
  cbn match. rewrite bind_run, file_op_run.
  destruct (mkdir_parents _ _) as [t'|e]; [|reflexivity].
  rewrite bind_run. unfold lift. now destruct (with_suffix _ _).
Qed.

(** After the directories are made: the world the loop starts from. *)
Lemma after_mkdir w t' :
  tree_exists (w_tree w) dest = false ->
  mkdir_parents (w_tree w) (parent dest) = Ok t' ->
  dest <> []
  /\ absent dest t'
  /\ extends w (with_tree w t') [t'] [] []
  /\ tree_is_dir t' (parent dest) = true
  /\ t' !! part_path dest = w_tree w !! part_path dest.
Proof.
  intros Hex Hmk. apply tree_exists_None in Hex as [Hne Habs].
  apply mkdir_parents_spec in Hmk as [Hframe Hdir].
  pose proof (parent_length dest Hne) as Hlen.
  split; [exact Hne|]. split; [unfold absent; rewrite Hframe; [exact Habs | lia]|].
  split; [apply extends_with_tree|]. split; [exact Hdir|].
  apply Hframe. rewrite part_path_length by exact Hne. lia.
Qed.

Lemma path_facts :
  dest <> [] ->
  parent (part_path dest) = parent dest
  /\ name (part_path dest) = name dest ++ lit ".part"
  /\ part_path dest <> dest
  /\ parent dest <> part_path dest
  /\ parent dest <> dest.
Proof.
  intros Hne. unfold part_path at 1 2. rewrite parent_snoc, name_snoc.
  pose proof (parent_length dest Hne). pose proof (part_path_length dest Hne).
  split; [reflexivity|]. split; [reflexivity|]. split; [apply part_path_neq|].
  split; intros E; apply (f_equal (@length (list Z))) in E; lia.
Qed.

Lemma range_seq (n : Z) : range n = List.map Z.of_nat (seq 0 (Z.to_nat n)).
Proof. reflexivity. Qed.

Lemma download_atomic_run w r w1 :
  tree_exists (w_tree w) dest = false ->
  valid_name (name dest) ->
  download_file net url dest retries backoff_s false w = (r, w1) ->
  exists hs rs sl m,
    extends w w1 hs rs sl
    /\ Forall (clean_sleep (part_path dest) dest) sl
    /\ List.map fst sl = delays backoff_s 0 m
    /\ match r with
       | Ok (true, msg) =>
           msg = lit "downloaded" /\ Z.of_nat m <= retries
           /\ completed net url (part_path dest) dest w w1 hs rs
       | Ok (false, msg) =>
           Forall (absent dest) hs /\ absent dest (w_tree w1)
           /\ (0 <= retries ->
               Z.of_nat m = retries
               /\ exists e w_last hs_last,
                    failed_attempt net url (part_path dest) dest e w_last w1 hs_last
                    /\ msg = lit "error: " ++ exn_str e)
       | Raise _ =>
           Forall (absent dest) hs /\ absent dest (w_tree w1)
           /\ (is_ok (mkdir_parents (w_tree w) (parent dest)) = true ->
               exists k, 0 <= k < retries /\ delay_ok backoff_s k = false)
       end.
Proof.
  intros Hex Hname Hrun. rewrite (download_file_run w Hex) in Hrun.
  destruct (mkdir_parents (w_tree w) (parent dest)) as [t'|e] eqn:Hmk.
  2:{ inversion Hrun; subst. exists [], [], [], 0%nat.
      split; [apply extends_refl|]. split; [constructor|]. split; [reflexivity|].
      split; [constructor|]. split; [now apply tree_exists_None in Hex|]. discriminate. }
  destruct (after_mkdir w t' Hex Hmk) as (Hne & Habs & Hext0 & _).
  destruct (path_facts Hne) as (_ & _ & Htd & _).
  rewrite (with_suffix_part_ok dest Hname) in Hrun.
  rewrite range_seq in Hrun.
  set (n := Z.to_nat (retries + 1)) in *.
  destruct (attempts_loop_spec net url (part_path dest) dest Htd Hne retries backoff_s
              n 0%nat None (with_tree w t') r w1) as (hs & rs & sl & m & Hext & Hsl & Hmap & Hr);
    [intros Hn; cbn; lia | exact Habs | exact Hrun |].
  exists ([t'] ++ hs), ([] ++ rs), ([] ++ sl), m.
  split; [eapply extends_trans; eassumption|]. split; [exact Hsl|]. split; [exact Hmap|].
  destruct r as [[[] msg]|e].
  - destruct Hr as (Hmsg & Hm & Hc). split; [exact Hmsg|]. split; [lia|].
    eapply completed_extend; [exact Hext0 | now constructor | exact Hc].
  - destruct Hr as (Hhs & Hq & Hcase). split; [now constructor|]. split; [apply Hq|].
    intros Hret. destruct Hcase as [(Hn & _)|(Hn & Hlast)]; [lia|].
    split; [lia | exact Hlast].
  - destruct Hr as (Hhs & Hq & Hm & Hd & _). split; [now constructor|]. split; [apply Hq|].
    intros _. exists (Z.of_nat m). split; [lia | exact Hd].
Qed.

Lemma download_scenario_run w u reads body :
  tree_exists (w_tree w) dest = false ->
  valid_name (name dest) ->
  is_ok (mkdir_parents (w_tree w) (parent dest)) = true ->
  tree_is_dir (w_tree w) (part_path dest) = false ->
  retries = 2 ->
  delay_ok backoff_s 0 = true -> delay_ok backoff_s 1 = true ->
  normalize_url url = Ok u ->
  response_fails (net u (length (w_requests w))) = true ->
  response_fails (net u (S (length (w_requests w)))) = true ->
  net u (S (S (length (w_requests w)))) = Stream reads ->
  stream_body reads = Some body ->
  exists w1,
    download_file net url dest retries backoff_s false w
      = (Ok (true, lit "downloaded"), w1)
    /\ List.map fst (w_sleeps w1)
       = List.map fst (w_sleeps w) ++ [(backoff_s * 1)%Q; (backoff_s * 2)%Q]
    /\ w_tree w1 !! dest = Some (File body).
Proof.
  intros Hex Hname Hmkok Htmp Hret Hd0 Hd1 Hu Hf0 Hf1 Hnet Hbody.
  rewrite (download_file_run w Hex).
  destruct (mkdir_parents (w_tree w) (parent dest)) as [t'|e] eqn:Hmk; [|discriminate].
  destruct (after_mkdir w t' Hex Hmk) as (Hne & Habs & Hext0 & Hpd & Htmp').
  destruct (path_facts Hne) as (Hpar & _ & Htd & Hpt & Hpp).
  rewrite (with_suffix_part_ok dest Hname).
  apply (attempts_loop_scenario net url (part_path dest) dest Htd Hne retries backoff_s
           (with_tree w t') u reads body); try assumption.
  - rewrite <- Htmp. now apply tree_is_dir_ext.
  - now rewrite Hpar.
  - now rewrite Hpar.
  - now rewrite Hpar.
Qed.

Lemma download_first_try_run w u reads body :
  tree_exists (w_tree w) dest = false ->
  valid_name (name dest) ->
  is_ok (mkdir_parents (w_tree w) (parent dest)) = true ->
  tree_is_dir (w_tree w) (part_path dest) = false ->
  0 <= retries ->
  normalize_url url = Ok u ->
  net u (length (w_requests w)) = Stream reads ->
  stream_body reads = Some body ->
  exists w1,
    download_file net url dest retries backoff_s false w
      = (Ok (true, lit "downloaded"), w1)
    /\ w_requests w1 = w_requests w ++ [u]
    /\ w_tree w1 !! dest = Some (File body).
Proof.
  intros Hex Hname Hmkok Htmp Hret Hu Hnet Hbody.
  rewrite (download_file_run w Hex).
  destruct (mkdir_parents (w_tree w) (parent dest)) as [t'|e] eqn:Hmk; [|discriminate].
  destruct (after_mkdir w t' Hex Hmk) as (Hne & Habs & Hext0 & Hpd & Htmp').
  destruct (path_facts Hne) as (Hpar & _ & Htd & Hpt & Hpp).
  rewrite (with_suffix_part_ok dest Hname). rewrite range_seq.
  destruct (Z.to_nat (retries + 1)) as [|n] eqn:Hn; [lia|].
  cbn [seq List.map attempts_loop]. rewrite bind_run.
  destruct (attempt_once_succeeds net url (part_path dest) dest Htd Hne retries backoff_s
              (Z.of_nat 0) (with_tree w t') u reads body)
    as (w1 & Ha & _ & Hreq & Hfile); try assumption.
  - rewrite <- Htmp. now apply tree_is_dir_ext.
  - now rewrite Hpar.
  - rewrite Ha. exists w1. split; [reflexivity|]. split; [exact Hreq | exact Hfile].
Qed.

End DownloadFile.

(** ** The outcome of the attempts *)

Lemma stream_error_body (reads : list read_result) :
  match stream_error reads with
  | None => exists body, stream_body reads = Some body
  | Some _ => stream_body reads = None
  end.
Proof.
  induction reads as [|[[|c chunk]|e] more IH]; cbn [stream_error stream_body].
  - now exists [].
  - now exists [].
  - destruct (stream_error more).
    + now rewrite IH.
    + destruct IH as [body ->]. now eexists.
  - reflexivity.
Qed.

Lemma response_error_fails (r : response) :
  response_fails r = match response_error r with Some _ => true | None => false end.
Proof.
  destruct r as [e|reads]; [reflexivity|]. cbn [response_fails response_error].
  pose proof (stream_error_body reads) as H.
  destruct (stream_error reads); [now rewrite H | now destruct H as [body ->]].
Qed.

Lemma copy_chunks_raises (tmp : path) (e : exn) (reads : list read_result) :
  stream_error reads = Some e -> forall w, fst (copy_chunks tmp reads w) = Raise e.
Proof.
  induction reads as [|[[|c chunk]|e'] more IH]; cbn [stream_error copy_chunks];
    try discriminate.
  - intros H w. rewrite bind_run, file_op_run. now apply IH.
  - now intros [= ->] w.
Qed.

Section Contract.
Context `{RT : Runtime}.
Variable net : network.
Variable url : str.
Variables tmp dest : path.
Variable retries : Z.
Variable backoff_s : Q.
Hypothesis tmp_dest : tmp <> dest.
Hypothesis dest_nonempty : dest <> [].
Hypothesis parent_tmp : parent dest <> tmp.
Hypothesis parent_dest : parent dest <> dest.
Hypothesis same_parent : parent tmp = parent dest.

(** On a tree that lets a transfer through, the body of the [try] raises
    the exception of [attempt_error] or, when there is none, ends. *)
Lemma transfer_outcome w :
  ready tmp dest (w_tree w) ->
  fst (transfer net url tmp dest w)
  = match attempt_error net url (length (w_requests w)) with
    | Some e => Raise e
    | None => Ok tt
    end.
Proof.
  intros (Hdest & Hdir & Hpd). unfold attempt_error.
  destruct (normalize_url url) as [u|e] eqn:Hu.
  2:{ unfold transfer. rewrite bind_run. unfold lift. now rewrite Hu. }
  destruct (net u (length (w_requests w))) as [e|reads] eqn:Hnet; cbn [response_error].
  { unfold transfer. rewrite bind_run. unfold lift. rewrite Hu.
    rewrite bind_run. unfold urlopen. now rewrite Hnet. }
  pose proof (stream_error_body reads) as Hbody.
  destruct (stream_error reads) as [e|] eqn:He.
  - unfold transfer. rewrite bind_run. unfold lift. rewrite Hu.
    rewrite bind_run. unfold urlopen. rewrite Hnet.
    rewrite bind_run, file_op_run. cbn [w_tree with_request].
    unfold open_wb. rewrite Hdir, same_parent, Hpd.
    rewrite bind_run.
    pose proof (copy_chunks_raises tmp e reads He
                  (with_tree (with_request w u) (<[tmp := File []]> (w_tree w)))) as Hc.
    destruct (copy_chunks tmp reads _) as [rc w3]. cbn [fst] in Hc. now rewrite Hc.
  - destruct Hbody as [body Hbody].
    destruct (transfer_succeeds net url tmp dest tmp_dest dest_nonempty w u reads body)
      as (w1 & ->); try assumption; [now rewrite same_parent | reflexivity].
Qed.

(** One iteration of the loop on such a tree. *)
Lemma attempt_once_outcome k w r w1 :
  ready tmp dest (w_tree w) ->
  attempt_once net url tmp dest retries backoff_s k w = (r, w1) ->
  (forall j, attempt_error net url (length (w_requests w1) + j)
             = attempt_error net url (S (length (w_requests w) + j)))
  /\ match r with
     | Ok None =>
         attempt_error net url (length (w_requests w)) = None
         /\ w_sleeps w1 = w_sleeps w
     | Ok (Some e) =>
         attempt_error net url (length (w_requests w)) = Some e
         /\ ready tmp dest (w_tree w1)
         /\ List.map fst (w_sleeps w1)
            = List.map fst (w_sleeps w)
              ++ (if k <? retries then [(backoff_s * inject_Z (2 ^ k))%Q] else [])
     | Raise _ => (k <? retries) = true /\ delay_ok backoff_s k = false
     end.
Proof.
  intros Hready Hatt. pose proof Hready as (Hdest & Hdir & Hpd).
  destruct (attempt_once_spec net url tmp dest tmp_dest dest_nonempty retries backoff_s
              _ _ _ _ Hdest Hatt) as (hs & rs & sl & Hext & Hrs & Hr).
  pose proof (transfer_outcome w Hready) as Hout.
  split.
  - intros j. unfold attempt_error. destruct (normalize_url url) as [u|e]; [|reflexivity].
    rewrite (ext_requests _ _ _ _ _ Hext), (Hrs u eq_refl), length_app. cbn [length].
    now replace (length (w_requests w) + 1 + j)%nat with (S (length (w_requests w) + j)) by lia.
  - destruct r as [[e|]|e].
    + destruct Hr as (Hf & -> & _).
      destruct Hf as (_ & (Hd1 & Hframe & Hdir1) & _ & Hraise & _).
      rewrite Hout in Hraise.
      destruct (attempt_error net url (length (w_requests w))) as [e'|]; [|discriminate].
      split; [congruence|]. split.
      * split; [exact Hd1|]. split; [now apply Hdir1|].
        rewrite <- Hpd. apply tree_is_dir_ext. apply Hframe; [exact parent_tmp | exact parent_dest].
      * rewrite (ext_sleeps _ _ _ _ _ Hext), List.map_app. now destruct (k <? retries).
    + destruct Hr as [-> Hc]. split; [|rewrite (ext_sleeps _ _ _ _ _ Hext); apply app_nil_r].
      unfold attempt_once, try_except in Hatt. rewrite bind_run in Hatt.
      destruct (transfer net url tmp dest w) as [[[]|e] w'] eqn:Ht.
      * cbn [fst] in Hout.
        now destruct (attempt_error net url (length (w_requests w))).
      * exfalso. revert Hatt. rewrite bind_run.
        destruct (cleanup tmp w') as [[[]|e1] w2]; [|discriminate].
        rewrite bind_run.
        destruct ((if k <? retries
                   then secs ← lift (float_mul_int backoff_s (2 ^ k)); time_sleep secs
                   else mret tt) w2) as [[[]|e2] w3]; discriminate.
    + destruct Hr as (_ & _ & Hk & Hd). now split.
Qed.

(** The loop: it sleeps after each of the first [m] attempts, which all
    fail, and ends with attempt [a + m]: with [downloaded] when that one
    has no error, with its error when it is the last one. *)
Lemma attempts_loop_contract n : forall a last_err w r w1,
  n <> 0%nat -> Z.of_nat (a + n) = retries + 1 ->
  ready tmp dest (w_tree w) ->
  (forall k, Z.of_nat a <= k < retries -> delay_ok backoff_s k = true) ->
  attempts_loop net url tmp dest retries backoff_s
    (List.map Z.of_nat (seq a n)) last_err w = (r, w1) ->
  exists b msg m,
    r = Ok (b, msg)
    /\ (m < n)%nat
    /\ List.map fst (w_sleeps w1) = List.map fst (w_sleeps w) ++ delays backoff_s a m
    /\ (forall j, (j < m)%nat ->
          attempt_error net url (length (w_requests w) + j) <> None)
    /\ ((b = true /\ msg = lit "downloaded"
         /\ attempt_error net url (length (w_requests w) + m) = None)
        \/ (b = false /\ S m = n
            /\ exists e, attempt_error net url (length (w_requests w) + m) = Some e
                         /\ msg = lit "error: " ++ exn_str e)).
Proof.
  induction n as [|n IH]; intros a last_err w r w1 Hn Han Hready Hdelay; [easy|].
  cbn [seq List.map attempts_loop]. rewrite bind_run.
  destruct (attempt_once net url tmp dest retries backoff_s (Z.of_nat a) w)
    as [ra wa] eqn:Hatt.
  destruct (attempt_once_outcome _ _ _ _ Hready Hatt) as [Hidx Hr].
  destruct ra as [[e|]|e].
  - destruct Hr as (Herr & Hready1 & Hsl).
    destruct (Z.ltb_spec (Z.of_nat a) retries) as [Hlt|Hge].
    + intros Hloop. destruct n as [|n']; [lia|].
      destruct (IH (S a) (Some e) wa r w1) as (b & msg & m & -> & Hm & Hsl1 & Hall & Hend);
        [easy | lia | exact Hready1 | intros k Hk; apply Hdelay; lia | exact Hloop |].
      exists b, msg, (S m). split; [reflexivity|]. split; [lia|]. split.
      * rewrite Hsl1, Hsl. unfold delays. cbn [seq List.map]. now rewrite <- app_assoc.
      * split.
        -- intros [|j] Hj; [rewrite Nat.add_0_r, Herr; discriminate|].
           replace (length (w_requests w) + S j)%nat with (S (length (w_requests w) + j)) by lia.
           rewrite <- Hidx. apply Hall. lia.
        -- replace (length (w_requests w) + S m)%nat with (S (length (w_requests w) + m)) by lia.
           rewrite <- Hidx. destruct Hend as [(-> & -> & He) | (-> & Hmn & He)].
           ++ left. now repeat split.
           ++ right. split; [reflexivity|]. split; [lia | exact He].
    + intros [= <- <-]. exists false, (lit "error: " ++ exn_str e), 0%nat.
      split; [reflexivity|]. split; [lia|]. split.
      * rewrite Hsl. unfold delays. cbn. reflexivity.
      * split; [intros j Hj; lia|]. right. split; [reflexivity|]. split; [lia|].
        exists e. rewrite Nat.add_0_r. now split.
  - destruct Hr as [Herr Hsl]. intros [= <- <-].
    exists true, (lit "downloaded"), 0%nat.
    split; [reflexivity|]. split; [lia|]. split.
    + rewrite Hsl. unfold delays. cbn. now rewrite app_nil_r.
    + split; [intros j Hj; lia|]. left. rewrite Nat.add_0_r. now repeat split.
  - destruct Hr as [Hk Hd]. rewrite Hdelay in Hd; [discriminate | lia].
Qed.

End Contract.

Lemma plain_path_valid_name (p : path) :
  plain_path p = true -> p <> [] -> valid_name (name p).
Proof.
  intros H Hne. apply andb_true_iff in H as [H _].
  assert (Hin : In (name p) p).
  { unfold name. destruct p as [|c r]; [easy|]. apply (List.exists_last) in Hne as H0.
    destruct H0 as (l & a & ->). rewrite List.last_last. apply in_or_app. right. now left. }
  pose proof (proj1 (forallb_forall _ _) H _ Hin) as Hn.
  unfold plain_name, posix_file_name in Hn.
  repeat (apply andb_true_iff in Hn as [Hn ?]).
  split.
  - intros E. rewrite E in Hn. discriminate.
  - now apply negb_true_iff.
Qed.

(** A real download whose files are in the way of nothing and whose delays
    can all be slept. *)
Lemma download_contract_run `{RT : Runtime} (net : network) (url : str) (dest : path)
    (retries : Z) (backoff_s : Q) (w : world) :
  tree_exists (w_tree w) dest = false ->
  valid_name (name dest) ->
  is_ok (mkdir_parents (w_tree w) (parent dest)) = true ->
  tree_is_dir (w_tree w) (part_path dest) = false ->
  0 <= retries ->
  (forall k, 0 <= k < retries -> delay_ok backoff_s k = true) ->
  exists b msg w1 m,
    download_file net url dest retries backoff_s false w = (Ok (b, msg), w1)
    /\ Z.of_nat m <= retries
    /\ List.map fst (w_sleeps w1) = List.map fst (w_sleeps w) ++ delays backoff_s 0 m
    /\ (forall j, (j < m)%nat ->
          attempt_error net url (length (w_requests w) + j) <> None)
    /\ ((b = true /\ msg = lit "downloaded"
         /\ attempt_error net url (length (w_requests w) + m) = None)
        \/ (b = false /\ Z.of_nat m = retries
            /\ exists e, attempt_error net url (length (w_requests w) + m) = Some e
                         /\ msg = lit "error: " ++ exn_str e)).
Proof.
  intros Hex Hname Hmk Htmp Hret Hdelay.
  rewrite (download_file_run net url dest retries backoff_s w Hex).
  destruct (mkdir_parents (w_tree w) (parent dest)) as [t'|e] eqn:Emk; [|discriminate].
  destruct (after_mkdir dest w t' Hex Emk) as (Hne & Habs & _ & Hpd & Hsame).
  destruct (path_facts dest Hne) as (Hpar & _ & Hneq & Hpt & Hpp).
  rewrite (with_suffix_part_ok dest Hname), range_seq.
  destruct (attempts_loop net url (part_path dest) dest retries backoff_s
              (List.map Z.of_nat (seq 0 (Z.to_nat (retries + 1)))) None (with_tree w t'))
    as [r w1] eqn:Hloop.
  destruct (attempts_loop_contract net url (part_path dest) dest retries backoff_s
              Hneq Hne Hpt Hpp Hpar (Z.to_nat (retries + 1)) 0%nat None (with_tree w t') r w1)
    as (b & msg & m & -> & Hm & Hsl & Hall & Hend); [lia | lia | | | exact Hloop |].
  - split; [exact Habs|]. split; [|exact Hpd]. cbn [w_tree with_tree].
    rewrite <- Htmp. now apply tree_is_dir_ext.
  - intros k Hk. apply Hdelay. lia.
  - cbn [w_requests w_sleeps with_tree] in *.
    exists b, msg, w1, m. split; [reflexivity|]. split; [lia|]. split; [exact Hsl|].
    split; [exact Hall|].
    destruct Hend as [H | (-> & Hmn & He)]; [now left|].
    right. split; [reflexivity|]. split; [lia | exact He].
Qed.

(** ** The claims on [download_file] *)






(** The directories of the destination are made before the handler is set
    up: when they cannot be made, the error of [mkdir] leaves
    [download_file] as well. *)
Lemma download_raises_on_blocked_parent :
  fst (@download_file ascii_runtime steady_net song_url song_path 2 1 false
         blocked_world)
  = Raise (OSError (lit "Not a directory")).
Proof. vm_compute. reflexivity. Qed.

(** The message is that of the last failure: against the source that
    refuses the first request and breaks off the second, a call with one
    retry reports the broken connection, not the refusal. *)
Lemma download_reports_last_failure :
  fst (@download_file ascii_runtime flaky_net song_url song_path 1 1 false empty_world)
  = Ok (false, lit "error: connection reset").
Proof. vm_compute. reflexivity. Qed.



(** ** [_safe_filename_from_url] *)

Lemma mem_skipn c (n : nat) (s : str) : mem c s = false -> mem c (skipn n s) = false.
Proof.
  intros H. rewrite <- (firstn_skipn n s), mem_app in H.
  now apply orb_false_iff in H.
Qed.

(** The extension of [splitext] is empty or a dot followed by characters
    that are neither dots nor slashes. *)
Lemma splitext_spec (p root ext : str) :
  splitext p = (root, ext) ->
  p = root ++ ext
  /\ (ext = [] \/ exists b, ext = 46 :: b /\ mem 46 b = false /\ mem 47 b = false).
Proof.
  unfold splitext. destruct (_ && _) eqn:E.
  2:{ intros [= <- <-]. split; [now rewrite app_nil_r | now left]. }
  apply andb_true_iff in E as [Hlt _]. apply Z.ltb_lt in Hlt.
  destruct (rfind_spec 46 p) as [[Hd _]|(a & b & Hp & Hd & Hb)].
  { destruct (rfind_spec 47 p) as [[Hs _]|(a' & b' & _ & Hs & _)]; lia. }
  rewrite Hd in *. intros [= <- <-]. subst p.
  rewrite slice_to_app, slice_from_app.
  split; [reflexivity|]. right. exists b. split; [reflexivity|]. split; [exact Hb|].
  destruct (rfind_spec 47 (a ++ 46 :: b)) as [[_ Hm]|(a' & b' & Hp' & Hs & Hb')].
  - rewrite mem_app, mem_cons in Hm. apply orb_false_iff in Hm as [_ Hm].
    now apply orb_false_iff in Hm.
  - rewrite Hs in Hlt.
    assert (Hb2 : b' = skipn (S (length a')) a ++ 46 :: b).
    { pose proof (f_equal (skipn (S (length a'))) Hp') as H.
      rewrite !skipn_app in H.
      replace (S (length a') - length a)%nat with 0%nat in H by lia.
      replace (S (length a') - length a')%nat with 1%nat in H by lia.
      rewrite (skipn_all2 a') in H by lia. cbn [skipn app] in H. now symmetry. }
    rewrite Hb2, mem_app, mem_cons in Hb'. apply orb_false_iff in Hb' as [_ Hb'].
    now apply orb_false_iff in Hb'.
Qed.

(** C7, at the failing input: the basename decodes to a dot, a space and a
    dot; its root slugifies to a dot and its extension is a dot, so the
    name returned is the parent-directory entry, which is no name for a
    file. *)
Lemma safe_filename_can_be_dotdot :
  @_safe_filename_from_url ascii_runtime (lit "https://animezen.net/midis/.%20.")
    = Ok (lit "..")
  /\ posix_file_name (lit "..") = false.
Proof. split; vm_compute; reflexivity. Qed.

(** The extension is not sanitised either: an escaped NUL reaches the name. *)
Lemma safe_filename_can_hold_nul :
  @_safe_filename_from_url ascii_runtime (lit "https://animezen.net/midis/song.%00")
    = Ok (lit "song." ++ [0]).
Proof. vm_compute. reflexivity. Qed.

(** The slug at the default length: a non-empty word of at most 120
    characters of [[a-z0-9-_.()]]. *)
Lemma slugify_default `{RT : Runtime} (text : str) :
  let s := _slugify text 120 in
  Forall (fun c => slug_char c = true) s /\ s <> [] /\ Z.of_nat (length s) <= 120.
Proof.
  unfold _slugify. set (t := strip is_hyphen _).
  assert (Ht : Forall (fun c => slug_char c = true) t).
  { subst t. apply Forall_strip. apply Forall_sub_runs_from; [exact slug_char_hyphen|].
    apply List.Forall_forall. intros c Hc _. revert c Hc. apply List.Forall_forall.
    apply Forall_sub_runs_from; [exact slug_char_hyphen|].
    apply List.Forall_forall. intros c _ Hcls. now apply negb_false_iff in Hcls. }
  pose proof (Forall_slice_to _ t 120 Ht) as Hs.
  pose proof (slice_to_length t 120 ltac:(lia)) as Hl.
  destruct (slice_to t 120) as [|c r] eqn:E; cbv zeta.
  - split; [exact slug_chars_untitled|]. split; [discriminate | cbn; lia].
  - split; [exact Hs|]. split; [discriminate | exact Hl].
Qed.

(** What holds of every name returned: it is the slug of the root of the
    decoded path basename followed by the lowercased extension, [.mid] when the basename
    has none; it is not empty, its slug part is a non-empty word of at most
    120 characters of [[a-z0-9-_.()]], and the extension before lowercasing
    is a dot followed by characters that are neither dots nor slashes. *)
Theorem safe_filename_shape `{RT : Runtime} (url f : str) :
  _safe_filename_from_url url = Ok f ->
  exists scheme netloc path params query fragment root ext0 ext b,
    urlparse url [] = Ok (scheme, netloc, path, params, query, fragment)
    /\ splitext (unquote (basename path)) = (root, ext0)
    /\ unquote (basename path) = root ++ ext0
    /\ ext = match ext0 with [] => lit ".mid" | _ => ext0 end
    /\ f = _slugify root 120 ++ str_lower ext
    /\ f <> []
    /\ Forall (fun c => slug_char c = true) (_slugify root 120)
    /\ _slugify root 120 <> []
    /\ Z.of_nat (length (_slugify root 120)) <= 120
    /\ ext = 46 :: b /\ mem 46 b = false /\ mem 47 b = false.
Proof.
  unfold _safe_filename_from_url. intros H.
  destruct (urlparse url []) as [[[[[[sch nl] path] pa] q] fr]|] eqn:Hp;
    cbn [mbind result_bind] in H; [|discriminate].
  destruct (splitext (unquote (basename path))) as [root ext0] eqn:Hs.
  inversion H; subst f. clear H.
  destruct (splitext_spec _ _ _ Hs) as [Hcat Hext].
  destruct (slugify_default root) as (Hchars & Hne & Hlen).
  assert (Hb : exists b, match ext0 with [] => lit ".mid" | _ => ext0 end = 46 :: b
                         /\ mem 46 b = false /\ mem 47 b = false).
  { destruct Hext as [->|(b & -> & Hb)]; [now exists (lit "mid") | now exists b]. }
  destruct Hb as (b & Hb & Hb1 & Hb2).
  exists sch, nl, path, pa, q, fr, root, ext0,
    (match ext0 with [] => lit ".mid" | _ => ext0 end), b.
  split; [reflexivity|]. split; [exact Hs|]. split; [exact Hcat|].
  split; [reflexivity|]. split; [reflexivity|].
  split; [intros E; apply app_eq_nil in E as [E _]; now apply Hne|].
  split; [exact Hchars|]. split; [exact Hne|].
  split; [exact Hlen|].
  split; [exact Hb|]. now split.
Qed.

Lemma safe_filename_shape_witness :
  exists root b,
    @_safe_filename_from_url ascii_runtime
      (lit "https://animezen.net/midis/Ah!%20My%20Goddess%20-%20Opening.MID")
    = Ok (@_slugify ascii_runtime root 120 ++ @str_lower ascii_runtime (46 :: b))
    /\ mem 47 b = false.
Proof.
  assert (H : @_safe_filename_from_url ascii_runtime
                (lit "https://animezen.net/midis/Ah!%20My%20Goddess%20-%20Opening.MID")
              = Ok (lit "ah-my-goddess-opening.mid")) by (vm_compute; reflexivity).
  destruct (@safe_filename_shape ascii_runtime _ _ H)
    as (sch & nl & path & pa & q & fr & root & ext0 & ext & b
        & _ & _ & _ & _ & Hf & _ & _ & _ & _ & Hext & _ & Hb).
  exists root, b. split; [|exact Hb]. rewrite H, Hf, Hext. reflexivity.
Defined.

(** ** UTF-8 *)

Lemma forall_below (P : Z -> bool) (n : nat) :
  forallb P (List.map Z.of_nat (seq 0 n)) = true ->
  forall x, 0 <= x < Z.of_nat n -> P x = true.
Proof.
  intros H x Hx. rewrite forallb_forall in H. apply H.
  apply in_map_iff. exists (Z.to_nat x). split; [lia|]. apply in_seq. lia.
Qed.

Lemma lor_small (hi : Z) (n : nat) :
  forallb (fun x => Z.lor hi x =? hi + x) (List.map Z.of_nat (seq 0 n)) = true ->
  forall x, 0 <= x < Z.of_nat n -> Z.lor hi x = hi + x.
Proof. intros H x Hx. apply Z.eqb_eq. now apply (forall_below _ n H). Qed.

Lemma lor_128 x : 0 <= x < 64 -> Z.lor 128 x = 128 + x.
Proof. apply (lor_small 128 64). vm_compute. reflexivity. Qed.

Lemma lor_192 x : 0 <= x < 32 -> Z.lor 192 x = 192 + x.
Proof. apply (lor_small 192 32). vm_compute. reflexivity. Qed.

Lemma lor_224 x : 0 <= x < 16 -> Z.lor 224 x = 224 + x.
Proof. apply (lor_small 224 16). vm_compute. reflexivity. Qed.

Lemma lor_240 x : 0 <= x < 8 -> Z.lor 240 x = 240 + x.
Proof. apply (lor_small 240 8). vm_compute. reflexivity. Qed.

Lemma land_63 x : Z.land x 63 = x mod 64.
Proof. change 63 with (Z.ones 6). now rewrite Z.land_ones by lia. Qed.

(** The encoder in arithmetic form. *)
Lemma encode_cp_arith (c : Z) :
  encode_cp c =
  if c <? 0 then None
  else if c <? 128 then Some [c]
  else if c <? 2048 then Some [192 + c / 64; 128 + c mod 64]
  else if is_surrogate c then None
  else if c <? 65536 then
    Some [224 + c / 4096; 128 + (c / 64) mod 64; 128 + c mod 64]
  else if c <? 1114112 then
    Some [240 + c / 262144; 128 + (c / 4096) mod 64; 128 + (c / 64) mod 64;
          128 + c mod 64]
  else None.
Proof.
  unfold encode_cp.
  destruct (Z.ltb_spec c 0); [reflexivity|].
  destruct (Z.ltb_spec c 128); [reflexivity|].
  rewrite !land_63, !Z.shiftr_div_pow2 by lia.
  change (2 ^ 6) with 64. change (2 ^ 12) with 4096. change (2 ^ 18) with 262144.
  assert (H64 : forall x, 0 <= x mod 64 < 64) by (intros x; apply Z.mod_pos_bound; lia).
  rewrite !lor_128 by apply H64.
  destruct (Z.ltb_spec c 2048).
  { rewrite lor_192; [reflexivity|]. split; [apply Z.div_pos; lia|].
    apply Z.div_lt_upper_bound; lia. }
  destruct (is_surrogate c); [reflexivity|].
  destruct (Z.ltb_spec c 65536).
  { rewrite lor_224; [reflexivity|]. split; [apply Z.div_pos; lia|].
    apply Z.div_lt_upper_bound; lia. }
  destruct (Z.ltb_spec c 1114112); [|reflexivity].
  rewrite lor_240; [reflexivity|]. split; [apply Z.div_pos; lia|].
  apply Z.div_lt_upper_bound; lia.
Qed.

Lemma encode_cp_scalar (c : Z) :
  is_scalar c = true <-> exists bs, encode_cp c = Some bs.
Proof.
  rewrite encode_cp_arith. unfold is_scalar, is_surrogate.
  destruct (Z.ltb_spec c 0), (Z.ltb_spec c 128), (Z.ltb_spec c 2048),
    (Z.leb_spec 55296 c), (Z.leb_spec c 57343), (Z.ltb_spec c 65536),
    (Z.ltb_spec c 1114112), (Z.leb_spec 0 c), (Z.ltb_spec c 55296),
    (Z.leb_spec 57344 c); cbn; try lia;
    (split; [intros; try discriminate; now eexists | intros [bs Hbs]; congruence]).
Qed.

(** Decoding undoes encoding, one character at a time. *)
Lemma utf8_decode_encode_cp (c : Z) (bs rest : bytes) :
  encode_cp c = Some bs -> utf8_decode (bs ++ rest) = c :: utf8_decode rest.
Proof.
  rewrite encode_cp_arith.
  destruct (Z.ltb_spec c 0); [discriminate|].
  destruct (Z.ltb_spec c 128) as [H128|H128].
  { intros [= <-]. cbn [app utf8_decode].
    destruct (Z.ltb_spec c 128); [reflexivity | lia]. }
  pose proof (Z.div_mod c 64 ltac:(lia)) as D64.
  pose proof (Z.mod_pos_bound c 64 ltac:(lia)) as M64.
  destruct (Z.ltb_spec c 2048) as [H2048|H2048].
  { intros [= <-]. cbn [app utf8_decode].
    assert (2 <= c / 64 < 32) by lia.
    destruct (Z.ltb_spec (192 + c / 64) 128); [lia|].
    destruct (Z.ltb_spec (192 + c / 64) 194); [lia|].
    destruct (Z.ltb_spec (192 + c / 64) 224); [|lia].
    unfold is_cont.
    destruct (Z.leb_spec 128 (128 + c mod 64)); [|lia].
    destruct (Z.ltb_spec (128 + c mod 64) 192); [|lia].
    cbn [andb]. shifts. f_equal. lia. }
  unfold is_surrogate.
  destruct (Z.leb_spec 55296 c) as [Hs1|Hs1], (Z.leb_spec c 57343) as [Hs2|Hs2];
    cbn [andb]; try discriminate.
  all: pose proof (Z.div_mod (c / 64) 64 ltac:(lia)) as D4096;
    pose proof (Z.mod_pos_bound (c / 64) 64 ltac:(lia)) as M4096;
    assert (Hdd : c / 64 / 64 = c / 4096) by (rewrite Z.div_div by lia; reflexivity).
  all: destruct (Z.ltb_spec c 65536) as [H65536|H65536].
  all: try (intros [= <-]; cbn [app utf8_decode];
    assert (0 <= c / 4096 < 16) by lia;
    destruct (Z.ltb_spec (224 + c / 4096) 128); [lia|];
    destruct (Z.ltb_spec (224 + c / 4096) 194); [lia|];
    destruct (Z.ltb_spec (224 + c / 4096) 224); [lia|];
    destruct (Z.ltb_spec (224 + c / 4096) 240); [|lia];
    unfold is_cont;
    destruct (Z.leb_spec 128 (128 + (c / 64) mod 64)); [|lia];
    destruct (Z.ltb_spec (128 + (c / 64) mod 64) 192); [|lia];
    destruct (Z.leb_spec 128 (128 + c mod 64)); [|lia];
    destruct (Z.ltb_spec (128 + c mod 64) 192); [|lia];
    cbn [andb negb orb];
    destruct (Z.ltb_spec (128 + (c / 64) mod 64) 160);
    destruct (Z.eqb_spec (224 + c / 4096) 224);
    destruct (Z.eqb_spec (224 + c / 4096) 237);
    try lia; shifts; f_equal; lia).
  all: destruct (Z.ltb_spec c 1114112) as [Hmax|Hmax]; [|discriminate].
  all: pose proof (Z.div_mod (c / 4096) 64 ltac:(lia)) as D18;
    pose proof (Z.mod_pos_bound (c / 4096) 64 ltac:(lia)) as M18;
    assert (Hd18 : c / 4096 / 64 = c / 262144) by (rewrite Z.div_div by lia; reflexivity).
  all: intros [= <-]; cbn [app utf8_decode];
    assert (0 <= c / 262144 < 5) by lia;
    destruct (Z.ltb_spec (240 + c / 262144) 128); [lia|];
    destruct (Z.ltb_spec (240 + c / 262144) 194); [lia|];
    destruct (Z.ltb_spec (240 + c / 262144) 224); [lia|];
    destruct (Z.ltb_spec (240 + c / 262144) 240); [lia|];
    destruct (Z.ltb_spec (240 + c / 262144) 245); [|lia];
    unfold is_cont;
    destruct (Z.leb_spec 128 (128 + (c / 4096) mod 64)); [|lia];
    destruct (Z.ltb_spec (128 + (c / 4096) mod 64) 192); [|lia];
    destruct (Z.leb_spec 128 (128 + (c / 64) mod 64)); [|lia];
    destruct (Z.ltb_spec (128 + (c / 64) mod 64) 192); [|lia];
    destruct (Z.leb_spec 128 (128 + c mod 64)); [|lia];
    destruct (Z.ltb_spec (128 + c mod 64) 192); [|lia];
    cbn [andb negb orb];
    destruct (Z.ltb_spec (128 + (c / 4096) mod 64) 144);
    destruct (Z.eqb_spec (240 + c / 262144) 240);
    destruct (Z.eqb_spec (240 + c / 262144) 244);
    try lia; shifts; f_equal; lia.
Qed.

Lemma encode_cp_bytes (c : Z) (bs : bytes) :
  encode_cp c = Some bs -> Forall (fun b => is_byte b = true) bs.
Proof.
  rewrite encode_cp_arith. unfold is_byte.
  assert (Hb : forall b, 0 <= b < 256 -> (0 <=? b) && (b <? 256) = true).
  { intros b Hb. apply andb_true_iff. split; [apply Z.leb_le | apply Z.ltb_lt]; lia. }
  pose proof (Z.mod_pos_bound c 64 ltac:(lia)).
  pose proof (Z.mod_pos_bound (c / 64) 64 ltac:(lia)).
  pose proof (Z.mod_pos_bound (c / 4096) 64 ltac:(lia)).
  destruct (Z.ltb_spec c 0); [discriminate|].
  destruct (Z.ltb_spec c 128).
  { intros [= <-]. repeat constructor. apply Hb. lia. }
  destruct (Z.ltb_spec c 2048).
  { intros [= <-].
    assert (0 <= c / 64 < 32) by (split; [apply Z.div_pos | apply Z.div_lt_upper_bound]; lia).
    repeat constructor; apply Hb; lia. }
  destruct (is_surrogate c); [discriminate|].
  destruct (Z.ltb_spec c 65536).
  { intros [= <-].
    assert (0 <= c / 4096 < 16) by (split; [apply Z.div_pos | apply Z.div_lt_upper_bound]; lia).
    repeat constructor; apply Hb; lia. }
  destruct (Z.ltb_spec c 1114112); [|discriminate].
  intros [= <-].
  assert (0 <= c / 262144 < 5) by (split; [apply Z.div_pos | apply Z.div_lt_upper_bound]; lia).
  repeat constructor; apply Hb; lia.
Qed.

Lemma utf8_encode_from_spec (whole s : str) : forall i bs,
  utf8_encode_from whole i s = Ok bs ->
  Forall (fun b => is_byte b = true) bs
  /\ Forall (fun c => is_scalar c = true) s
  /\ (s <> [] -> bs <> [])
  /\ forall rest, utf8_decode (bs ++ rest) = s ++ utf8_decode rest.
Proof.
  induction s as [|c s IH]; intros i bs H; cbn [utf8_encode_from] in H.
  - inversion H. repeat split; try constructor; easy.
  - destruct (encode_cp c) as [cb|] eqn:Hc; [|discriminate].
    destruct (utf8_encode_from whole (S i) s) as [r|] eqn:Hr; [|discriminate].
    inversion H; subst. destruct (IH _ _ Hr) as (Hb & Hs & _ & Hd).
    split; [apply Forall_app; split; [now apply (encode_cp_bytes c) | exact Hb]|].
    split; [constructor; [apply encode_cp_scalar; now exists cb | exact Hs]|].
    split.
    + intros _ E. apply app_eq_nil in E as [-> _].
      rewrite encode_cp_arith in Hc.
      destruct (c <? 0), (c <? 128), (c <? 2048), (is_surrogate c), (c <? 65536),
        (c <? 1114112); discriminate.
    + intros rest. rewrite <- app_assoc, (utf8_decode_encode_cp c cb) by exact Hc.
      now rewrite Hd.
Qed.

Lemma utf8_encode_from_total (whole s : str) : forall i,
  Forall (fun c => is_scalar c = true) s ->
  exists bs, utf8_encode_from whole i s = Ok bs.
Proof.
  induction s as [|c s IH]; intros i H; [now exists []|].
  inversion H as [|? ? Hc Hs]; subst. cbn [utf8_encode_from].
  apply encode_cp_scalar in Hc as [cb ->].
  destruct (IH (S i) Hs) as [r ->]. now eexists.
Qed.

(** The decoder yields scalar values only. *)
Lemma utf8_decode_scalar (bs : bytes) :
  Forall (fun b => is_byte b = true) bs ->
  Forall (fun c => is_scalar c = true) (utf8_decode bs).
Proof.
  assert (Hrep : is_scalar replacement = true) by reflexivity.
  assert (Hsc : forall c, 0 <= c < 55296 \/ 57344 <= c < 1114112 -> is_scalar c = true).
  { intros c Hc. unfold is_scalar.
    destruct (Z.leb_spec 0 c), (Z.ltb_spec c 55296), (Z.leb_spec 57344 c),
      (Z.ltb_spec c 1114112); cbn; try reflexivity; lia. }
  remember (length bs) as n eqn:Hn. revert bs Hn.
  induction n as [n IH] using lt_wf_ind. intros bs Hn Hbytes.
  assert (IH' : forall bs', (length bs' < length bs)%nat ->
            Forall (fun b => is_byte b = true) bs' ->
            Forall (fun c => is_scalar c = true) (utf8_decode bs')).
  { intros bs' Hlt Hb'. apply (IH (length bs')); [lia | reflexivity | exact Hb']. }
  clear IH.
  assert (Hcont : forall x, is_cont x = true -> 128 <= x < 192).
  { intros x Hx. unfold is_cont in Hx. apply andb_true_iff in Hx as [H1 H2].
    apply Z.leb_le in H1. apply Z.ltb_lt in H2. lia. }
  destruct bs as [|b r1]; [constructor|].
  inversion Hbytes as [|? ? Hb Hr1]; subst.
  unfold is_byte in Hb. apply andb_true_iff in Hb as [Hb0 _]. apply Z.leb_le in Hb0.
  cbn [utf8_decode].
  assert (T1 : Forall (fun c => is_scalar c = true) (utf8_decode r1))
    by (apply IH'; [cbn; lia | exact Hr1]).
  destruct (Z.ltb_spec b 128); [constructor; [apply Hsc; lia | exact T1]|].
  destruct (Z.ltb_spec b 194); [now constructor|].
  destruct r1 as [|b2 r2].
  { repeat (destruct (_ <? _)); now repeat constructor. }
  inversion Hr1 as [|? ? _ Hr2]; subst.
  assert (T2 : Forall (fun c => is_scalar c = true) (utf8_decode r2))
    by (apply IH'; [cbn; lia | exact Hr2]).
  destruct (Z.ltb_spec b 224).
  { destruct (is_cont b2) eqn:C2; [|now constructor].
    apply Hcont in C2. constructor; [|exact T2]. apply Hsc. shifts. lia. }
  destruct (Z.ltb_spec b 240).
  { destruct (is_cont b2) eqn:C2; cbn [negb orb]; [|now constructor].
    apply Hcont in C2.
    destruct (Z.ltb_spec b2 160), (Z.eqb_spec b 224), (Z.eqb_spec b 237);
      try (now constructor); try lia.
    all: destruct r2 as [|b3 r3]; [now repeat constructor|].
    all: inversion Hr2 as [|? ? _ Hr3]; subst.
    all: destruct (is_cont b3) eqn:C3; [|now constructor].
    all: apply Hcont in C3; constructor;
      [apply Hsc; shifts; lia | apply IH'; [cbn; lia | exact Hr3]]. }
  destruct (Z.ltb_spec b 245); [|now constructor].
  destruct (is_cont b2) eqn:C2; cbn [negb orb]; [|now constructor].
  apply Hcont in C2.
  destruct (Z.ltb_spec b2 144), (Z.eqb_spec b 240), (Z.eqb_spec b 244);
    try (now constructor); try lia.
  all: destruct r2 as [|b3 r3]; [now repeat constructor|].
  all: inversion Hr2 as [|? ? _ Hr3]; subst.
  all: destruct (is_cont b3) eqn:C3; cbn [negb]; [|now constructor].
  all: apply Hcont in C3.
  all: destruct r3 as [|b4 r4]; [now repeat constructor|].
  all: inversion Hr3 as [|? ? _ Hr4]; subst.
  all: assert (T3 : Forall (fun c => is_scalar c = true) (utf8_decode (b4 :: r4)))
    by (apply IH'; [cbn; lia | exact Hr3]).
  all: destruct (is_cont b4) eqn:C4; [|now constructor].
  all: apply Hcont in C4; constructor;
    [apply Hsc; shifts; lia | apply IH'; [cbn; lia | exact Hr4]].
Qed.

(** ** Quoting and unquoting *)

Lemma hex_roundtrip (b : Z) :
  0 <= b < 256 ->
  hex_value (hex_upper (b / 16)) = Some (b / 16)
  /\ hex_value (hex_upper (b mod 16)) = Some (b mod 16).
Proof.
  intros Hb.
  assert (H : forall x, 0 <= x < 16 -> hex_value (hex_upper x) = Some x).
  { intros x Hx.
    pose proof (forall_below
      (fun y => match hex_value (hex_upper y) with Some v => v =? y | None => false end)
      16 ltac:(vm_compute; reflexivity) x Hx) as Hc.
    cbv beta in Hc. destruct (hex_value (hex_upper x)); [|discriminate].
    now apply Z.eqb_eq in Hc as ->. }
  split; apply H.
  - split; [apply Z.div_pos | apply Z.div_lt_upper_bound]; lia.
  - apply Z.mod_pos_bound. lia.
Qed.

Lemma quoter_cases (safe : str) (b : Z) :
  (quoter safe b = [b] /\ (always_safe b || (is_ascii b && mem b safe)) = true)
  \/ (quoter safe b = [37; hex_upper (b / 16); hex_upper (b mod 16)]
      /\ (always_safe b || (is_ascii b && mem b safe)) = false).
Proof. unfold quoter. destruct (always_safe b || _); [now left | now right]. Qed.

Lemma always_safe_not_percent (b : Z) : always_safe b = true -> b <> 37.
Proof. intros H ->. discriminate. Qed.

(** Unquoting undoes the quoting of bytes, when the percent sign is not
    declared safe. *)
Lemma unquote_to_bytes_quote (safe : str) (bs : bytes) :
  mem 37 safe = false ->
  Forall (fun b => is_byte b = true) bs ->
  unquote_to_bytes (quote_from_bytes bs safe) = bs.
Proof.
  intros Hsafe Hbs. unfold quote_from_bytes.
  induction Hbs as [|b bs Hb Hbs IH]; [reflexivity|].
  cbn [flat_map]. unfold is_byte in Hb. apply andb_true_iff in Hb as [Hb1 Hb2].
  apply Z.leb_le in Hb1. apply Z.ltb_lt in Hb2.
  destruct (quoter_cases safe b) as [[-> Hs]|[-> Hs]].
  - cbn [app unquote_to_bytes].
    assert (Hne : b <> 37).
    { apply orb_true_iff in Hs as [Hs|Hs]; [now apply always_safe_not_percent|].
      apply andb_true_iff in Hs as [_ Hs]. intros ->. congruence. }
    destruct (Z.eqb_spec b 37); [contradiction|]. now rewrite IH.
  - cbn [app unquote_to_bytes]. cbn [Z.eqb Pos.eqb].
    destruct (hex_roundtrip b ltac:(lia)) as [-> ->]. rewrite IH. f_equal.
    pose proof (Z.div_mod b 16 ltac:(lia)). lia.
Qed.

Lemma hex_upper_ascii (x : Z) : 0 <= x < 16 -> is_ascii (hex_upper x) = true.
Proof.
  intros Hx. unfold hex_upper, is_ascii.
  destruct (Z.ltb_spec x 10); apply andb_true_iff; split;
    (apply Z.leb_le || apply Z.ltb_lt); lia.
Qed.

Lemma always_safe_ascii (b : Z) : always_safe b = true -> is_ascii b = true.
Proof.
  unfold always_safe, is_upper, is_lower, is_digit, is_ascii, mem. cbn [existsb lit List.map list_ascii_of_string].
  intros H. apply andb_true_iff.
  repeat (apply orb_true_iff in H as [H|H]);
    repeat (apply andb_true_iff in H as [? ?]);
    try discriminate;
    repeat match goal with
           | H : (_ <=? _) = true |- _ => apply Z.leb_le in H
           | H : (_ =? _) = true |- _ => apply Z.eqb_eq in H
           end;
    split; (apply Z.leb_le || apply Z.ltb_lt); cbn in *; lia.
Qed.


Lemma quoter_chars (safe : str) (b : Z) :
  is_byte b = true -> Forall (quoted_char safe) (quoter safe b).
Proof.
  intros Hb. unfold is_byte in Hb. apply andb_true_iff in Hb as [Hb1 Hb2].
  apply Z.leb_le in Hb1. apply Z.ltb_lt in Hb2.
  destruct (quoter_cases safe b) as [[-> Hs]|[-> _]].
  - constructor; [now left | constructor].
  - constructor; [|constructor; [|constructor; [|constructor]]].
    + right. now left.
    + right. right. exists (b / 16). split; [|reflexivity].
      split; [apply Z.div_pos | apply Z.div_lt_upper_bound]; lia.
    + right. right. exists (b mod 16). split; [|reflexivity].
      apply Z.mod_pos_bound. lia.
Qed.

Lemma quote_from_bytes_chars (safe : str) (bs : bytes) :
  Forall (fun b => is_byte b = true) bs ->
  Forall (quoted_char safe) (quote_from_bytes bs safe).
Proof.
  intros H. unfold quote_from_bytes. induction H as [|b bs Hb Hbs IH]; [constructor|].
  cbn [flat_map]. apply Forall_app. split; [now apply quoter_chars | exact IH].
Qed.

Lemma quoted_char_ascii (safe : str) (c : Z) : quoted_char safe c -> is_ascii c = true.
Proof.
  intros [H|[->|(x & Hx & ->)]]; [|reflexivity | now apply hex_upper_ascii].
  apply orb_true_iff in H as [H|H]; [now apply always_safe_ascii|].
  now apply andb_true_iff in H as [H _].
Qed.

Lemma hex_upper_hexdigit (x : Z) : 0 <= x < 16 -> is_hexdigit (hex_upper x) = true.
Proof.
  intros Hx.
  exact (forall_below (fun y => is_hexdigit (hex_upper y)) 16
           ltac:(vm_compute; reflexivity) x Hx).
Qed.

(** A character the quoter writes is safe, the percent sign or a digit. *)
Lemma quoted_char_not (safe : str) (c : Z) :
  quoted_char safe c ->
  always_safe c = false -> mem c safe = false -> c <> 37 -> is_hexdigit c = false ->
  False.
Proof.
  intros [H|[->|(x & Hx & ->)]] Ha Hm Hp Hh; [|congruence|].
  - rewrite Ha, Hm, andb_false_r in H. discriminate.
  - rewrite hex_upper_hexdigit in Hh by exact Hx. discriminate.
Qed.

Lemma utf8_decode_ascii (s : str) :
  forallb is_ascii s = true -> utf8_decode s = s.
Proof.
  induction s as [|c s IH]; [reflexivity|]. cbn [forallb utf8_decode].
  intros H. apply andb_true_iff in H as [Hc Hs]. unfold is_ascii in Hc.
  apply andb_true_iff in Hc as [_ Hc]. rewrite Hc. now rewrite IH.
Qed.

Lemma unquote_to_bytes_plain (s : str) :
  mem 37 s = false -> unquote_to_bytes s = s.
Proof.
  induction s as [|c s IH]; [reflexivity|]. rewrite mem_cons. intros H.
  apply orb_false_iff in H as [Hc Hs]. cbn [unquote_to_bytes].
  rewrite Z.eqb_sym, Hc. now rewrite IH.
Qed.

Lemma unquote_pieces_ascii (s : str) : forall run,
  forallb is_ascii s = true -> unquote_pieces run s = unquote_run (run ++ s).
Proof.
  induction s as [|c s IH]; intros run H; cbn [unquote_pieces].
  - now rewrite app_nil_r.
  - cbn [forallb] in H. apply andb_true_iff in H as [Hc Hs]. rewrite Hc.
    rewrite IH by exact Hs. now rewrite <- app_assoc.
Qed.

Lemma unquote_ascii (s : str) :
  forallb is_ascii s = true -> unquote s = utf8_decode (unquote_to_bytes s).
Proof.
  intros H. unfold unquote. destruct (mem 37 s) eqn:Hp; cbn [negb].
  - now rewrite unquote_pieces_ascii.
  - now rewrite unquote_to_bytes_plain, utf8_decode_ascii.
Qed.

Lemma quoted_forallb_ascii (safe : str) (q : str) :
  Forall (quoted_char safe) q -> forallb is_ascii q = true.
Proof.
  intros H. apply forallb_forall. intros c Hc. rewrite Forall_forall in H.
  apply (quoted_char_ascii safe). apply H. now apply list_elem_of_In.
Qed.

Lemma quote_spec (s safe q : str) :
  quote s safe = Ok q ->
  Forall (quoted_char safe) q
  /\ Forall (fun c => is_scalar c = true) s
  /\ (s <> [] -> q <> [])
  /\ (mem 37 safe = false -> unquote q = s).
Proof.
  unfold quote. destruct s as [|c s].
  { intros [= <-]. repeat split; try constructor; easy. }
  cbn [mbind result_bind]. unfold utf8_encode.
  destruct (utf8_encode_from (c :: s) 0 (c :: s)) as [bs|] eqn:He; [|discriminate].
  intros [= <-]. destruct (utf8_encode_from_spec _ _ _ _ He) as (Hb & Hs & Hne & Hd).
  pose proof (quote_from_bytes_chars safe bs Hb) as Hq.
  split; [exact Hq|]. split; [exact Hs|]. split.
  - intros _ E. specialize (Hne ltac:(discriminate)).
    destruct bs as [|b bs]; [easy|]. unfold quote_from_bytes in E. cbn [flat_map] in E.
    apply app_eq_nil in E as [E _].
    destruct (quoter_cases safe b) as [[E' _]|[E' _]]; rewrite E' in E; discriminate.
  - intros Hsafe. rewrite unquote_ascii by now apply (quoted_forallb_ascii safe).
    rewrite unquote_to_bytes_quote by assumption.
    specialize (Hd []). now rewrite !app_nil_r in Hd.
Qed.

Lemma quote_total (s safe : str) :
  Forall (fun c => is_scalar c = true) s -> exists q, quote s safe = Ok q.
Proof.
  intros H. unfold quote. destruct s as [|c s]; [now eexists|].
  unfold utf8_encode. destruct (utf8_encode_from_total (c :: s) (c :: s) 0%nat H) as [bs ->].
  now eexists.
Qed.

(** Quoting is stable: what [quote] has written, [unquote] followed by
    [quote] writes again. *)
Lemma quote_unquote_fixed (s safe q : str) :
  mem 37 safe = false -> quote s safe = Ok q -> quote (unquote q) safe = Ok q.
Proof.
  intros Hsafe Hq. destruct (quote_spec _ _ _ Hq) as (_ & _ & _ & Hu).
  now rewrite (Hu Hsafe).
Qed.

Lemma unquote_to_bytes_bytes (s : str) :
  forallb is_ascii s = true -> Forall (fun b => is_byte b = true) (unquote_to_bytes s).
Proof.
  assert (Hab : forall c, is_ascii c = true -> is_byte c = true).
  { intros c Hc. unfold is_ascii, is_byte in *. apply andb_true_iff in Hc as [H1 H2].
    apply Z.ltb_lt in H2. rewrite H1. apply Z.ltb_lt. lia. }
  assert (Hhex : forall c v, hex_value c = Some v -> 0 <= v < 16).
  { intros c v. unfold hex_value, is_digit.
    destruct (Z.leb_spec 48 c), (Z.leb_spec c 57), (Z.leb_spec 65 c), (Z.leb_spec c 70),
      (Z.leb_spec 97 c), (Z.leb_spec c 102); cbn; intros [= <-]; lia. }
  remember (length s) as n eqn:Hn. revert s Hn.
  induction n as [n IH] using lt_wf_ind. intros s Hn Hs.
  destruct s as [|c s]; [constructor|]. cbn [forallb] in Hs.
  apply andb_true_iff in Hs as [Hc Hs]. cbn [unquote_to_bytes].
  assert (Hrec : Forall (fun b => is_byte b = true) (unquote_to_bytes s))
    by (apply (IH (length s)); [cbn in Hn; lia | reflexivity | exact Hs]).
  destruct (c =? 37); [|constructor; [now apply Hab | exact Hrec]].
  destruct s as [|h [|l s']]; try (constructor; [now apply Hab | exact Hrec]).
  destruct (hex_value h) as [hv|] eqn:Hh; [|constructor; [now apply Hab | exact Hrec]].
  destruct (hex_value l) as [lv|] eqn:Hl; [|constructor; [now apply Hab | exact Hrec]].
  constructor.
  - apply Hhex in Hh. apply Hhex in Hl. unfold is_byte. apply andb_true_iff.
    split; [apply Z.leb_le | apply Z.ltb_lt]; lia.
  - cbn [forallb] in Hs. apply andb_true_iff in Hs as [_ Hs].
    apply andb_true_iff in Hs as [_ Hs].
    apply (IH (length s')); [cbn in Hn; lia | reflexivity | exact Hs].
Qed.

Lemma unquote_pieces_scalar (s : str) : forall run,
  forallb is_ascii run = true ->
  Forall (fun c => is_scalar c = true) s ->
  Forall (fun c => is_scalar c = true) (unquote_pieces run s).
Proof.
  assert (Hrun : forall run, forallb is_ascii run = true ->
            Forall (fun c => is_scalar c = true) (unquote_run run)).
  { intros run Hr. apply utf8_decode_scalar. now apply unquote_to_bytes_bytes. }
  induction s as [|c s IH]; intros run Hr Hs; cbn [unquote_pieces]; [now apply Hrun|].
  inversion Hs as [|? ? Hc Hs']; subst.
  destruct (is_ascii c) eqn:Ha.
  - apply IH; [|exact Hs']. rewrite forallb_app, Hr. cbn. now rewrite Ha.
  - apply Forall_app. split; [now apply Hrun|]. constructor; [exact Hc|].
    now apply IH.
Qed.

Lemma unquote_scalar (s : str) :
  Forall (fun c => is_scalar c = true) s ->
  Forall (fun c => is_scalar c = true) (unquote s).
Proof.
  intros H. unfold unquote. destruct (mem 37 s); cbn [negb]; [|exact H].
  now apply unquote_pieces_scalar.
Qed.

Lemma replace_char_absent (c d : Z) (s : str) :
  mem c s = false -> replace_char c d s = s.
Proof.
  induction s as [|x s IH]; [reflexivity|]. rewrite mem_cons. intros H.
  apply orb_false_iff in H as [Hx Hs]. cbn [replace_char List.map].
  rewrite Z.eqb_sym, Hx. f_equal. now apply IH.
Qed.

Lemma replace_char_back (c d : Z) (s : str) :
  mem d s = false -> replace_char d c (replace_char c d s) = s.
Proof.
  induction s as [|x s IH]; [reflexivity|]. rewrite mem_cons. intros H.
  apply orb_false_iff in H as [Hx Hs]. cbn [replace_char List.map].
  fold (replace_char c d s). fold (replace_char d c (replace_char c d s)).
  rewrite IH by exact Hs. f_equal.
  destruct (Z.eqb_spec x c) as [->|Hne].
  - now rewrite Z.eqb_refl.
  - rewrite Z.eqb_sym, Hx. reflexivity.
Qed.

Lemma Forall_not_mem (P : Z -> Prop) (c : Z) (s : str) :
  Forall P s -> ~ P c -> mem c s = false.
Proof.
  intros H Hc. apply mem_false_Forall. eapply Forall_impl; [exact H|].
  intros x Hx ->. contradiction.
Qed.

(** The characters [quote_plus] can write. *)
Lemma quote_plus_spec (s safe q : str) :
  mem 37 safe = false -> mem 43 safe = false -> mem 32 safe = false ->
  quote_plus s safe = Ok q ->
  Forall (fun c => quoted_char safe c \/ c = 43) q
  /\ Forall (fun c => is_scalar c = true) s
  /\ unquote_plus q = s.
Proof.
  intros H37 H43 H32. unfold quote_plus, unquote_plus.
  assert (Hno43 : forall sf q0, mem 43 sf = false ->
            Forall (quoted_char sf) q0 -> mem 43 q0 = false).
  { intros sf q0 Hsf Hq0. apply (Forall_not_mem _ _ _ Hq0). intros Hc.
    now apply (quoted_char_not sf 43 Hc). }
  destruct (mem 32 s) eqn:Hsp; cbn [negb].
  - cbn [mbind result_bind].
    destruct (quote s (safe ++ [32])) as [q0|] eqn:Hq; [|discriminate].
    intros [= <-]. destruct (quote_spec _ _ _ Hq) as (Hc & Hs & _ & Hu).
    assert (H43' : mem 43 (safe ++ [32]) = false) by (now rewrite mem_app, H43).
    assert (H37' : mem 37 (safe ++ [32]) = false) by (now rewrite mem_app, H37).
    split; [|split; [exact Hs|]].
    + unfold replace_char. apply Forall_map. eapply Forall_impl; [exact Hc|].
      intros c Hq0. cbv beta. destruct (Z.eqb_spec c 32) as [->|Hne]; [now right|].
      left. destruct Hq0 as [H|H]; [|now right].
      left. rewrite mem_app in H. cbn [mem existsb] in H.
      destruct (Z.eqb_spec c 32); [contradiction|]. now rewrite !orb_false_r in H.
    + rewrite replace_char_back by now apply (Hno43 (safe ++ [32])).
      now apply Hu.
  - intros Hq. destruct (quote_spec _ _ _ Hq) as (Hc & Hs & _ & Hu).
    split; [eapply Forall_impl; [exact Hc | now left]|]. split; [exact Hs|].
    rewrite replace_char_absent by now apply (Hno43 safe). now apply Hu.
Qed.

Lemma quote_plus_unquote_plus_fixed (s safe q : str) :
  mem 37 safe = false -> mem 43 safe = false -> mem 32 safe = false ->
  quote_plus s safe = Ok q -> quote_plus (unquote_plus q) safe = Ok q.
Proof.
  intros H37 H43 H32 Hq.
  destruct (quote_plus_spec _ _ _ H37 H43 H32 Hq) as (_ & _ & ->). exact Hq.
Qed.

Lemma quote_plus_total (s safe : str) :
  Forall (fun c => is_scalar c = true) s -> exists q, quote_plus s safe = Ok q.
Proof.
  intros H. unfold quote_plus. destruct (mem 32 s); cbn [negb].
  - destruct (quote_total s (safe ++ [32]) H) as [q ->]. now eexists.
  - now apply quote_total.
Qed.

Lemma unquote_plus_scalar (s : str) :
  Forall (fun c => is_scalar c = true) s ->
  Forall (fun c => is_scalar c = true) (unquote_plus s).
Proof.
  intros H. unfold unquote_plus. apply unquote_scalar. unfold replace_char.
  apply Forall_map. eapply Forall_impl; [exact H|].
  intros c Hc. cbv beta. now destruct (c =? 43).
Qed.

(** The bytes of an encoding do not depend on the position bookkeeping
    kept for the error. *)
Lemma utf8_encode_from_indep (w w' : str) (s : str) : forall i i' bs,
  utf8_encode_from w i s = Ok bs -> utf8_encode_from w' i' s = Ok bs.
Proof.
  induction s as [|c s IH]; intros i i' bs H; [exact H|].
  cbn [utf8_encode_from] in *. destruct (encode_cp c) as [cb|]; [|discriminate].
  destruct (utf8_encode_from w (S i) s) as [r|] eqn:Hr; [|discriminate].
  now rewrite (IH _ (S i') _ Hr).
Qed.

(** Quoting keeps a leading slash that is declared safe. *)
Lemma quote_cons_slash (x safe q : str) :
  mem 47 safe = true -> quote x safe = Ok q -> quote (47 :: x) safe = Ok (47 :: q).
Proof.
  intros Hs H. unfold quote in *. unfold utf8_encode. cbn [utf8_encode_from].
  change (encode_cp 47) with (Some [47]). cbv iota.
  assert (Hq : quoter safe 47 = [47]).
  { unfold quoter. now rewrite Hs, orb_true_r. }
  destruct x as [|c x'].
  - inversion H. cbn [utf8_encode_from mbind result_bind quote_from_bytes flat_map app].
    now rewrite Hq.
  - unfold utf8_encode in H.
    destruct (utf8_encode_from (c :: x') 0 (c :: x')) as [bs|] eqn:Hb; [|discriminate].
    rewrite (utf8_encode_from_indep _ (47 :: c :: x') _ _ 1%nat _ Hb).
    cbn [mbind result_bind] in *. inversion H.
    unfold quote_from_bytes. cbn [app flat_map]. now rewrite Hq.
Qed.

(** The characters of quoted text, for the three sets of safe characters
    that [normalize_url] uses. *)
Lemma quoted_char_plain (safe : str) (c : Z) :
  mem 9 safe = false -> mem 10 safe = false -> mem 13 safe = false ->
  mem 35 safe = false -> mem 63 safe = false ->
  quoted_char safe c \/ c = 43 -> path_char c = true.
Proof.
  intros H9 H10 H13 H35 H63 [H| ->]; [|reflexivity].
  unfold path_char, is_unsafe.
  destruct (Z.eqb_spec c 9) as [->|_];
    [exfalso; now apply (quoted_char_not safe 9 H)|].
  destruct (Z.eqb_spec c 10) as [->|_];
    [exfalso; now apply (quoted_char_not safe 10 H)|].
  destruct (Z.eqb_spec c 13) as [->|_];
    [exfalso; now apply (quoted_char_not safe 13 H)|].
  destruct (Z.eqb_spec c 63) as [->|_];
    [exfalso; now apply (quoted_char_not safe 63 H)|].
  destruct (Z.eqb_spec c 35) as [->|_];
    [exfalso; now apply (quoted_char_not safe 35 H)|].
  reflexivity.
Qed.

(** * URLs: the stages of [urlsplit] *)

Lemma Forall_forallb {A} (f : A -> bool) (l : list A) :
  forallb f l = true -> Forall (fun c => f c = true) l.
Proof.
  intros H. apply List.Forall_forall. exact (proj1 (forallb_forall _ _) H).
Qed.

Lemma partition_spec (c : Z) (s a b : str) (fd : bool) :
  partition c s = (a, fd, b) ->
  mem c a = false /\ fd = mem c s
  /\ (if fd then s = a ++ c :: b else s = a /\ b = []).
Proof.
  revert a b fd. induction s as [|x s IH]; intros a b fd H; cbn [partition] in H.
  - now inversion H.
  - rewrite mem_cons, (Z.eqb_sym c x). destruct (Z.eqb_spec x c) as [->|Hne].
    + now inversion H.
    + destruct (partition c s) as [[a' fd'] b'] eqn:E. inversion H; subst.
      destruct (IH _ _ _ eq_refl) as (Ha & Hfd & Hs).
      rewrite mem_cons. apply Z.eqb_neq in Hne. rewrite (Z.eqb_sym c x), Hne.
      split; [exact Ha|]. split; [exact Hfd|].
      destruct fd; [now rewrite Hs | destruct Hs as [-> ->]; now split].
Qed.

Lemma partition_at (c : Z) (a b : str) :
  mem c a = false -> partition c (a ++ c :: b) = (a, true, b).
Proof.
  intros H. induction a as [|x a IH]; cbn [partition app].
  - now rewrite Z.eqb_refl.
  - rewrite mem_cons in H. apply orb_false_iff in H as [Hx Ha].
    rewrite Z.eqb_sym, Hx, (IH Ha). reflexivity.
Qed.

Lemma span_until_spec (p : Z -> bool) (s a b : str) :
  span_until p s = (a, b) ->
  s = a ++ b /\ Forall (fun c => p c = false) a
  /\ (b = [] \/ exists c t, b = c :: t /\ p c = true).
Proof.
  revert a b. induction s as [|x s IH]; intros a b H; cbn [span_until] in H.
  - inversion H. split; [reflexivity|]. split; [constructor | now left].
  - destruct (p x) eqn:Hp.
    + inversion H. split; [reflexivity|]. split; [constructor|]. right. now exists x, s.
    + destruct (span_until p s) as [a' b'] eqn:E. inversion H; subst.
      destruct (IH _ _ eq_refl) as (-> & Ha & Hb).
      split; [reflexivity|]. split; [now constructor | exact Hb].
Qed.

Lemma span_until_at (p : Z -> bool) (a b : str) :
  Forall (fun c => p c = false) a ->
  (b = [] \/ exists c t, b = c :: t /\ p c = true) ->
  span_until p (a ++ b) = (a, b).
Proof.
  intros Ha Hb. induction Ha as [|x a Hx Ha IH]; cbn [app span_until].
  - destruct Hb as [->|(c & t & -> & Hc)]; [reflexivity|].
    cbn [span_until]. now rewrite Hc.
  - now rewrite Hx, IH.
Qed.

Lemma Forall_slice_from {A} (P : A -> Prop) (l : list A) (n : Z) :
  Forall P l -> Forall P (slice_from l n).
Proof. intros H. unfold slice_from. now apply Forall_drop. Qed.

Lemma Forall_remove_char (P : Z -> Prop) (c : Z) (s : str) :
  Forall P s -> Forall P (remove_char c s).
Proof.
  intros H. unfold remove_char. apply List.Forall_forall. intros x Hx.
  apply List.filter_In in Hx as [Hx _]. revert x Hx. now apply List.Forall_forall.
Qed.

Lemma mem_remove_char (c : Z) (s : str) : mem c (remove_char c s) = false.
Proof.
  apply mem_false_Forall. unfold remove_char. apply List.Forall_forall.
  intros x Hx. apply List.filter_In in Hx as [_ Hx].
  apply negb_true_iff, Z.eqb_neq in Hx. exact Hx.
Qed.

Lemma Forall_clean_url (P : Z -> Prop) (url : str) :
  Forall P url -> Forall P (clean_url url).
Proof.
  intros H. unfold clean_url, remove_unsafe.
  now apply Forall_remove_char, Forall_remove_char, Forall_remove_char, Forall_lstrip.
Qed.

Lemma remove_unsafe_safe (s : str) :
  Forall (fun c => is_unsafe c = false) (remove_unsafe s).
Proof.
  unfold remove_unsafe, remove_char. apply List.Forall_forall. intros x Hx.
  apply List.filter_In in Hx as [Hx H10]. apply List.filter_In in Hx as [Hx H13].
  apply List.filter_In in Hx as [_ H9]. unfold is_unsafe.
  apply negb_true_iff in H9, H10, H13. now rewrite H9, H10, H13.
Qed.

Lemma remove_unsafe_id (s : str) :
  Forall (fun c => is_unsafe c = false) s -> remove_unsafe s = s.
Proof.
  intros H. unfold remove_unsafe, remove_char.
  induction H as [|x s Hx Hs IH]; [reflexivity|].
  unfold is_unsafe in Hx. apply orb_false_iff in Hx as [Hx H13].
  apply orb_false_iff in Hx as [H9 H10].
  cbn [List.filter]. rewrite H9. cbn [negb List.filter]. rewrite H13.
  cbn [negb List.filter]. rewrite H10. cbn [negb]. now rewrite IH.
Qed.

Lemma Forall_after_scheme (P : Z -> Prop) (u : str) :
  Forall P u -> Forall P (after_scheme u).
Proof.
  intros H. unfold after_scheme. destruct (has_scheme u); [|exact H].
  now apply Forall_slice_from.
Qed.

Lemma splitnetloc_spec (rest n tail : str) :
  has_netloc rest = true -> _splitnetloc rest = (n, tail) ->
  rest = lit "//" ++ n ++ tail
  /\ Forall (fun c => is_delim c = false) n
  /\ (tail = [] \/ exists c t, tail = c :: t /\ is_delim c = true).
Proof.
  unfold has_netloc, _splitnetloc. intros Hn Hs.
  apply str_eqb_eq in Hn.
  destruct rest as [|a [|b r]]; [discriminate | discriminate |].
  rewrite slice_to_nonneg in Hn by lia. cbn in Hn. inversion Hn; subst.
  change (span_until is_delim r = (n, tail)) in Hs.
  destruct (span_until_spec _ _ _ _ Hs) as (-> & Ha & Hb).
  now repeat split.
Qed.

Lemma netloc_of_spec (rest : str) :
  (has_netloc rest = false /\ netloc_of rest = [] /\ after_netloc rest = rest)
  \/ (has_netloc rest = true
      /\ rest = lit "//" ++ netloc_of rest ++ after_netloc rest
      /\ Forall (fun c => is_delim c = false) (netloc_of rest)
      /\ (after_netloc rest = []
          \/ exists c t, after_netloc rest = c :: t /\ is_delim c = true)).
Proof.
  unfold netloc_of, after_netloc. destruct (has_netloc rest) eqn:Hn; [right | now left].
  destruct (_splitnetloc rest) as [n tail] eqn:Hs. cbn [fst snd].
  split; [reflexivity|]. now apply splitnetloc_spec.
Qed.

Lemma Forall_netloc_of (P : Z -> Prop) (rest : str) :
  Forall P rest -> Forall P (netloc_of rest) /\ Forall P (after_netloc rest).
Proof.
  intros H. destruct (netloc_of_spec rest) as [(_ & -> & ->)|(_ & E & _)].
  - now split.
  - rewrite E in H. change (lit "//" ++ ?x) with (47 :: 47 :: x) in H.
    inversion H as [|? ? _ H1]; subst. inversion H1 as [|? ? _ H2]; subst.
    apply Forall_app in H2. exact H2.
Qed.

Lemma body_of_spec (tail : str) :
  mem 35 (body_of tail) = false
  /\ ((mem 35 tail = false /\ body_of tail = tail /\ fragment_of tail = [])
      \/ tail = body_of tail ++ 35 :: fragment_of tail).
Proof.
  unfold body_of, fragment_of. destruct (mem 35 tail) eqn:Hm.
  - destruct (partition 35 tail) as [[a fd] b] eqn:E. cbn [fst snd].
    destruct (partition_spec _ _ _ _ _ E) as (Ha & Hfd & Hs).
    rewrite Hm in Hfd. subst fd. split; [exact Ha | now right].
  - split; [exact Hm | now left].
Qed.

Lemma path_of_spec (tail : str) :
  mem 63 (path_of tail) = false
  /\ ((mem 63 (body_of tail) = false /\ path_of tail = body_of tail /\ query_of tail = [])
      \/ body_of tail = path_of tail ++ 63 :: query_of tail).
Proof.
  unfold path_of, query_of. destruct (mem 63 (body_of tail)) eqn:Hm.
  - destruct (partition 63 (body_of tail)) as [[a fd] b] eqn:E. cbn [fst snd].
    destruct (partition_spec _ _ _ _ _ E) as (Ha & Hfd & Hs).
    rewrite Hm in Hfd. subst fd. split; [exact Ha | now right].
  - split; [exact Hm | now left].
Qed.

Lemma Forall_tail_parts (P : Z -> Prop) (tail : str) :
  Forall P tail ->
  Forall P (path_of tail) /\ Forall P (query_of tail) /\ Forall P (fragment_of tail).
Proof.
  intros H. destruct (body_of_spec tail) as [_ Hb], (path_of_spec tail) as [_ Hp].
  assert (Hbf : Forall P (body_of tail) /\ Forall P (fragment_of tail)).
  { destruct Hb as [(_ & -> & ->)|E]; [now split|].
    rewrite E in H. apply Forall_app in H as [H1 H2]. inversion H2; now subst. }
  destruct Hbf as [Hbd Hf].
  destruct Hp as [(_ & -> & ->)|E]; [now repeat split|].
  rewrite E in Hbd. apply Forall_app in Hbd as [H1 H2]. inversion H2; now subst.
Qed.

Lemma tail_parts_chars (tail : str) :
  mem 63 (path_of tail) = false /\ mem 35 (path_of tail) = false
  /\ mem 35 (query_of tail) = false.
Proof.
  destruct (body_of_spec tail) as [Hb _], (path_of_spec tail) as [Hp Hq].
  split; [exact Hp|].
  destruct Hq as [(_ & -> & ->)|E]; [now split|].
  rewrite E, mem_app, mem_cons in Hb. apply orb_false_iff in Hb as [H1 H2].
  apply orb_false_iff in H2 as [_ H2]. now split.
Qed.

Lemma path_of_rooted (tail : str) :
  (tail = [] \/ exists c t, tail = c :: t /\ is_delim c = true) ->
  path_of tail = [] \/ exists p, path_of tail = 47 :: p.
Proof.
  intros [->|(c & t & -> & Hc)]; [now left|].
  destruct (body_of_spec (c :: t)) as [Hb35 Hb], (path_of_spec (c :: t)) as [Hp63 Hp].
  remember (body_of (c :: t)) as bd eqn:Ebd0. remember (path_of (c :: t)) as pa eqn:Epa0.
  clear Ebd0 Epa0.
  assert (Hc' : c = 47 \/ c = 63 \/ c = 35).
  { change (is_delim c) with ((c =? 47) || ((c =? 63) || ((c =? 35) || false))) in Hc.
    rewrite orb_false_r in Hc.
    apply orb_true_iff in Hc as [Hc|Hc]; [|apply orb_true_iff in Hc as [Hc|Hc]];
      apply Z.eqb_eq in Hc; auto. }
  assert (Hbd : (c = 35 /\ bd = []) \/ exists b', bd = c :: b').
  { destruct Hb as [(_ & E & _)|E]; [right; eexists; exact E|].
    destruct bd as [|x b']; cbn in E; inversion E; subst; [now left | right; now eexists]. }
  destruct Hbd as [[-> Ebd]|(b' & Ebd)].
  - left. destruct Hp as [(_ & E & _)|E]; [now rewrite E|].
    rewrite Ebd in E. destruct pa; discriminate.
  - subst bd. rewrite mem_cons in Hb35. apply orb_false_iff in Hb35 as [N35 _].
    apply Z.eqb_neq in N35.
    destruct Hp as [(Hm & E & _)|E].
    + rewrite mem_cons in Hm. apply orb_false_iff in Hm as [N63 _].
      apply Z.eqb_neq in N63. right. exists b'. rewrite E.
      destruct Hc' as [-> | [-> | ->]]; [reflexivity | contradiction | contradiction].
    + destruct pa as [|x pa']; [now left|]. cbn in E. inversion E; subst x.
      rewrite mem_cons in Hp63. apply orb_false_iff in Hp63 as [N63 _].
      apply Z.eqb_neq in N63. right. exists pa'.
      destruct Hc' as [-> | [-> | ->]]; [reflexivity | contradiction | contradiction].
Qed.

Lemma find_from_app (c : Z) (a b : str) (i : Z) :
  mem c a = false -> find_from c (a ++ c :: b) i = i + Z.of_nat (length a).
Proof.
  revert i. induction a as [|x a IH]; intros i H; cbn [app find_from].
  - rewrite Z.eqb_refl. cbn. lia.
  - rewrite mem_cons in H. apply orb_false_iff in H as [Hx Ha].
    rewrite Z.eqb_sym, Hx, IH by exact Ha. cbn [length]. lia.
Qed.

Lemma find_app (c : Z) (a b : str) :
  mem c a = false -> find c (a ++ c :: b) = Z.of_nat (length a).
Proof. intros H. unfold find. now rewrite find_from_app. Qed.

Lemma slice_from_app_cons {A} (a : list A) (c : A) (b : list A) :
  slice_from (a ++ c :: b) (Z.of_nat (length a) + 1) = b.
Proof.
  replace (a ++ c :: b) with ((a ++ [c]) ++ b) by now rewrite <- app_assoc.
  replace (Z.of_nat (length a) + 1) with (Z.of_nat (length (a ++ [c])))
    by (rewrite length_app; cbn; lia).
  apply slice_from_app.
Qed.

Lemma scheme_char_facts (c : Z) :
  scheme_char c = true -> is_ascii c = true /\ c <> 58 /\ is_unsafe c = false
  /\ c0_or_space c = false.
Proof.
  unfold scheme_char, is_lower, is_upper, is_digit, is_ascii, is_unsafe, c0_or_space.
  change (mem c (lit "+-.")) with ((c =? 43) || ((c =? 45) || ((c =? 46) || false))).
  intros H. repeat split; lia.
Qed.

(** The shape of a URL that carries a scheme. *)
Lemma has_scheme_inv (u : str) :
  has_scheme u = true ->
  exists c s0 rest,
    u = (c :: s0) ++ 58 :: rest /\ slice_to u (find 58 u) = c :: s0
    /\ after_scheme u = rest /\ is_alpha_ascii c = true
    /\ forallb scheme_char (c :: s0) = true.
Proof.
  intros H. unfold after_scheme. rewrite H. unfold has_scheme in H.
  destruct u as [|c u']; [discriminate|].
  apply andb_true_iff in H as [H Hall]. apply andb_true_iff in H as [H Halpha].
  apply andb_true_iff in H as [Hpos _]. apply Z.ltb_lt in Hpos.
  destruct (find_spec 58 (c :: u')) as [[Hf _]|(a & b & Hs & Hf & Hm)]; [lia|].
  rewrite Hf in *. destruct a as [|x a]; [cbn in Hpos; lia|].
  cbn [app] in Hs. injection Hs as -> ->. exists x, a, b.
  change (x :: a ++ 58 :: b) with ((x :: a) ++ 58 :: b) in *.
  rewrite slice_to_app in Hall. rewrite slice_to_app, slice_from_app_cons.
  now repeat split.
Qed.

Lemma has_scheme_intro (c : Z) (s0 rest : str) :
  is_alpha_ascii c = true -> forallb scheme_char (c :: s0) = true ->
  let u := (c :: s0) ++ 58 :: rest in
  has_scheme u = true /\ slice_to u (find 58 u) = c :: s0 /\ after_scheme u = rest.
Proof.
  intros Ha Hall u.
  assert (Hm : mem 58 (c :: s0) = false).
  { apply mem_false_Forall. pose proof (proj1 (forallb_forall _ _) Hall) as Hall'.
    apply List.Forall_forall. intros x Hx. now apply scheme_char_facts, Hall'. }
  assert (Hf : find 58 u = Z.of_nat (length (c :: s0))) by now apply find_app.
  assert (Hs : slice_to u (find 58 u) = c :: s0) by (rewrite Hf; apply slice_to_app).
  assert (Hh : has_scheme u = true).
  { unfold has_scheme. change u with (c :: (s0 ++ 58 :: rest)) at 1. cbv iota.
    rewrite Hs, Hall, Ha, andb_true_r. 
    assert (is_ascii c = true) as ->.
    { cbn [forallb] in Hall. apply andb_true_iff in Hall as [Hc _].
      now apply scheme_char_facts in Hc. }
    rewrite !andb_true_r. apply Z.ltb_lt. rewrite Hf. cbn [length]. lia. }
  split; [exact Hh|]. split; [exact Hs|].
  unfold after_scheme. rewrite Hh, Hf. apply slice_from_app_cons.
Qed.

Lemma str_eqb_nil (x : str) :
  str_eqb x [] = match x with [] => true | _ => false end.
Proof.
  destruct x; [now apply str_eqb_eq | now apply str_eqb_neq].
Qed.

Lemma slice_to_two (x : str) :
  str_eqb (slice_to x 2) (lit "//") = startswith (lit "//") x.
Proof.
  rewrite slice_to_nonneg by lia.
  destruct x as [|a [|b r]].
  - now apply str_eqb_neq.
  - change (startswith (lit "//") [a]) with ((47 =? a) && false).
    rewrite andb_false_r. now apply str_eqb_neq.
  - change (firstn (Z.to_nat 2) (a :: b :: r)) with [a; b].
    change (startswith (lit "//") (a :: b :: r)) with ((47 =? a) && ((47 =? b) && true)).
    rewrite andb_true_r.
    destruct (Z.eqb_spec 47 a) as [<-|Na]; [destruct (Z.eqb_spec 47 b) as [<-|Nb]|].
    + now apply str_eqb_eq.
    + apply str_eqb_neq. intros [= E]. now apply Nb.
    + apply str_eqb_neq. intros [= E]. now apply Na.
Qed.

Lemma slice_to_one (x : str) :
  str_eqb (slice_to x 1) (lit "/") = startswith (lit "/") x.
Proof.
  rewrite slice_to_nonneg by lia. destruct x as [|a r]; [now apply str_eqb_neq|].
  change (firstn (Z.to_nat 1) (a :: r)) with [a].
  change (startswith (lit "/") (a :: r)) with ((47 =? a) && true).
  rewrite andb_true_r. destruct (Z.eqb_spec 47 a) as [<-|Na].
  - now apply str_eqb_eq.
  - apply str_eqb_neq. intros [= E]. now apply Na.
Qed.

(** [slashed url] is empty or starts with a slash. *)
Lemma slashed_spec (url : str) :
  (url = [] /\ slashed url = [])
  \/ (exists r, url = 47 :: r /\ slashed url = url)
  \/ (startswith (lit "/") url = false /\ url <> [] /\ slashed url = 47 :: url).
Proof.
  unfold slashed. rewrite slice_to_one, str_eqb_nil. destruct url as [|a r]; [now left|].
  right. change (startswith (lit "/") (a :: r)) with ((47 =? a) && true).
  rewrite andb_true_r. destruct (Z.eqb_spec 47 a) as [<-|Na].
  - left. now exists r.
  - right. now repeat split.
Qed.

Lemma slashed_idem (url : str) : slashed (slashed url) = slashed url.
Proof.
  destruct (slashed_spec url) as [[-> ->]|[(r & -> & E)|(_ & _ & E)]].
  - reflexivity.
  - now rewrite !E.
  - rewrite E. destruct (slashed_spec (47 :: url)) as [[E' _]|[(r & _ & E')|(E' & _)]];
      [discriminate | exact E' | discriminate].
Qed.

(** The path, query and fragment of a tail put together from them. *)
Lemma tail_parts_build (P Q F : str) :
  Forall (fun c => path_char c = true) P ->
  Forall (fun c => query_char c = true) Q ->
  let tail := (P ++ (if negb (str_eqb Q []) then 63 :: Q else []))
              ++ (if negb (str_eqb F []) then 35 :: F else []) in
  path_of tail = P /\ query_of tail = Q /\ fragment_of tail = F.
Proof.
  intros HP HQ tail.
  assert (HP63 : mem 63 P = false).
  { apply mem_false_Forall. eapply Forall_impl; [exact HP|]. intros c Hc ->. discriminate. }
  assert (HP35 : mem 35 P = false).
  { apply mem_false_Forall. eapply Forall_impl; [exact HP|]. intros c Hc ->. discriminate. }
  assert (HQ35 : mem 35 Q = false).
  { apply mem_false_Forall. eapply Forall_impl; [exact HQ|]. intros c Hc ->. discriminate. }
  set (body := P ++ (if negb (str_eqb Q []) then 63 :: Q else [])) in *.
  assert (Hb35 : mem 35 body = false).
  { unfold body. rewrite mem_app, HP35. destruct (negb _); [|reflexivity].
    now rewrite mem_cons, HQ35. }
  assert (Hbody : body_of tail = body /\ fragment_of tail = F).
  { unfold body_of, fragment_of, tail. rewrite str_eqb_nil. destruct F as [|x F'].
    - cbn [negb]. rewrite app_nil_r, Hb35. now split.
    - cbn [negb]. rewrite mem_app, mem_cons, Z.eqb_refl, orb_true_r.
      rewrite partition_at by exact Hb35. now split. }
  destruct Hbody as [Hbd Hf]. split; [|split; [|exact Hf]].
  - unfold path_of. rewrite Hbd. unfold body. rewrite str_eqb_nil.
    destruct Q as [|x Q'].
    + cbn [negb]. rewrite app_nil_r, HP63. reflexivity.
    + cbn [negb]. rewrite mem_app, mem_cons, Z.eqb_refl, orb_true_r.
      now rewrite partition_at.
  - unfold query_of. rewrite Hbd. unfold body. rewrite str_eqb_nil.
    destruct Q as [|x Q'].
    + cbn [negb]. rewrite app_nil_r, HP63. reflexivity.
    + cbn [negb]. rewrite mem_app, mem_cons, Z.eqb_refl, orb_true_r.
      now rewrite partition_at.
Qed.

Lemma no_netloc_tail (P Q F : str) :
  Forall (fun c => path_char c = true) P -> startswith (lit "//") P = false ->
  startswith (lit "//")
    ((P ++ (if negb (str_eqb Q []) then 63 :: Q else []))
     ++ (if negb (str_eqb F []) then 35 :: F else [])) = false.
Proof.
  intros HP Hsl. rewrite !str_eqb_nil. destruct P as [|x [|y r]].
  - destruct Q as [|y Q'], F as [|z F']; reflexivity.
  - destruct Q as [|y Q'], F as [|z F']; cbn [negb app].
    + exact Hsl.
    + change (startswith (lit "//") (x :: 35 :: z :: F'))
        with ((47 =? x) && false). apply andb_false_r.
    + change (startswith (lit "//") (x :: 63 :: y :: Q'))
        with ((47 =? x) && false). apply andb_false_r.
    + change (startswith (lit "//") (x :: 63 :: y :: Q' ++ 35 :: z :: F'))
        with ((47 =? x) && false). apply andb_false_r.
  - exact Hsl.
Qed.

Lemma slice_index_length {A} (a b : list A) :
  slice_index (Z.of_nat (length (a ++ b))) (Z.of_nat (length a)) = length a.
Proof.
  unfold slice_index. destruct (Z.ltb_spec (Z.of_nat (length a)) 0); [lia|].
  rewrite length_app. rewrite Z.min_l by lia. apply Nat2Z.id.
Qed.

(** [_splitparams] cuts the URL at a semicolon or leaves it whole. *)
Lemma splitparams_spec (url path params : str) :
  mem 59 url = true -> _splitparams url = (path, params) ->
  (url = path /\ params = []) \/ url = path ++ 59 :: params.
Proof.
  intros Hm. unfold _splitparams. destruct (mem 47 url) eqn:H47.
  - destruct (rfind_spec 47 url) as [[_ Hn]|(a & b & Hu & Hr & _)]; [congruence|].
    rewrite Hr. subst url. unfold find_at.
    rewrite slice_from_app, slice_index_length.
    destruct (find_from_spec 59 (47 :: b) (Z.of_nat (length a)))
      as [[Hf _]|(a' & b' & Hb & Hf & _)]; rewrite Hf.
    + cbn. intros [= <- <-]. now left.
    + destruct (Z.ltb_spec (Z.of_nat (length a) + Z.of_nat (length a')) 0); [lia|].
      rewrite Hb.
      replace (Z.of_nat (length a) + Z.of_nat (length a'))
        with (Z.of_nat (length (a ++ a'))) by (rewrite length_app; lia).
      rewrite (app_assoc a a' (59 :: b')).
      rewrite slice_to_app, slice_from_app_cons.
      intros [= <- <-]. now right.
  - destruct (find_spec 59 url) as [[_ Hn]|(a & b & Hu & Hf & _)]; [congruence|].
    rewrite Hf, Hu. rewrite slice_to_app, slice_from_app_cons.
    intros [= <- <-]. now right.
Qed.

Section UrlStages.
Context `{RT : Runtime}.

Lemma urlsplit_stages (url d : str) :
  urlsplit url d =
    let u := clean_url url in
    let rest := after_scheme u in
    let n := netloc_of rest in
    let tail := after_netloc rest in
    _ ← check_brackets n;
    _ ← _checknetloc n;
    Ok (scheme_of u d, n, path_of tail, query_of tail, fragment_of tail).
Proof.
  unfold urlsplit. fold (clean_url url). cbv zeta.
  set (u := clean_url url).
  assert (E : match u with
              | c0 :: _ =>
                  if (0 <? find 58 u) && is_ascii c0 && is_alpha_ascii c0
                     && forallb scheme_char (slice_to u (find 58 u))
                  then (str_lower (slice_to u (find 58 u)), slice_from u (find 58 u + 1))
                  else (remove_unsafe (strip c0_or_space d), u)
              | [] => (remove_unsafe (strip c0_or_space d), u)
              end = (scheme_of u d, after_scheme u)).
  { unfold scheme_of, after_scheme, has_scheme. destruct u as [|c0 u']; [reflexivity|].
    now destruct (_ && _). }
  rewrite E. clear E. set (rest := after_scheme u).
  unfold netloc_of, after_netloc, has_netloc, check_brackets.
  destruct (str_eqb (slice_to rest 2) (lit "//")) eqn:Hn.
  - destruct (_splitnetloc rest) as [n tail] eqn:Hs. cbn [fst snd].
    destruct (_ || _); [reflexivity|].
    destruct (mem 91 n && mem 93 n).
    + destruct (_check_bracketed_netloc n) as [[]|e]; [|reflexivity].
      cbn [mbind result_bind]. unfold path_of, query_of, fragment_of, body_of.
      destruct (mem 35 tail).
      * destruct (partition 35 tail) as [[a fd] b]. cbn [fst snd].
        destruct (mem 63 a); [destruct (partition 63 a) as [[a' fd'] b']|]; reflexivity.
      * destruct (mem 63 tail); [destruct (partition 63 tail) as [[a' fd'] b']|]; reflexivity.
    + cbn [mbind result_bind]. unfold path_of, query_of, fragment_of, body_of.
      destruct (mem 35 tail).
      * destruct (partition 35 tail) as [[a fd] b]. cbn [fst snd].
        destruct (mem 63 a); [destruct (partition 63 a) as [[a' fd'] b']|]; reflexivity.
      * destruct (mem 63 tail); [destruct (partition 63 tail) as [[a' fd'] b']|]; reflexivity.
  - cbn [mbind result_bind mem existsb andb orb]. unfold path_of, query_of, fragment_of, body_of.
    destruct (mem 35 rest).
    + destruct (partition 35 rest) as [[a fd] b]. cbn [fst snd].
      destruct (mem 63 a); [destruct (partition 63 a) as [[a' fd'] b']|]; reflexivity.
    + destruct (mem 63 rest); [destruct (partition 63 rest) as [[a' fd'] b']|]; reflexivity.
Qed.

Lemma urlsplit_parts (url d s n p q f : str) :
  urlsplit url d = Ok (s, n, p, q, f) ->
  s = scheme_of (clean_url url) d
  /\ check_brackets n = Ok tt /\ _checknetloc n = Ok tt
  /\ Forall (fun c => netloc_char c = true) n
  /\ Forall (fun c => path_char c = true) p
  /\ Forall (fun c => query_char c = true) q
  /\ Forall (fun c => fragment_char c = true) f
  /\ (n <> [] -> p = [] \/ exists p', p = 47 :: p')
  /\ (forall P : Z -> Prop, Forall P url ->
        Forall P n /\ Forall P p /\ Forall P q /\ Forall P f).
Proof.
  rewrite urlsplit_stages. cbv zeta.
  set (u := clean_url url). set (rest := after_scheme u).
  destruct (check_brackets (netloc_of rest)) as [[]|e] eqn:Hb; [|discriminate].
  cbn [mbind result_bind].
  destruct (_checknetloc (netloc_of rest)) as [[]|e] eqn:Hc; [|discriminate].
  cbn [mbind result_bind]. intros [= <- <- <- <- <-].
  assert (Hall : forall P : Z -> Prop, Forall P url ->
            Forall P (netloc_of rest) /\ Forall P (path_of (after_netloc rest))
            /\ Forall P (query_of (after_netloc rest))
            /\ Forall P (fragment_of (after_netloc rest))).
  { intros P HP. apply Forall_clean_url in HP. fold u in HP.
    apply Forall_after_scheme in HP. fold rest in HP.
    apply Forall_netloc_of in HP as [Hn Ht]. split; [exact Hn|].
    now apply Forall_tail_parts. }
  assert (Hsafe : Forall (fun c => is_unsafe c = false) rest).
  { apply Forall_after_scheme. apply remove_unsafe_safe. }
  apply Forall_netloc_of in Hsafe as [Hsn Hst].
  apply Forall_tail_parts in Hst as (Hsp & Hsq & Hsf).
  destruct (tail_parts_chars (after_netloc rest)) as (Hp63 & Hp35 & Hq35).
  apply mem_false_Forall in Hp63, Hp35, Hq35.
  split; [reflexivity|]. split; [exact Hb|]. split; [exact Hc|].
  split.
  { destruct (netloc_of_spec rest) as [(_ & -> & _)|(_ & _ & Hd & _)]; [constructor|].
    apply List.Forall_forall. intros c Hin. unfold netloc_char.
    rewrite (proj1 (List.Forall_forall _ _) Hsn c Hin).
    now rewrite (proj1 (List.Forall_forall _ _) Hd c Hin). }
  split.
  { apply List.Forall_forall. intros c Hin. unfold path_char.
    rewrite (proj1 (List.Forall_forall _ _) Hsp c Hin).
    pose proof (proj1 (List.Forall_forall _ _) Hp63 c Hin) as H1.
    pose proof (proj1 (List.Forall_forall _ _) Hp35 c Hin) as H2.
    apply Z.eqb_neq in H1, H2. now rewrite H1, H2. }
  split.
  { apply List.Forall_forall. intros c Hin. unfold query_char.
    rewrite (proj1 (List.Forall_forall _ _) Hsq c Hin).
    pose proof (proj1 (List.Forall_forall _ _) Hq35 c Hin) as H2.
    apply Z.eqb_neq in H2. now rewrite H2. }
  split.
  { apply List.Forall_forall. intros c Hin. unfold fragment_char.
    now rewrite (proj1 (List.Forall_forall _ _) Hsf c Hin). }
  split; [|exact Hall].
  intros Hne. destruct (netloc_of_spec rest) as [(_ & E & _)|(_ & _ & _ & Ht)];
    [contradiction|]. now apply path_of_rooted.
Qed.

Lemma urlsplit_default (url d d' s n p q f : str) :
  urlsplit url d = Ok (s, n, p, q, f) ->
  urlsplit url d' = Ok (scheme_of (clean_url url) d', n, p, q, f).
Proof.
  rewrite !urlsplit_stages. cbv zeta.
  destruct (check_brackets _) as [[]|e]; [|discriminate]. cbn [mbind result_bind].
  destruct (_checknetloc _) as [[]|e]; [|discriminate]. cbn [mbind result_bind].
  now intros [= <- <- <- <- <-].
Qed.

Lemma ascii_lower_char_scheme (c : Z) :
  scheme_char c = true ->
  scheme_char (ascii_lower_char c) = true /\ is_upper (ascii_lower_char c) = false
  /\ (is_alpha_ascii c = true -> is_lower (ascii_lower_char c) = true).
Proof.
  unfold scheme_char, ascii_lower_char, is_alpha_ascii, is_lower, is_upper, is_digit.
  change (mem c (lit "+-.")) with ((c =? 43) || ((c =? 45) || ((c =? 46) || false))).
  intros H. destruct ((65 <=? c) && (c <=? 90)) eqn:E.
  - change (mem (c + 32) (lit "+-."))
      with ((c + 32 =? 43) || ((c + 32 =? 45) || ((c + 32 =? 46) || false))).
    repeat split; try intros _; lia.
  - change (mem c (lit "+-.")) with ((c =? 43) || ((c =? 45) || ((c =? 46) || false))).
    repeat split; try intros ?; lia.
Qed.

(** A scheme read off a URL is lowercase. *)
Lemma scheme_of_good (u d : str) :
  has_scheme u = true -> good_scheme (scheme_of u d) = true.
Proof.
  intros H. unfold scheme_of. rewrite H.
  destruct (has_scheme_inv u H) as (c & s0 & rest & _ & -> & _ & Hc & Hall).
  rewrite str_lower_ascii.
  2:{ apply forallb_forall. intros x Hx. apply (proj1 (forallb_forall _ _) Hall) in Hx.
      now apply scheme_char_facts in Hx. }
  cbn [List.map good_scheme]. 
  assert (Hc' : scheme_char c = true)
    by (cbn [forallb] in Hall; now apply andb_true_iff in Hall).
  rewrite (proj2 (proj2 (ascii_lower_char_scheme c Hc')) Hc). cbn [andb].
  apply forallb_forall. intros x Hx.
  change (ascii_lower_char c :: List.map ascii_lower_char s0)
    with (List.map ascii_lower_char (c :: s0)) in Hx.
  apply in_map_iff in Hx as (y & <- & Hy).
  apply (proj1 (forallb_forall _ _) Hall) in Hy.
  destruct (ascii_lower_char_scheme y Hy) as (-> & -> & _). reflexivity.
Qed.

Lemma good_scheme_facts (s : str) :
  good_scheme s = true ->
  exists c s0, s = c :: s0 /\ is_alpha_ascii c = true
    /\ forallb scheme_char s = true /\ str_lower s = s
    /\ Forall (fun x => is_unsafe x = false) s.
Proof.
  unfold good_scheme. destruct s as [|c s0]; [discriminate|]. intros H.
  apply andb_true_iff in H as [Hc Hall]. exists c, s0. split; [reflexivity|].
  split; [unfold is_alpha_ascii; now rewrite Hc, orb_true_r|].
  assert (Hsc : forallb scheme_char (c :: s0) = true).
  { apply forallb_forall. intros x Hx. apply (proj1 (forallb_forall _ _) Hall) in Hx.
    now apply andb_true_iff in Hx. }
  split; [exact Hsc|]. split.
  - rewrite str_lower_ascii.
    2:{ apply forallb_forall. intros x Hx. apply (proj1 (forallb_forall _ _) Hsc) in Hx.
        now apply scheme_char_facts in Hx. }
    rewrite <- (map_id (c :: s0)) at 2. apply map_ext_in. intros x Hx.
    apply (proj1 (forallb_forall _ _) Hall) in Hx.
    apply andb_true_iff in Hx as [_ Hu]. apply negb_true_iff in Hu.
    unfold ascii_lower_char. now rewrite Hu.
  - apply List.Forall_forall. intros x Hx.
    apply (proj1 (forallb_forall _ _) Hsc) in Hx.
    now apply scheme_char_facts in Hx.
Qed.

Lemma urlunsplit_shape (s n P Q F : str) :
  s <> [] -> (n = [] -> startswith (lit "//") P = false) ->
  urlunsplit s n P Q F =
    s ++ 58 :: (((if negb (str_eqb n []) || in_list s uses_netloc
                  then 47 :: 47 :: n ++ slashed P else P)
                 ++ (if negb (str_eqb Q []) then 63 :: Q else []))
                ++ (if negb (str_eqb F []) then 35 :: F else [])).
Proof.
  intros Hs HP. unfold urlunsplit. cbv zeta. fold (slashed P).
  rewrite slice_to_two, (str_eqb_nil s).
  destruct s as [|c s0]; [contradiction|]. cbn [negb andb].
  assert (E : negb (str_eqb n []) || in_list (c :: s0) uses_netloc
                              && negb (startswith (lit "//") P)
              = negb (str_eqb n []) || in_list (c :: s0) uses_netloc).
  { rewrite str_eqb_nil. destruct n; [|reflexivity]. rewrite HP by reflexivity.
    cbn [negb orb]. now rewrite andb_true_r. }
  rewrite E. clear E.
  change (lit ":") with [58]. change (lit "?") with [63]. change (lit "#") with [35].
  change (lit "//" ++ n ++ slashed P) with (47 :: 47 :: n ++ slashed P).
  destruct (negb (str_eqb Q [])), (negb (str_eqb F []));
    cbn [app]; rewrite <- ?app_assoc; cbn [app]; rewrite ?app_nil_r;
    rewrite <- ?app_assoc; reflexivity.
Qed.

(** Splitting what [urlunsplit] put together gives the parts back, the
    path with the slash that [urlunsplit] added. *)
Lemma urlsplit_urlunsplit (s n P Q F d : str) :
  good_scheme s = true ->
  check_brackets n = Ok tt -> _checknetloc n = Ok tt ->
  Forall (fun c => netloc_char c = true) n ->
  Forall (fun c => path_char c = true) P ->
  Forall (fun c => query_char c = true) Q ->
  Forall (fun c => fragment_char c = true) F ->
  (n = [] -> startswith (lit "//") P = false) ->
  let P' := if negb (str_eqb n []) || in_list s uses_netloc then slashed P else P in
  urlsplit (urlunsplit s n P Q F) d = Ok (s, n, P', Q, F)
  /\ urlunsplit s n P' Q F = urlunsplit s n P Q F
  /\ Forall (fun c => path_char c = true) P'.
Proof.
  intros Hs Hbr Hck Hn HP HQ HF Hsl P'.
  destruct (good_scheme_facts s Hs) as (c & s0 & Es & Hc & Hall & Hlow & Hsafe).
  assert (Hne : s <> []) by (rewrite Es; discriminate).
  assert (HP' : Forall (fun c => path_char c = true) P').
  { unfold P'. destruct (_ || _); [|exact HP].
    destruct (slashed_spec P) as [[_ ->]|[(r & _ & ->)|(_ & _ & ->)]];
      [constructor | exact HP | now constructor]. }
  assert (Hsl' : n = [] -> startswith (lit "//") P' = false).
  { intros En. unfold P'. destruct (_ || _); [|now apply Hsl].
    destruct (slashed_spec P) as [[_ ->]|[(r & _ & ->)|(Hr & _ & ->)]];
      [reflexivity | now apply Hsl |].
    destruct P as [|x r]; [reflexivity|].
    change (startswith (lit "/") (x :: r)) with ((47 =? x) && true) in Hr.
    change (startswith (lit "//") (47 :: x :: r)) with (true && ((47 =? x) && true)).
    now rewrite Hr. }
  assert (Hun : urlunsplit s n P' Q F = urlunsplit s n P Q F).
  { rewrite !urlunsplit_shape by assumption. unfold P'.
    destruct (negb (str_eqb n []) || in_list s uses_netloc); [|reflexivity].
    now rewrite slashed_idem. }
  split; [|split; [exact Hun | exact HP']].
  rewrite <- Hun. rewrite urlunsplit_shape by assumption.
  set (tail := (P' ++ (if negb (str_eqb Q []) then 63 :: Q else []))
               ++ (if negb (str_eqb F []) then 35 :: F else [])).
  destruct (tail_parts_build P' Q F HP' HQ) as (Hpath & Hquery & Hfrag).
  fold tail in Hpath, Hquery, Hfrag.
  assert (Htsafe : Forall (fun x => is_unsafe x = false) tail).
  { unfold tail. repeat apply Forall_app_2.
    - eapply Forall_impl; [exact HP'|]. intros x Hx. unfold path_char in Hx.
      now destruct (is_unsafe x).
    - destruct (negb (str_eqb Q [])); [|constructor]. constructor; [reflexivity|].
      eapply Forall_impl; [exact HQ|]. intros x Hx. unfold query_char in Hx.
      now destruct (is_unsafe x).
    - destruct (negb (str_eqb F [])); [|constructor]. constructor; [reflexivity|].
      eapply Forall_impl; [exact HF|]. intros x Hx. unfold fragment_char in Hx.
      now destruct (is_unsafe x). }
  assert (Hrest : exists rest,
            ((if negb (str_eqb n []) || in_list s uses_netloc
              then 47 :: 47 :: n ++ slashed P' else P')
             ++ (if negb (str_eqb Q []) then 63 :: Q else []))
            ++ (if negb (str_eqb F []) then 35 :: F else []) = rest
            /\ netloc_of rest = n /\ after_netloc rest = tail
            /\ Forall (fun x => is_unsafe x = false) rest).
  { destruct (negb (str_eqb n []) || in_list s uses_netloc) eqn:Ec.
    - exists (47 :: 47 :: n ++ tail).
      assert (Hid : slashed P' = P') by (unfold P'; apply slashed_idem).
      rewrite Hid. split; [unfold tail; cbn [app]; now rewrite <- !app_assoc|].
      assert (Ht : tail = [] \/ exists x t, tail = x :: t /\ is_delim x = true).
      { unfold tail, P'. cbv iota. rewrite !str_eqb_nil.
        destruct (slashed_spec P) as [[_ ->]|[(r & EP & ->)|(_ & _ & ->)]].
        - destruct Q as [|y Q']; cbn [negb app].
          + destruct F as [|z F']; [now left|]. right. now eexists 35, _.
          + right. now eexists 63, _.
        - rewrite EP. right. now eexists 47, _.
        - right. now eexists 47, _. }
      assert (Hnd : Forall (fun x => is_delim x = false) n).
      { eapply Forall_impl; [exact Hn|]. intros x Hx. unfold netloc_char in Hx.
        apply andb_true_iff in Hx as [_ Hx]. now apply negb_true_iff in Hx. }
      unfold netloc_of, after_netloc.
      assert (Hh : has_netloc (47 :: 47 :: n ++ tail) = true).
      { unfold has_netloc. now rewrite slice_to_two. }
      rewrite Hh. unfold _splitnetloc.
      change (skipn 2 (47 :: 47 :: n ++ tail)) with (n ++ tail).
      rewrite (span_until_at _ _ _ Hnd Ht). split; [reflexivity|]. split; [reflexivity|].
      constructor; [reflexivity|]. constructor; [reflexivity|].
      apply Forall_app_2; [|exact Htsafe].
      eapply Forall_impl; [exact Hn|]. intros x Hx. unfold netloc_char in Hx.
      now destruct (is_unsafe x).
    - exists tail. split; [reflexivity|].
      apply orb_false_iff in Ec as [En _]. apply negb_false_iff, str_eqb_eq in En.
      assert (Hh : has_netloc tail = false).
      { unfold has_netloc. rewrite slice_to_two. apply no_netloc_tail; auto. }
      unfold netloc_of, after_netloc. rewrite Hh. now subst n. }
  destruct Hrest as (rest & -> & Hnl & Han & Hrsafe).
  rewrite urlsplit_stages. cbv zeta.
  assert (Hclean : clean_url (s ++ 58 :: rest) = s ++ 58 :: rest).
  { unfold clean_url. rewrite Es. cbn [app lstrip].
    assert (c0_or_space c = false) as ->.
    { rewrite Es in Hall. cbn [forallb] in Hall. apply andb_true_iff in Hall as [Hc0 _].
      now apply scheme_char_facts in Hc0. }
    change (c :: s0 ++ 58 :: rest) with ((c :: s0) ++ 58 :: rest).
    rewrite <- Es. apply remove_unsafe_id.
    apply Forall_app_2; [exact Hsafe|]. now constructor. }
  rewrite Hclean.
  destruct (has_scheme_intro c s0 rest Hc) as (Hh & Hsc & Har);
    [rewrite <- Es; exact Hall|]. rewrite <- Es in Hh, Hsc, Har.
  unfold scheme_of. rewrite Hh, Hsc, Har, Hnl, Han, Hbr, Hck, Hlow.
  cbn [mbind result_bind]. now rewrite Hpath, Hquery, Hfrag.
Qed.

(** [urlparse] is [urlsplit] with the path cut at its parameters. *)
Lemma urlparse_inv (u d s n path params q f : str) :
  urlparse u d = Ok (s, n, path, params, q, f) ->
  exists url,
    urlsplit u d = Ok (s, n, url, q, f)
    /\ ((url = path /\ params = []) \/ url = path ++ 59 :: params).
Proof.
  unfold urlparse.
  destruct (urlsplit u d) as [[[[[s' n'] url] q'] f']|e]; [|discriminate].
  cbn [mbind result_bind].
  destruct (in_list s' uses_params && mem 59 url) eqn:E.
  - apply andb_true_iff in E as [_ Hm].
    destruct (_splitparams url) as [pa pr] eqn:Hsp. intros [= <- <- <- <- <- <-].
    exists url. split; [reflexivity|]. now apply splitparams_spec.
  - intros [= <- <- <- <- <- <-]. exists url. split; [reflexivity | now left].
Qed.

Lemma urlparse_total (u d s n url q f : str) :
  urlsplit u d = Ok (s, n, url, q, f) ->
  exists path params, urlparse u d = Ok (s, n, path, params, q, f).
Proof.
  intros H. unfold urlparse. rewrite H. cbn [mbind result_bind].
  destruct (in_list s uses_params && mem 59 url).
  - destruct (_splitparams url) as [pa pr]. now exists pa, pr.
  - now exists url, [].
Qed.

Lemma urlparse_raises (u d : str) (e : exn) :
  urlsplit u d = Raise e -> urlparse u d = Raise e.
Proof. intros H. unfold urlparse. now rewrite H. Qed.

(** [urlunparse] undoes the cut of [urlparse] unless the parameters are
    empty. *)
Lemma urlunparse_inv (s n url path params q f : str) :
  (url = path /\ params = []) \/ url = path ++ 59 :: params ->
  (params = [] -> url = path) ->
  urlunparse s n path params q f = urlunsplit s n url q f.
Proof.
  intros H Hp. unfold urlunparse. rewrite str_eqb_nil.
  destruct params as [|x r]; cbn [negb].
  - now rewrite Hp.
  - destruct H as [[_ E] | ->]; [discriminate | reflexivity].
Qed.

End UrlStages.

(** * URLs: [urljoin] against the base of the site *)

Lemma Forall_split (P : Z -> Prop) (c : Z) (s : str) :
  Forall P s -> Forall (Forall P) (split c s).
Proof.
  induction 1 as [|x s Hx Hs IH]; cbn [split].
  - constructor; constructor.
  - destruct (x =? c); [constructor; [constructor | exact IH]|].
    destruct (split c s) as [|w ws]; [repeat constructor; exact Hx|].
    inversion IH; subst. constructor; [now constructor | assumption].
Qed.

Lemma Forall_removelast {A} (P : A -> Prop) (l : list A) :
  Forall P l -> Forall P (removelast l).
Proof.
  induction 1 as [|x l Hx Hl IH]; [constructor|].
  cbn [removelast]. destruct l; [constructor | now constructor].
Qed.

Lemma Forall_last {A} (P : A -> Prop) (l : list A) (d : A) :
  P d -> Forall P l -> P (List.last l d).
Proof.
  intros Hd. induction 1 as [|x l Hx Hl IH]; [exact Hd|].
  cbn [List.last]. destruct l; [exact Hx | exact IH].
Qed.

Lemma Forall_filter_middle (P : Z -> Prop) (l : list str) :
  Forall (Forall P) l -> Forall (Forall P) (filter_middle l).
Proof.
  intros H. unfold filter_middle. destruct l as [|a [|b r]]; [exact H | exact H |].
  inversion H as [|? ? Ha Hr]; subst. constructor; [exact Ha|].
  apply Forall_app_2.
  - apply List.Forall_forall. intros x Hx. apply List.filter_In in Hx as [Hx _].
    revert x Hx. apply List.Forall_forall. now apply Forall_removelast.
  - constructor; [|constructor]. apply Forall_last; [constructor | exact Hr].
Qed.

Lemma Forall_resolve_segments (P : Z -> Prop) (segments acc : list str) :
  Forall (Forall P) segments -> Forall (Forall P) acc ->
  Forall (Forall P) (resolve_segments segments acc).
Proof.
  intros H. revert acc. induction H as [|x l Hx Hl IH]; intros acc Hacc; [exact Hacc|].
  cbn [resolve_segments]. destruct (str_eqb x (lit "..")).
  - apply IH. now apply Forall_removelast.
  - destruct (str_eqb x (lit ".")); [now apply IH|].
    apply IH. apply Forall_app_2; [exact Hacc | now constructor].
Qed.

Lemma Forall_join (P : Z -> Prop) (c : Z) (l : list str) :
  P c -> Forall (Forall P) l -> Forall P (join c l).
Proof.
  intros Hc. induction 1 as [|w l Hw Hl IH]; [constructor|].
  cbn [join]. destruct l; [exact Hw|]. apply Forall_app_2; [exact Hw|].
  now constructor.
Qed.

Lemma Forall_join_root (P : Z -> Prop) (path : str) :
  P 47 -> Forall P path -> Forall P (join_root path) /\ join_root path <> [].
Proof.
  intros H47 H. unfold join_root. cbv zeta.
  set (segments := if str_eqb (slice_to path 1) (lit "/") then split 47 path
                   else filter_middle ([[]] ++ split 47 path)).
  assert (Hseg : Forall (Forall P) segments).
  { unfold segments. destruct (str_eqb _ _); [now apply Forall_split|].
    apply Forall_filter_middle. constructor; [constructor | now apply Forall_split]. }
  set (joined := join 47 _).
  assert (Hj : Forall P joined).
  { unfold joined. apply Forall_join; [exact H47|].
    assert (Hr : Forall (Forall P) (resolve_segments segments []))
      by (apply Forall_resolve_segments; [exact Hseg | constructor]).
    destruct (in_list _ _); [|exact Hr].
    apply Forall_app_2; [exact Hr | repeat constructor]. }
  rewrite str_eqb_nil. destruct joined; [|split; [exact Hj | discriminate]].
  split; [now constructor | discriminate].
Qed.

Section UrlJoin.
Context `{RT : Runtime}.

Lemma urlsplit_base :
  urlsplit BASE_URL [] = Ok (lit "https", lit "animezen.net", [], [], []).
Proof.
  change BASE_URL with (urlunsplit (lit "https") (lit "animezen.net") [] [] []).
  refine (proj1 (urlsplit_urlunsplit (lit "https") (lit "animezen.net") [] [] [] []
                   _ _ _ _ _ _ _ _));
    try reflexivity; try apply List.Forall_nil.
  now apply Forall_forallb.
Qed.

Lemma urlparse_base :
  urlparse BASE_URL [] = Ok (lit "https", lit "animezen.net", [], [], [], []).
Proof. unfold urlparse. rewrite urlsplit_base. reflexivity. Qed.

Lemma urljoin_base (u : str) :
  u <> [] ->
  urljoin BASE_URL u =
    '(s, n, path, params, q, f) ← urlparse u (lit "https");
    if negb (str_eqb s (lit "https")) then Ok u
    else if negb (str_eqb n []) then Ok (urlunparse s n path params q f)
    else if str_eqb path [] && str_eqb params []
    then Ok (urlunparse s (lit "animezen.net") [] [] q f)
    else Ok (urlunparse s (lit "animezen.net") (join_root path) params q f).
Proof.
  intros Hu. unfold urljoin.
  change (match BASE_URL with [] => Ok u | _ :: _ => ?k end) with k.
  destruct u as [|c u']; [contradiction|]. rewrite urlparse_base.
  cbn [mbind result_bind].
  destruct (urlparse (c :: u') (lit "https")) as [[[[[[s n] path] params] q] f]|e];
    [|reflexivity].
  cbn [mbind result_bind].
  destruct (str_eqb s (lit "https")) eqn:E.
  - apply str_eqb_eq in E. subst s.
    change (in_list (lit "https") uses_relative) with true.
    change (in_list (lit "https") uses_netloc) with true.
    cbn [negb orb andb]. rewrite str_eqb_nil. destruct n as [|x n']; cbn [negb].
    + destruct (str_eqb path [] && str_eqb params []) eqn:E2.
      * rewrite str_eqb_nil. now destruct q.
      * reflexivity.
    + reflexivity.
  - reflexivity.
Qed.

Lemma Forall_slashed (P : Z -> Prop) (url : str) :
  P 47 -> Forall P url -> Forall P (slashed url).
Proof.
  intros H47 H. destruct (slashed_spec url) as [[_ ->]|[(r & _ & ->)|(_ & _ & ->)]];
    [constructor | exact H | now constructor].
Qed.

(** What [urlsplit] makes of an [https] URL put together by
    [urlunparse]. *)
Lemma https_unparse_split (n X params q f : str) :
  n <> [] -> check_brackets n = Ok tt -> _checknetloc n = Ok tt ->
  Forall (fun c => netloc_char c = true) n ->
  Forall (fun c => path_char c = true) X ->
  Forall (fun c => path_char c = true) params ->
  Forall (fun c => query_char c = true) q ->
  Forall (fun c => fragment_char c = true) f ->
  exists p,
    urlsplit (urlunparse (lit "https") n X params q f) [] = Ok (lit "https", n, p, q, f)
    /\ (forall P : Z -> Prop, P 47 -> P 59 -> Forall P X -> Forall P params ->
          Forall P p).
Proof.
  intros Hne Hbr Hck Hn HX Hpa Hq Hf. unfold urlunparse.
  set (X' := if negb (str_eqb params []) then X ++ lit ";" ++ params else X).
  assert (HX' : Forall (fun c => path_char c = true) X').
  { unfold X'. destruct (negb _); [|exact HX].
    apply Forall_app_2; [exact HX | now constructor]. }
  destruct (urlsplit_urlunsplit (lit "https") n X' q f [] eq_refl Hbr Hck Hn HX' Hq Hf)
    as (Hsplit & _); [intros E; contradiction|].
  eexists. split; [exact Hsplit|].
  intros P H47 H59 HPX HPp.
  assert (negb (str_eqb n []) = true) as ->
    by (rewrite str_eqb_nil; destruct n; [contradiction | reflexivity]).
  cbn [orb]. apply Forall_slashed; [exact H47|].
  unfold X'. destruct (negb _); [|exact HPX].
  apply Forall_app_2; [exact HPX | now constructor].
Qed.

(** The URL [normalize_url] hands to [urlsplit] is accepted by it; its
    scheme is lowercase, an [https] URL has a network location, and the
    characters of its path, query and fragment come from the input. *)
Lemma urljoin_split (u j : str) :
  urljoin BASE_URL u = Ok j ->
  exists s n p q f,
    urlsplit j [] = Ok (s, n, p, q, f)
    /\ good_scheme s = true
    /\ (s = lit "https" -> n <> [])
    /\ (forall P : Z -> Prop, P 47 -> P 59 -> Forall P u ->
          Forall P p /\ Forall P q /\ Forall P f).
Proof.
  destruct (decide (u = [])) as [->|Hu].
  - intros [= <-]. exists (lit "https"), (lit "animezen.net"), [], [], [].
    split; [apply urlsplit_base|]. split; [reflexivity|]. split; [discriminate|].
    intros P _ _ _. repeat split; constructor.
  - rewrite (urljoin_base u Hu).
    destruct (urlparse u (lit "https")) as [[[[[[s n] path] params] q] f]|e] eqn:Hp;
      [|discriminate].
    cbn [mbind result_bind].
    destruct (urlparse_inv _ _ _ _ _ _ _ _ Hp) as (url & Hsp & Hurl).
    destruct (urlsplit_parts _ _ _ _ _ _ _ Hsp)
      as (Hs & Hbr & Hck & Hn & Hpc & Hqc & Hfc & _ & Hall).
    assert (Hsub : forall P : Z -> Prop, Forall P url -> Forall P path /\ Forall P params).
    { intros P HP. destruct Hurl as [[-> ->]| ->]; [split; [exact HP | constructor]|].
      apply Forall_app in HP as [H1 H2]. inversion H2; now subst. }
    destruct (Hsub _ Hpc) as [Hpathc Hparamc].
    destruct (str_eqb s (lit "https")) eqn:Es; cbn [negb].
    + apply str_eqb_eq in Es. subst s. rewrite Es.
      assert (Hlift : forall n' X, n' <> [] -> check_brackets n' = Ok tt ->
                _checknetloc n' = Ok tt -> Forall (fun c => netloc_char c = true) n' ->
                Forall (fun c => path_char c = true) X ->
                (forall P : Z -> Prop, P 47 -> Forall P path -> Forall P X) ->
                exists s0 n0 p0 q0 f0,
                  urlsplit (urlunparse (lit "https") n' X params q f) []
                  = Ok (s0, n0, p0, q0, f0)
                  /\ good_scheme s0 = true
                  /\ (s0 = lit "https" -> n0 <> [])
                  /\ (forall P : Z -> Prop, P 47 -> P 59 -> Forall P u ->
                        Forall P p0 /\ Forall P q0 /\ Forall P f0)).
      { intros n' X Hne' Hbr' Hck' Hn' HX HXP.
        destruct (https_unparse_split n' X params q f Hne' Hbr' Hck' Hn' HX Hparamc Hqc Hfc)
          as (p & Hsplit & HP).
        exists (lit "https"), n', p, q, f. split; [exact Hsplit|].
        split; [reflexivity|]. split; [intros _; exact Hne'|].
        intros P H47 H59 Hu'. destruct (Hall P Hu') as (_ & Hp' & Hq' & Hf').
        destruct (Hsub P Hp') as [Hpath' Hparams'].
        split; [|now split]. apply HP; auto. }
      rewrite str_eqb_nil. destruct n as [|x n'] eqn:En; cbn [negb].
      * destruct (str_eqb path [] && str_eqb params []) eqn:E2.
        -- intros [= <-]. apply andb_true_iff in E2 as [E2 E3].
           apply str_eqb_eq in E3. subst params.
           apply (Hlift (lit "animezen.net") []); try reflexivity; try discriminate.
           ++ now apply Forall_forallb.
           ++ constructor.
           ++ intros; constructor.
        -- intros [= <-].
           apply (Hlift (lit "animezen.net") (join_root path));
             try reflexivity; try discriminate.
           ++ now apply Forall_forallb.
           ++ now apply Forall_join_root.
           ++ intros P H47 HP. now apply Forall_join_root.
      * intros [= <-]. rewrite <- En in *.
        apply (Hlift n path); auto. rewrite En. discriminate.
    + intros [= <-]. apply str_eqb_neq in Es.
      assert (Hh : has_scheme (clean_url u) = true).
      { destruct (has_scheme (clean_url u)) eqn:E; [reflexivity|].
        exfalso. apply Es. rewrite Hs. unfold scheme_of. now rewrite E. }
      exists s, n, url, q, f.
      rewrite (urlsplit_default _ _ [] _ _ _ _ _ Hsp).
      assert (Hs' : scheme_of (clean_url u) [] = s)
        by (rewrite Hs; unfold scheme_of; now rewrite Hh).
      rewrite Hs'. split; [reflexivity|].
      split; [rewrite <- Hs'; now apply scheme_of_good|].
      split; [intros E; contradiction|].
      intros P _ _ HP. now apply Hall.
Qed.

(** [urljoin] against the base returns when [urlsplit] accepts the URL. *)
Lemma urljoin_total (u d s n p q f : str) :
  urlsplit u d = Ok (s, n, p, q, f) -> exists j, urljoin BASE_URL u = Ok j.
Proof.
  intros H. destruct (decide (u = [])) as [->|Hu]; [now eexists|].
  rewrite (urljoin_base u Hu).
  pose proof (urlsplit_default _ _ (lit "https") _ _ _ _ _ H) as H'.
  destruct (urlparse_total _ _ _ _ _ _ _ H') as (path & params & ->).
  cbn [mbind result_bind].
  destruct (negb _); [now eexists|]. destruct (negb _); [now eexists|].
  destruct (_ && _); now eexists.
Qed.

Lemma urljoin_raises (u : str) (e : exn) :
  urljoin BASE_URL u = Raise e -> urlsplit u (lit "https") = Raise e.
Proof.
  destruct (decide (u = [])) as [->|Hu]; [discriminate|].
  rewrite (urljoin_base u Hu).
  destruct (urlparse u (lit "https")) as [[[[[[s n] path] params] q] f]|e'] eqn:Hp;
    cbn [mbind result_bind].
  - destruct (negb _); [discriminate|]. destruct (negb _); [discriminate|].
    destruct (_ && _); discriminate.
  - intros [= ->]. unfold urlparse in Hp.
    destruct (urlsplit u (lit "https")) as [[[[[s n] url] q] f]|e'']; cbn [mbind result_bind] in Hp.
    + destruct (_ && _); [destruct (_splitparams url)|]; discriminate.
    + now injection Hp as ->.
Qed.

End UrlJoin.

(** * [normalize_url] *)

Section Normalize.
Context `{RT : Runtime}.

Lemma urlsplit_empty (d : str) : is_ok (urlsplit [] d) = true.
Proof. rewrite urlsplit_stages. reflexivity. Qed.

(** [urlsplit] accepts every ASCII string without square brackets. *)
Lemma urlsplit_ascii_accepts (u d : str) :
  forallb is_ascii u = true -> mem 91 u = false -> mem 93 u = false ->
  is_ok (urlsplit u d) = true.
Proof.
  intros Ha H91 H93. rewrite urlsplit_stages. cbv zeta.
  set (n := netloc_of (after_scheme (clean_url u))).
  assert (Hsub : forall P : Z -> Prop, Forall P u -> Forall P n).
  { intros P HP. unfold n.
    now apply Forall_netloc_of, Forall_after_scheme, Forall_clean_url. }
  assert (Hn91 : mem 91 n = false).
  { apply mem_false_Forall, Hsub. now apply mem_false_Forall. }
  assert (Hn93 : mem 93 n = false).
  { apply mem_false_Forall, Hsub. now apply mem_false_Forall. }
  assert (Hna : forallb is_ascii n = true).
  { apply forallb_forall. apply List.Forall_forall. apply Hsub. now apply Forall_forallb. }
  unfold check_brackets, _checknetloc. rewrite Hn91, Hn93, Hna. reflexivity.
Qed.

Lemma urljoin_ok_split (u j d : str) :
  urljoin BASE_URL u = Ok j -> is_ok (urlsplit u d) = true.
Proof.
  intros Hj. destruct (decide (u = [])) as [->|Hu]; [apply urlsplit_empty|].
  destruct (urlsplit u (lit "https")) as [[[[[s n] url] q] f]|e] eqn:Hs.
  - now rewrite (urlsplit_default _ _ d _ _ _ _ _ Hs).
  - apply urlparse_raises in Hs. rewrite (urljoin_base u Hu), Hs in Hj. discriminate.
Qed.

Lemma is_ascii_scalar (c : Z) : is_ascii c = true -> is_scalar c = true.
Proof. unfold is_ascii, is_scalar. lia. Qed.

(** [normalize_url] returns on every string of scalar values that
    [urlsplit] accepts. *)
Lemma normalize_url_returns (u : str) :
  Forall (fun c => is_scalar c = true) u -> is_ok (urlsplit u []) = true ->
  exists v, normalize_url u = Ok v.
Proof.
  intros Hsc Hok.
  destruct (urlsplit u []) as [[[[[s0 n0] p0] q0] f0]|e] eqn:Hs0; [|discriminate].
  destruct (urljoin_total _ _ _ _ _ _ _ Hs0) as [j Hj].
  destruct (urljoin_split u j Hj) as (s & n & p & q & f & Hsp & _ & _ & Hall).
  destruct (Hall (fun c => is_scalar c = true) eq_refl eq_refl Hsc) as (Hp & Hq & Hf).
  unfold normalize_url. rewrite Hj. cbn [mbind result_bind]. rewrite Hsp.
  cbn [mbind result_bind].
  destruct (quote_total (unquote p) (lit "/()!.,;:@-_") (unquote_scalar p Hp)) as [P ->].
  cbn [mbind result_bind].
  destruct (quote_plus_total (unquote_plus q) (lit "=&") (unquote_plus_scalar q Hq))
    as [Q ->].
  cbn [mbind result_bind].
  destruct (quote_total (unquote f) [] (unquote_scalar f Hf)) as [F ->].
  cbn [mbind result_bind]. now eexists.
Qed.

Lemma urlunsplit_scheme_prefix (s n url q f : str) :
  s <> [] -> exists rest, urlunsplit s n url q f = s ++ 58 :: rest.
Proof.
  intros Hs. unfold urlunsplit. cbv zeta. rewrite (str_eqb_nil s).
  destruct s as [|c s0]; [contradiction|]. cbn [negb andb].
  change (lit ":") with [58]. change (lit "?") with [63]. change (lit "#") with [35].
  generalize (c :: s0). intros a.
  match goal with |- context [a ++ [58] ++ ?b] => generalize b end. intros body.
  destruct (negb (str_eqb q [])), (negb (str_eqb f []));
    eexists; cbn [app]; rewrite <- ?app_assoc; cbn [app]; reflexivity.
Qed.

(** What [normalize_url] returns starts with a scheme and a colon. *)
Lemma normalize_url_absolute (u v : str) :
  normalize_url u = Ok v ->
  exists s rest, good_scheme s = true /\ v = s ++ 58 :: rest.
Proof.
  unfold normalize_url.
  destruct (urljoin BASE_URL u) as [j|e] eqn:Hj; [|discriminate].
  cbn [mbind result_bind].
  destruct (urljoin_split u j Hj) as (s & n & p & q & f & -> & Hgood & _).
  cbn [mbind result_bind].
  destruct (quote (unquote p) _) as [P|e]; [|discriminate]. cbn [mbind result_bind].
  destruct (quote_plus (unquote_plus q) _) as [Q|e]; [|discriminate].
  cbn [mbind result_bind].
  destruct (quote (unquote f) _) as [F|e]; [|discriminate]. cbn [mbind result_bind].
  intros [= <-].
  destruct (urlunsplit_scheme_prefix s n P Q F) as [rest ->].
  - intros ->. discriminate.
  - now exists s, rest.
Qed.

End Normalize.

(** C5, the falsifying input: two slashes and an opening bracket.
    [urlsplit] reads the bracket as the start of an IPv6 host that is never
    closed, and its [ValueError] leaves [normalize_url]. *)
Lemma normalize_url_raises_on_bracket :
  @normalize_url ascii_runtime (lit "//[") = Raise (ValueError (lit "Invalid IPv6 URL")).
Proof. vm_compute. reflexivity. Qed.

(** A lone surrogate in the path makes the quoting raise as well. *)
Lemma normalize_url_raises_on_surrogate :
  @normalize_url ascii_runtime (lit "/midis/" ++ [55296])
  = Raise (UnicodeEncodeError 7 8 (lit "/midis/" ++ [55296])).
Proof. vm_compute. reflexivity. Qed.

(** C5, as amended: [normalize_url] returns a result on every string of
    Unicode scalar values that [urlsplit] accepts, in particular on every
    ASCII string without square brackets; and it returns only on strings
    that [urlsplit] accepts. *)
Theorem normalize_url_total `{RT : Runtime} (u : str) :
  (Forall (fun c => is_scalar c = true) u -> is_ok (urlsplit u []) = true ->
   is_ok (normalize_url u) = true)
  /\ (forallb is_ascii u = true -> mem 91 u = false -> mem 93 u = false ->
      is_ok (normalize_url u) = true)
  /\ (is_ok (normalize_url u) = true -> is_ok (urlsplit u []) = true).
Proof.
  split; [|split].
  - intros Hsc Hok. destruct (normalize_url_returns u Hsc Hok) as [v ->]. reflexivity.
  - intros Ha H91 H93.
    destruct (normalize_url_returns u) as [v ->]; [| |reflexivity].
    + eapply Forall_impl; [apply Forall_forallb, Ha|]. apply is_ascii_scalar.
    + now apply urlsplit_ascii_accepts.
  - unfold normalize_url. destruct (urljoin BASE_URL u) as [j|e] eqn:Hj; [|discriminate].
    intros _. now apply (urljoin_ok_split u j).
Qed.

Lemma normalize_url_total_witness :
  is_ok (@normalize_url ascii_runtime (lit "/midis/Ah! My Goddess - Opening.mid")) = true.
Proof.
  apply (proj1 (proj2 (@normalize_url_total ascii_runtime
                         (lit "/midis/Ah! My Goddess - Opening.mid"))));
    vm_compute; reflexivity.
Defined.

Section Idempotence.
Context `{RT : Runtime}.

Lemma normalize_parts_inv (u s n P Q F : str) :
  normalize_parts u = Ok (s, n, P, Q, F) ->
  exists j p q f,
    urljoin BASE_URL u = Ok j /\ urlsplit j [] = Ok (s, n, p, q, f)
    /\ quote (unquote p) (lit "/()!.,;:@-_") = Ok P
    /\ quote_plus (unquote_plus q) (lit "=&") = Ok Q
    /\ quote (unquote f) [] = Ok F.
Proof.
  unfold normalize_parts.
  destruct (urljoin BASE_URL u) as [j|e] eqn:Hj; [|discriminate].
  cbn [mbind result_bind].
  destruct (urlsplit j []) as [[[[[s' n'] p] q] f]|e] eqn:Hs; [|discriminate].
  cbn [mbind result_bind].
  destruct (quote (unquote p) _) as [P'|e] eqn:HP; [|discriminate].
  cbn [mbind result_bind].
  destruct (quote_plus (unquote_plus q) _) as [Q'|e] eqn:HQ; [|discriminate].
  cbn [mbind result_bind].
  destruct (quote (unquote f) _) as [F'|e] eqn:HF; [|discriminate].
  cbn [mbind result_bind].
  intros [= <- <- <- <- <-]. now exists j, p, q, f.
Qed.

Lemma normalize_url_parts (u s n P Q F : str) :
  normalize_parts u = Ok (s, n, P, Q, F) ->
  normalize_url u = Ok (urlunsplit s n P Q F).
Proof.
  intros H. destruct (normalize_parts_inv _ _ _ _ _ _ H)
    as (j & p & q & f & Hj & Hs & HP & HQ & HF).
  unfold normalize_url. rewrite Hj. cbn [mbind result_bind]. rewrite Hs.
  cbn [mbind result_bind]. rewrite HP. cbn [mbind result_bind]. rewrite HQ.
  cbn [mbind result_bind]. rewrite HF. reflexivity.
Qed.

Lemma last_slashed (P : str) : P <> [] -> List.last (slashed P) 0 = List.last P 0.
Proof.
  intros HP. destruct (slashed_spec P) as [[E _]|[(r & _ & ->)|(_ & _ & ->)]];
    [contradiction | reflexivity |].
  destruct P; [contradiction | reflexivity].
Qed.

(** A URL put together from normalised parts is a fixed point of
    [normalize_url]. *)
Lemma normalize_url_fixed (s n P Q F x : str) :
  good_scheme s = true -> (s = lit "https" -> n <> []) ->
  check_brackets n = Ok tt -> _checknetloc n = Ok tt ->
  Forall (fun c => netloc_char c = true) n ->
  quote x (lit "/()!.,;:@-_") = Ok P ->
  quote_plus (unquote_plus Q) (lit "=&") = Ok Q ->
  quote (unquote F) [] = Ok F ->
  Forall (fun c => query_char c = true) Q ->
  Forall (fun c => fragment_char c = true) F ->
  (s = lit "https" -> List.last P 0 <> 59) ->
  (n = [] -> startswith (lit "//") P = false) ->
  normalize_url (urlunsplit s n P Q F) = Ok (urlunsplit s n P Q F).
Proof.
  intros Hs Hhttps Hbr Hck Hn HP HQ HF HQc HFc Hlast Hsl.
  assert (HPc : Forall (fun c => path_char c = true) P).
  { destruct (quote_spec _ _ _ HP) as (Hc & _). eapply Forall_impl; [exact Hc|].
    intros c Hq. apply (quoted_char_plain (lit "/()!.,;:@-_")); auto. }
  set (v := urlunsplit s n P Q F).
  set (P' := if negb (str_eqb n []) || in_list s uses_netloc then slashed P else P).
  assert (Hsplit : forall d, urlsplit v d = Ok (s, n, P', Q, F)).
  { intros d. now apply urlsplit_urlunsplit. }
  assert (Hv : urlunsplit s n P' Q F = v) by now apply urlsplit_urlunsplit.
  assert (HP' : exists x', quote x' (lit "/()!.,;:@-_") = Ok P').
  { unfold P'. destruct (_ || _); [|now exists x].
    destruct (slashed_spec P) as [[_ ->]|[(r & _ & ->)|(_ & _ & ->)]].
    - now exists [].
    - now exists x.
    - exists (47 :: x). now apply quote_cons_slash. }
  destruct HP' as [x' HP'].
  assert (Hne : v <> []).
  { unfold v. rewrite urlunsplit_shape; [|intros E; rewrite E in Hs; discriminate | exact Hsl].
    destruct s; [discriminate | discriminate]. }
  assert (Hj : urljoin BASE_URL v = Ok v).
  { rewrite (urljoin_base v Hne). unfold urlparse. rewrite Hsplit.
    cbn [mbind result_bind].
    destruct (in_list s uses_params && mem 59 P') eqn:Epar;
      [destruct (_splitparams P') as [path params] eqn:Hsp|];
      cbn [mbind result_bind];
      (destruct (str_eqb s (lit "https")) eqn:Es; cbn [negb]; [|reflexivity]);
      apply str_eqb_eq in Es; specialize (Hhttps Es); specialize (Hlast Es);
      assert (En : negb (str_eqb n []) = true)
        by (rewrite str_eqb_nil; destruct n; [contradiction | reflexivity]);
      assert (EP' : P' = slashed P) by (unfold P'; now rewrite En);
      rewrite En; f_equal; rewrite <- Hv; [|reflexivity].
    apply andb_true_iff in Epar as [_ Hm].
    apply urlunparse_inv; [now apply splitparams_spec|].
    intros ->. destruct (splitparams_spec _ _ _ Hm Hsp) as [[E _]|E]; [exact E|].
    exfalso. apply Hlast.
    assert (HPne : P <> []).
    { intros ->. rewrite EP' in E. destruct path; discriminate. }
    rewrite <- (last_slashed P HPne), <- EP', E. apply last_last. }
  unfold normalize_url. rewrite Hj. cbn [mbind result_bind]. rewrite Hsplit.
  cbn [mbind result_bind].
  rewrite (quote_unquote_fixed x' (lit "/()!.,;:@-_") P' eq_refl HP').
  cbn [mbind result_bind].
  rewrite HQ. cbn [mbind result_bind]. rewrite HF. cbn [mbind result_bind].
  now rewrite Hv.
Qed.

End Idempotence.

(** C4, the falsifying input: an escaped semicolon at the end of the path.
    The first pass writes the semicolon out, since it is declared safe; the
    second pass reads it as the start of empty parameters, which [urljoin]
    drops when it puts the URL together again. *)
Lemma normalize_url_twice_differs :
  @normalize_url ascii_runtime (lit "https://animezen.net/midis/a%3B")
    = Ok (lit "https://animezen.net/midis/a;")
  /\ @normalize_url ascii_runtime (lit "https://animezen.net/midis/a;")
    = Ok (lit "https://animezen.net/midis/a")
  /\ lit "https://animezen.net/midis/a" <> lit "https://animezen.net/midis/a;".
Proof. repeat split; try (vm_compute; reflexivity). discriminate. Qed.

(** Without a network location a normalised path that starts with two
    slashes is read as one on the second pass. *)
Lemma normalize_url_twice_differs_netloc :
  @normalize_url ascii_runtime (lit "http:///%2F//") = Ok (lit "http:////")
  /\ @normalize_url ascii_runtime (lit "http:////") = Ok (lit "http://").
Proof. split; vm_compute; reflexivity. Qed.

(** C4, as amended: let [normalize_url] hand the scheme, the network
    location and the quoted path, query and fragment to [urlunsplit].  When
    the quoted path of an [https] URL does not end with a semicolon, and
    the quoted path does not start with two slashes when the network location
    is empty, the result of [normalize_url] is a fixed point of
    [normalize_url]. *)
Theorem normalize_url_idempotent `{RT : Runtime} (u s n P Q F : str) :
  normalize_parts u = Ok (s, n, P, Q, F) ->
  (s = lit "https" -> List.last P 0 <> 59) ->
  (n = [] -> startswith (lit "//") P = false) ->
  normalize_url u = Ok (urlunsplit s n P Q F)
  /\ normalize_url (urlunsplit s n P Q F) = Ok (urlunsplit s n P Q F).
Proof.
  intros H Hlast Hsl. split; [now apply normalize_url_parts|].
  destruct (normalize_parts_inv _ _ _ _ _ _ H)
    as (j & p & q & f & Hj & Hs & HP & HQ & HF).
  destruct (urljoin_split u j Hj) as (s' & n' & p' & q' & f' & Hs' & Hgood & Hhttps & _).
  rewrite Hs in Hs'. injection Hs' as <- <- <- <- <-.
  destruct (urlsplit_parts _ _ _ _ _ _ _ Hs) as (_ & Hbr & Hck & Hn & _).
  destruct (quote_plus_spec (unquote_plus q) (lit "=&") Q eq_refl eq_refl eq_refl HQ)
    as (HQc & _ & HQu).
  destruct (quote_spec _ _ _ HF) as (HFc & _ & _ & HFu).
  apply (normalize_url_fixed s n P Q F (unquote p)); auto.
  - now rewrite HQu.
  - now rewrite (HFu eq_refl).
  - eapply Forall_impl; [exact HQc|]. intros c Hc.
    apply (quoted_char_plain (lit "=&")) in Hc; try reflexivity.
    unfold path_char in Hc. unfold query_char.
    destruct (negb (is_unsafe c)), (c =? 63), (c =? 35); try discriminate; reflexivity.
  - eapply Forall_impl; [exact HFc|]. intros c Hc.
    assert (Hc' : path_char c = true)
      by (apply (quoted_char_plain []); auto).
    unfold path_char in Hc'. unfold fragment_char.
    now destruct (negb (is_unsafe c)).
Qed.

Lemma normalize_url_idempotent_witness :
  @normalize_url ascii_runtime
    (urlunsplit (lit "https") (lit "animezen.net")
       (lit "/midis/Ah!%20My%20Goddess%20-%20Opening.mid") [] [])
  = Ok (urlunsplit (lit "https") (lit "animezen.net")
          (lit "/midis/Ah!%20My%20Goddess%20-%20Opening.mid") [] []).
Proof.
  apply (@normalize_url_idempotent ascii_runtime
           (lit "/midis/Ah! My Goddess - Opening.mid")).
  - vm_compute. reflexivity.
  - intros _. vm_compute. discriminate.
  - discriminate.
Defined.

(** ** [parse_midis] *)

(** The pattern of the file links: somewhere in the href a dot, the
    letters of [mid] or [midi], and then a question mark, the end of the
    href, or a newline that ends it. *)
Lemma midi_match_spec (s : str) :
  midi_match s = true <->
  exists ext rest,
    s = 46 :: ext ++ rest /\ is_mid_ext ext
    /\ (rest = [] \/ rest = [10] \/ exists tail, rest = 63 :: tail).
Proof.
  assert (Hend : forall r, ext_end r = true <->
            (r = [] \/ r = [10] \/ exists tail, r = 63 :: tail)).
  { intros [|c r]; cbn.
    - split; [now left | reflexivity].
    - rewrite orb_true_iff, andb_true_iff, Z.eqb_eq, Z.eqb_eq, str_eqb_eq. split.
      + intros [->|[-> ->]]; [right; right; now eexists | right; now left].
      + intros [H|[H|(tail & H)]]; [discriminate | right | left]; now inversion H. }
  split.
  - destruct s as [|dot [|m [|i [|d rest]]]]; try discriminate.
    cbn [midi_match]. rewrite !andb_true_iff, orb_true_iff, Z.eqb_eq.
    intros [[[[-> Hm] Hi] Hd] Hrest].
    destruct Hrest as [Hrest|Hrest].
    + exists [m; i; d], rest. split; [reflexivity|].
      split; [exists m, i, d, []; auto 10 | now apply Hend].
    + destruct rest as [|i2 rest']; [discriminate|].
      apply andb_true_iff in Hrest as [Hi2 Hrest].
      exists [m; i; d; i2], rest'. split; [reflexivity|].
      split; [exists m, i, d, [i2]; split; [reflexivity|]; eauto 10 | now apply Hend].
  - intros (ext & rest & -> & (m & i & d & tail & -> & Hm & Hi & Hd & Htail) & Hrest).
    apply Hend in Hrest.
    destruct Htail as [->|(i2 & -> & Hi2)]; cbn [midi_match app].
    + now rewrite Z.eqb_refl, Hm, Hi, Hd, Hrest.
    + rewrite Z.eqb_refl, Hm, Hi, Hd, Hi2, Hrest. cbn. now rewrite orb_true_r.
Qed.

Lemma search_midi_spec (s : str) :
  search_midi s = true <-> exists pre rest, s = pre ++ rest /\ midi_match rest = true.
Proof.
  induction s as [|c s IH].
  - cbn. split; [discriminate|]. intros (pre & rest & H & Hm).
    symmetry in H. apply app_eq_nil in H as [_ ->]. discriminate.
  - cbn [search_midi]. rewrite orb_true_iff, IH. split.
    + intros [H|(pre & rest & -> & H)].
      * now exists [], (c :: s).
      * now exists (c :: pre), rest.
    + intros (pre & rest & H & Hm). destruct pre as [|x pre].
      * cbn in H. subst rest. now left.
      * inversion H; subst. right. now exists pre, rest.
Qed.

Section ParseMidis.
Context `{RT : Runtime}.

Lemma collect_midis_spec (category_name : str) (hrefs : list str) : forall cs,
  collect_midis category_name hrefs = Ok cs ->
  Forall2 (midi_entry_of category_name) (List.filter search_midi hrefs) cs.
Proof.
  induction hrefs as [|href hrefs IH]; intros cs H; cbn [collect_midis] in H.
  - inversion H. constructor.
  - cbn [List.filter]. destruct (search_midi href) eqn:Hs; cbn [negb] in H.
    2:{ now apply IH. }
    cbn [mbind result_bind] in H.
    destruct (normalize_url href) as [url|] eqn:Hu;
      cbn [mbind result_bind] in H; [|discriminate].
    destruct (urlparse url []) as [[[[[[sch nl] path] pa] q] f]|] eqn:Hp;
      cbn [mbind result_bind] in H; [|discriminate].
    destruct (collect_midis category_name hrefs) as [ms|];
      cbn [mbind result_bind] in H; [|discriminate].
    inversion H; subst. constructor; [|now apply IH].
    split; [exact Hs|]. split; [exact Hu|]. split; [reflexivity|].
    now exists sch, nl, path, pa, q, f.
Qed.

End ParseMidis.

Lemma unique_midis_spec (ms : list midi) : forall seen,
  let l := unique_midis seen ms in
  NoDup (List.map midi_url l)
  /\ Forall (fun m => midi_url m ∉ seen) l
  /\ sublist l ms
  /\ (forall m, m ∈ ms -> midi_url m ∈ seen \/ midi_url m ∈ List.map midi_url l)
  /\ (forall m, m ∈ l ->
        exists pre post, ms = pre ++ m :: post /\ midi_url m ∉ List.map midi_url pre).
Proof.
  induction ms as [|m ms IH]; intros seen; cbn [unique_midis].
  - cbn. split; [constructor|]. split; [constructor|]. split; [constructor|].
    split; intros m Hm; inversion Hm.
  - destruct (bool_decide_reflect (midi_url m ∈ seen)) as [Hin|Hnin].
    + destruct (IH seen) as (Hnd & Hfa & Hsub & Hall & Hfirst). cbv zeta.
      split; [exact Hnd|]. split; [exact Hfa|]. split; [now constructor|].
      split.
      * intros m' Hm'. apply elem_of_cons in Hm' as [->|Hm']; [now left | now apply Hall].
      * intros m' Hm'. destruct (Hfirst m' Hm') as (pre & post & -> & Hpre).
        exists (m :: pre), post. split; [reflexivity|].
        cbn [List.map]. rewrite not_elem_of_cons. split; [|exact Hpre].
        rewrite Forall_forall in Hfa. specialize (Hfa m' Hm'). congruence.
    + destruct (IH ({[midi_url m]} ∪ seen)) as (Hnd & Hfa & Hsub & Hall & Hfirst).
      cbv zeta. cbn [List.map].
      assert (Hfresh : midi_url m ∉ List.map midi_url (unique_midis ({[midi_url m]} ∪ seen) ms)).
      { intros Hm. apply list_elem_of_fmap in Hm as (m' & Heq & Hm').
        rewrite Forall_forall in Hfa. apply (Hfa m' Hm'). rewrite <- Heq.
        apply elem_of_union_l. now apply elem_of_singleton. }
      split; [now apply NoDup_cons|].
      split.
      { constructor; [exact Hnin|]. eapply Forall_impl; [exact Hfa|].
        intros m' Hm' Hs. apply Hm'. now apply elem_of_union_r. }
      split; [now constructor|].
      split.
      * intros m' Hm'. apply elem_of_cons in Hm' as [->|Hm'].
        -- right. apply elem_of_cons. now left.
        -- destruct (Hall m' Hm') as [Hs|Hs].
           ++ apply elem_of_union in Hs as [Hs|Hs]; [|now left].
              apply elem_of_singleton in Hs. right. rewrite Hs. apply elem_of_cons. now left.
           ++ right. apply elem_of_cons. now right.
      * intros m' Hm'. apply elem_of_cons in Hm' as [->|Hm'].
        -- exists [], ms. split; [reflexivity|]. cbn. apply not_elem_of_nil.
        -- destruct (Hfirst m' Hm') as (pre & post & -> & Hpre).
           exists (m :: pre), post. split; [reflexivity|].
           cbn [List.map]. rewrite not_elem_of_cons. split; [|exact Hpre].
           rewrite Forall_forall in Hfa. specialize (Hfa m' Hm').
           intros Heq. apply Hfa. rewrite Heq.
           apply elem_of_union_l. now apply elem_of_singleton.
Qed.

(** C9: the entries of [parse_midis] come from the hrefs that match the
    file pattern, in document order; each one carries the normalized URL of
    its href, which starts with a scheme, and the decoded path basename as
    title; no two entries have the
    same URL, every matching href is represented by the entry of the first
    href with its URL, and the entries keep the order of first occurrence. *)
Theorem parse_midis_unique `{RT : Runtime} (category_html category_name : str)
    (l : list midi) :
  parse_midis category_html category_name = Ok l ->
  exists cs,
    Forall2 (midi_entry_of category_name)
      (List.filter search_midi (findall_href category_html)) cs
    /\ (forall href, search_midi href = true <->
          exists pre ext rest,
            href = pre ++ 46 :: ext ++ rest /\ is_mid_ext ext
            /\ (rest = [] \/ rest = [10] \/ exists tail, rest = 63 :: tail))
    /\ Forall (fun m => exists scheme rest,
                  good_scheme scheme = true /\ midi_url m = scheme ++ 58 :: rest) cs
    /\ NoDup (List.map midi_url l)
    /\ sublist l cs
    /\ (forall m, m ∈ cs -> midi_url m ∈ List.map midi_url l)
    /\ (forall m, m ∈ l ->
          exists pre post, cs = pre ++ m :: post /\ midi_url m ∉ List.map midi_url pre).
Proof.
  unfold parse_midis. cbn [mbind result_bind]. intros H.
  destruct (collect_midis category_name (findall_href category_html)) as [cs|] eqn:Hc;
    [|discriminate].
  inversion H; subst. clear H. exists cs.
  split; [now apply collect_midis_spec|].
  split.
  { intros href. rewrite search_midi_spec. split.
    - intros (pre & rest & -> & Hm). apply midi_match_spec in Hm as (ext & r & -> & He & Hr).
      now exists pre, ext, r.
    - intros (pre & ext & rest & -> & He & Hr). exists pre, (46 :: ext ++ rest).
      split; [reflexivity|]. apply midi_match_spec. now exists ext, rest. }
  split.
  { pose proof (collect_midis_spec _ _ _ Hc) as HF. clear Hc.
    induction HF as [|h m hs ms (_ & Hn & _) _ IH]; [constructor|].
    constructor; [now apply (normalize_url_absolute h) | exact IH]. }
  destruct (unique_midis_spec cs ∅) as (Hnd & _ & Hsub & Hall & Hfirst).
  split; [exact Hnd|]. split; [exact Hsub|]. split; [|exact Hfirst].
  intros m Hm. destruct (Hall m Hm) as [Hs|Hs]; [now apply elem_of_empty in Hs | exact Hs].
Qed.

Lemma parse_midis_unique_witness :
  exists l,
    @parse_midis ascii_runtime goddess_html (lit "Ah My Goddess") = Ok l
    /\ length l = 1%nat
    /\ NoDup (List.map midi_url l).
Proof.
  assert (H : @parse_midis ascii_runtime goddess_html (lit "Ah My Goddess")
              = Ok [{| midi_category_name := lit "Ah My Goddess";
                       midi_title := lit "Ah! My Goddess - Opening.mid";
                       midi_url :=
                         lit "https://site/midis/Ah!%20My%20Goddess%20-%20Opening.mid" |}])
    by (vm_compute; reflexivity).
  eexists. split; [exact H|]. split; [reflexivity|].
  destruct (@parse_midis_unique ascii_runtime _ _ _ H) as (cs & _ & _ & _ & Hnd & _).
  exact Hnd.
Defined.

(** * [parse_categories] *)

Lemma str_ltb_irrefl (a : str) : str_ltb a a = false.
Proof.
  induction a as [|x a IH]; [reflexivity|]. cbn [str_ltb].
  now rewrite Z.ltb_irrefl, Z.eqb_refl, IH.
Qed.

Lemma str_ltb_trans (a b c : str) :
  str_ltb a b = true -> str_ltb b c = true -> str_ltb a c = true.
Proof.
  revert b c. induction a as [|x a IH]; intros [|y b] [|z c]; cbn [str_ltb];
    try discriminate; try reflexivity.
  intros H1 H2. apply orb_true_iff in H1, H2. apply orb_true_iff.
  destruct H1 as [H1|H1], H2 as [H2|H2].
  - left. apply Z.ltb_lt in H1, H2. apply Z.ltb_lt. lia.
  - apply andb_true_iff in H2 as [H2 _]. apply Z.eqb_eq in H2. subst. now left.
  - apply andb_true_iff in H1 as [H1 _]. apply Z.eqb_eq in H1. subst. now left.
  - apply andb_true_iff in H1 as [E1 H1], H2 as [E2 H2].
    apply Z.eqb_eq in E1, E2. subst. right. rewrite Z.eqb_refl. now apply (IH b c).
Qed.

Lemma str_ltb_total (a b : str) :
  str_ltb a b = false -> a <> b -> str_ltb b a = true.
Proof.
  revert b. induction a as [|x a IH]; intros [|y b]; cbn [str_ltb];
    try discriminate; try reflexivity; try congruence.
  intros H Hne. apply orb_false_iff in H as [H1 H2]. apply Z.ltb_ge in H1.
  apply orb_true_iff. destruct (Z.eqb_spec x y) as [->|Hxy].
  - right. rewrite Z.eqb_refl. apply IH; [exact H2 | congruence].
  - left. apply Z.ltb_lt. lia.
Qed.

Lemma insert_sorted_In (x z : str) (l : list str) :
  In z (insert_sorted x l) <-> z = x \/ In z l.
Proof.
  induction l as [|y l IH]; cbn [insert_sorted].
  - cbn. intuition.
  - destruct (str_ltb y x); cbn [In]; [rewrite IH|]; intuition.
Qed.

Lemma insert_sorted_head (x : str) (l : list str) :
  exists h t, insert_sorted x l = h :: t
    /\ (h = x \/ exists t', l = h :: t' /\ str_ltb h x = true).
Proof.
  destruct l as [|y l]; cbn [insert_sorted]; [exists x, []; now split; [|left]|].
  destruct (str_ltb y x) eqn:E.
  - exists y, (insert_sorted x l). split; [reflexivity|]. right. now exists l.
  - exists x, (y :: l). split; [reflexivity | now left].
Qed.

Lemma insert_sorted_increasing (x : str) (l : list str) :
  increasing l = true -> ~ In x l -> increasing (insert_sorted x l) = true.
Proof.
  induction l as [|y l IH]; intros Hl Hx; [reflexivity|].
  cbn [insert_sorted]. destruct (str_ltb y x) eqn:E.
  - assert (Hl' : increasing l = true).
    { destruct l as [|y' l']; [reflexivity|].
      change (increasing (y :: y' :: l')) with (str_ltb y y' && increasing (y' :: l')) in Hl.
      now apply andb_true_iff in Hl. }
    specialize (IH Hl' (fun H => Hx (or_intror H))).
    destruct (insert_sorted_head x l) as (h & t & Eq & Hh). rewrite Eq in *.
    change (increasing (y :: h :: t)) with (str_ltb y h && increasing (h :: t)).
    rewrite IH, andb_true_r.
    destruct Hh as [->|(t' & -> & _)]; [exact E|].
    change (increasing (y :: h :: t')) with (str_ltb y h && increasing (h :: t')) in Hl.
    now apply andb_true_iff in Hl.
  - change (increasing (x :: y :: l)) with (str_ltb x y && increasing (y :: l)).
    apply andb_true_iff. split; [|exact Hl].
    apply str_ltb_total; [exact E|]. intros ->. apply Hx. now left.
Qed.

Lemma sorted_In (z : str) (l : list str) : In z (sorted l) <-> In z l.
Proof.
  unfold sorted. induction l as [|x l IH]; [reflexivity|].
  cbn [foldr]. rewrite insert_sorted_In, IH. cbn. intuition.
Qed.

Lemma sorted_increasing (l : list str) : List.NoDup l -> increasing (sorted l) = true.
Proof.
  unfold sorted. induction 1 as [|x l Hx Hl IH]; [reflexivity|].
  cbn [foldr]. apply insert_sorted_increasing; [exact IH|].
  intros H. apply Hx. now apply (sorted_In x l).
Qed.

Lemma increasing_Forall (a : str) (l : list str) :
  increasing (a :: l) = true ->
  Forall (fun b => str_ltb a b = true) l /\ increasing l = true.
Proof.
  revert a. induction l as [|b l IH]; intros a H; [now split|].
  change (increasing (a :: b :: l)) with (str_ltb a b && increasing (b :: l)) in H.
  apply andb_true_iff in H as [Hab Hl].
  destruct (IH b Hl) as [Hb Hl']. split; [|exact Hl].
  constructor; [exact Hab|]. eapply Forall_impl; [exact Hb|].
  intros c Hc. now apply (str_ltb_trans a b c).
Qed.

Lemma increasing_cons (a : str) (l : list str) :
  Forall (fun b => str_ltb a b = true) l -> increasing l = true ->
  increasing (a :: l) = true.
Proof.
  intros Ha Hl. destruct l as [|b l]; [reflexivity|].
  change (increasing (a :: b :: l)) with (str_ltb a b && increasing (b :: l)).
  inversion Ha; subst. apply andb_true_iff. now split.
Qed.

Lemma increasing_filter (f : str -> bool) (l : list str) :
  increasing l = true -> increasing (List.filter f l) = true.
Proof.
  induction l as [|a l IH]; intros H; [reflexivity|].
  destruct (increasing_Forall a l H) as [Ha Hl]. cbn [List.filter].
  destruct (f a); [|now apply IH].
  apply increasing_cons; [|now apply IH].
  apply List.Forall_forall. intros x Hx. apply List.filter_In in Hx as [Hx _].
  revert x Hx. now apply List.Forall_forall.
Qed.

Lemma increasing_NoDup (l : list str) : increasing l = true -> List.NoDup l.
Proof.
  induction l as [|a l IH]; intros H; [constructor|].
  destruct (increasing_Forall a l H) as [Ha Hl]. constructor; [|now apply IH].
  intros Hin. apply (proj1 (List.Forall_forall _ _) Ha) in Hin.
  now rewrite str_ltb_irrefl in Hin.
Qed.

Lemma after_first_prefix (sep s : str) :
  startswith sep s = true -> after_first sep s = Some (skipn (length sep) s).
Proof. intros H. destruct s; cbn [after_first]; now rewrite H. Qed.

Lemma has_scheme_slash (t : str) : has_scheme (47 :: t) = false.
Proof.
  unfold has_scheme. change (is_alpha_ascii 47) with false.
  now rewrite andb_false_r.
Qed.

Section Categories.
Context `{RT : Runtime}.

(** [urlsplit] on a reference that starts with one slash: no scheme and
    no network location. *)
Lemma urlsplit_rooted (c : Z) (t d : str) :
  c <> 47 -> is_unsafe c = false ->
  exists p q f,
    urlsplit (47 :: c :: t) d = Ok (remove_unsafe (strip c0_or_space d), [], p, q, f).
Proof.
  intros Hc Hs. rewrite urlsplit_stages. cbv zeta.
  assert (Hclean : clean_url (47 :: c :: t) = 47 :: c :: remove_unsafe t).
  { unfold clean_url. cbn [lstrip]. change (c0_or_space 47) with false. cbv iota.
    unfold is_unsafe in Hs. apply orb_false_iff in Hs as [Hs H13].
    apply orb_false_iff in Hs as [H9 H10].
    unfold remove_unsafe, remove_char. cbn [List.filter].
    change (47 =? 9) with false. cbn [negb List.filter]. rewrite H9.
    cbn [negb List.filter]. change (47 =? 13) with false. cbn [negb List.filter].
    rewrite H13. cbn [negb List.filter]. change (47 =? 10) with false.
    cbn [negb List.filter]. rewrite H10. reflexivity. }
  rewrite Hclean. unfold after_scheme, scheme_of. rewrite has_scheme_slash.
  assert (Hn : has_netloc (47 :: c :: remove_unsafe t) = false).
  { unfold has_netloc. rewrite slice_to_two.
    change (startswith (lit "//") (47 :: c :: remove_unsafe t))
      with (true && ((47 =? c) && true)).
    apply Z.eqb_neq in Hc. rewrite Z.eqb_sym in Hc. now rewrite Hc. }
  unfold netloc_of, after_netloc. rewrite Hn.
  change (check_brackets []) with (Ok tt : result unit).
  change (_checknetloc []) with (Ok tt : result unit).
  cbn [mbind result_bind]. now eexists _, _, _.
Qed.

Lemma urlunsplit_base_prefix (X q f : str) :
  exists tail, urlunsplit (lit "https") (lit "animezen.net") X q f = BASE_URL ++ tail.
Proof.
  rewrite urlunsplit_shape; [|discriminate|discriminate].
  change (negb (str_eqb (lit "animezen.net") []) || in_list (lit "https") uses_netloc)
    with true. cbv iota.
  exists ((slashed X ++ (if negb (str_eqb q []) then 63 :: q else []))
          ++ (if negb (str_eqb f []) then 35 :: f else [])).
  change BASE_URL with (lit "https" ++ 58 :: 47 :: 47 :: lit "animezen.net").
  generalize (lit "https"), (lit "animezen.net"),
    (if negb (str_eqb q []) then 63 :: q else []),
    (if negb (str_eqb f []) then 35 :: f else []).
  intros a b A B. cbn [app]. rewrite <- ?app_assoc. cbn [app].
  rewrite <- ?app_assoc. reflexivity.
Qed.

(** A reference below [/midis/] resolves to a URL of the site. *)
Lemma urljoin_midis (rest : str) :
  exists tail, urljoin BASE_URL (midis_prefix ++ rest) = Ok (BASE_URL ++ tail).
Proof.
  rewrite urljoin_base by discriminate.
  destruct (urlsplit_rooted 109 (lit "idis/" ++ rest) (lit "https"))
    as (p & q & f & Hs); [discriminate | reflexivity |].
  change (47 :: 109 :: lit "idis/" ++ rest) with (midis_prefix ++ rest) in Hs.
  change (remove_unsafe (strip c0_or_space (lit "https"))) with (lit "https") in Hs.
  destruct (urlparse_total _ _ _ _ _ _ _ Hs) as (path & params & ->).
  cbn [mbind result_bind].
  change (negb (str_eqb (lit "https") (lit "https"))) with false.
  change (negb (str_eqb [] [])) with false. cbv iota.
  unfold urlunparse.
  destruct (str_eqb path [] && str_eqb params []).
  - destruct (urlunsplit_base_prefix
                (if negb (str_eqb [] []) then [] ++ lit ";" ++ [] else []) q f)
      as [tail ->]. now exists tail.
  - destruct (urlunsplit_base_prefix
                (if negb (str_eqb params [])
                 then join_root path ++ lit ";" ++ params else join_root path) q f)
      as [tail ->]. now exists tail.
Qed.

Lemma category_of_href_spec (h : str) :
  if is_category_href h
  then exists c, category_of_href h = Ok (Some c) /\ category_entry_of h c
  else category_of_href h = Ok None.
Proof.
  unfold is_category_href, category_of_href.
  destruct (startswith midis_prefix h) eqn:Hp; cbn [negb andb]; [|reflexivity].
  destruct (startswith_inv _ _ Hp) as (rest & ->).
  assert (str_eqb (midis_prefix ++ rest) (lit "/midis") = false) as ->.
  { apply str_eqb_neq. intros E. apply (f_equal (@length Z)) in E.
    rewrite length_app in E. cbn in E. lia. }
  destruct (search_midi (midis_prefix ++ rest)); cbn [negb]; [reflexivity|].
  destruct (urljoin_midis rest) as [tail Hj]. rewrite Hj. cbn [mbind result_bind].
  rewrite after_first_prefix by exact Hp.
  change (skipn (length midis_prefix) (midis_prefix ++ rest)) with rest.
  eexists. split; [reflexivity|]. exists rest, tail. cbn [cat_name cat_url].
  repeat split; try reflexivity. exact Hj.
Qed.

Lemma collect_categories_spec (hrefs : list str) :
  exists cs,
    collect_categories hrefs = Ok cs
    /\ Forall2 category_entry_of (List.filter is_category_href hrefs) cs.
Proof.
  induction hrefs as [|h hrefs (cs & IH & HF)]; [exists []; split; [reflexivity | constructor]|].
  cbn [collect_categories List.filter]. pose proof (category_of_href_spec h) as Hh.
  destruct (is_category_href h).
  - destruct Hh as (c & -> & Hc). cbn [mbind result_bind]. rewrite IH.
    cbn [mbind result_bind]. exists (c :: cs). split; [reflexivity | now constructor].
  - rewrite Hh. cbn [mbind result_bind]. rewrite IH. cbn [mbind result_bind].
    now exists cs.
Qed.

End Categories.

(** C8, the falsifying input: two different hrefs that resolve to the same
    URL are both kept, and the URL keeps its space where [normalize_url]
    would escape it. *)
Lemma parse_categories_keeps_twins :
  @parse_categories ascii_runtime twin_html
    = Ok [ {| cat_name := lit "./a b"; cat_url := lit "https://animezen.net/midis/a b" |};
           {| cat_name := lit "a b"; cat_url := lit "https://animezen.net/midis/a b" |} ]
  /\ @normalize_url ascii_runtime (lit "https://animezen.net/midis/a b")
    = Ok (lit "https://animezen.net/midis/a%20b").
Proof. split; vm_compute; reflexivity. Qed.

(** C8, as amended: [parse_categories] returns on every page.  It keeps the
    distinct hrefs that start with [/midis/] and in which the file pattern
    is not found, in increasing order, and builds for each of them an entry
    with the URL that [urljoin] resolves the href to against the base, a URL
    of the site, and with the name read off the href.  On the page with the
    links [/midis], [/midis/evangelion] and [/midis/boo.mid] the result is
    the one entry for [evangelion]. *)
Theorem parse_categories_spec `{RT : Runtime} (index_html : str) :
  exists hrefs cs,
    parse_categories index_html = Ok cs
    /\ increasing hrefs = true
    /\ (forall h, In h hrefs <->
          In h (findall_href index_html)
          /\ startswith midis_prefix h = true /\ search_midi h = false)
    /\ (forall href, search_midi href = true <->
          exists pre ext rest,
            href = pre ++ 46 :: ext ++ rest /\ is_mid_ext ext
            /\ (rest = [] \/ rest = [10] \/ exists tail, rest = 63 :: tail))
    /\ Forall2 category_entry_of hrefs cs
    /\ parse_categories evangelion_html
       = Ok [ {| cat_name := lit "evangelion";
                 cat_url := lit "https://animezen.net/midis/evangelion" |} ].
Proof.
  unfold parse_categories at 1. cbv zeta.
  set (S := list_to_set (findall_href index_html) : gset (list Z)).
  destruct (collect_categories_spec (sorted (elements S))) as (cs & Hcs & HF).
  exists (List.filter is_category_href (sorted (elements S))), cs.
  split; [exact Hcs|]. split.
  { apply increasing_filter, sorted_increasing. apply NoDup_ListNoDup, NoDup_elements. }
  split.
  { intros h. rewrite List.filter_In, sorted_In, <- list_elem_of_In, elem_of_elements.
    unfold S. rewrite elem_of_list_to_set, list_elem_of_In.
    unfold is_category_href. rewrite andb_true_iff, negb_true_iff. tauto. }
  split.
  { intros href. rewrite search_midi_spec. split.
    - intros (pre & rest & -> & Hm). apply midi_match_spec in Hm as (ext & r & -> & He & Hr).
      now exists pre, ext, r.
    - intros (pre & ext & rest & -> & He & Hr). exists pre, (46 :: ext ++ rest).
      split; [reflexivity|]. apply midi_match_spec. now exists ext, rest. }
  split; [exact HF|].
  unfold parse_categories.
  assert (E : sorted (elements (list_to_set (findall_href evangelion_html) : gset (list Z)))
              = [lit "/midis"; lit "/midis/boo.mid"; lit "/midis/evangelion"])
    by (vm_compute; reflexivity).
  cbv zeta. rewrite E. cbn [collect_categories].
  assert (H1 : category_of_href (lit "/midis") = Ok None) by (vm_compute; reflexivity).
  assert (H2 : category_of_href (lit "/midis/boo.mid") = Ok None)
    by (vm_compute; reflexivity).
  assert (Hj : urljoin BASE_URL (lit "/midis/evangelion")
               = Ok (lit "https://animezen.net/midis/evangelion")).
  { rewrite urljoin_base by discriminate. vm_compute. reflexivity. }
  assert (H3 : category_of_href (lit "/midis/evangelion")
               = Ok (Some {| cat_name := lit "evangelion";
                             cat_url := lit "https://animezen.net/midis/evangelion" |})).
  { unfold category_of_href. rewrite Hj. vm_compute. reflexivity. }
  rewrite H1, H2, H3. reflexivity.
Qed.

Lemma parse_categories_spec_witness :
  exists cs,
    @parse_categories ascii_runtime twin_html = Ok cs
    /\ Forall (fun c => exists tail, cat_url c = BASE_URL ++ tail) cs.
Proof.
  destruct (@parse_categories_spec ascii_runtime twin_html)
    as (hrefs & cs & Hcs & _ & _ & _ & HF & _).
  exists cs. split; [exact Hcs|]. clear Hcs.
  induction HF as [|h c hs cs' (rest & tail & _ & _ & Hu & _) _ IH]; constructor.
  - now exists tail.
  - exact IH.
Defined.

(** * More on [_slugify] *)

Lemma no_double_hyphen_cons (a : Z) (s : str) :
  no_double_hyphen (a :: s)
  = negb (is_hyphen a && startswith (lit "-") s) && no_double_hyphen s.
Proof.
  destruct s as [|b s].
  { change (startswith (lit "-") []) with false. now rewrite andb_false_r. }
  change (no_double_hyphen (a :: b :: s))
    with (negb (is_hyphen a && is_hyphen b) && no_double_hyphen (b :: s)).
  change (startswith (lit "-") (b :: s)) with ((45 =? b) && true).
  unfold is_hyphen. now rewrite andb_true_r, (Z.eqb_sym 45 b).
Qed.

Lemma no_double_hyphen_app (a b : str) :
  no_double_hyphen (a ++ b) = true -> no_double_hyphen a = true.
Proof.
  induction a as [|x a IH]; [reflexivity|]. cbn [app].
  rewrite !no_double_hyphen_cons. intros H. apply andb_true_iff in H as [H1 H2].
  apply andb_true_iff. split; [|now apply IH].
  destruct a as [|y a]; [now rewrite andb_false_r|]. exact H1.
Qed.

Lemma no_double_hyphen_lstrip (p : Z -> bool) (s : str) :
  no_double_hyphen s = true -> no_double_hyphen (lstrip p s) = true.
Proof.
  induction s as [|x s IH]; [reflexivity|]. intros H. cbn [lstrip].
  destruct (p x); [|exact H]. apply IH.
  rewrite no_double_hyphen_cons in H. now apply andb_true_iff in H.
Qed.

(** What [lstrip] and [rstrip] cut off. *)
Lemma lstrip_spec (p : Z -> bool) (s : str) :
  exists pre, s = pre ++ lstrip p s /\ Forall (fun c => p c = true) pre
    /\ (lstrip p s = [] \/ exists c r, lstrip p s = c :: r /\ p c = false).
Proof.
  induction s as [|x s (pre & Hs & Hpre & Hhd)]; [exists []; now repeat split; [|left]|].
  cbn [lstrip]. destruct (p x) eqn:E.
  - exists (x :: pre). split; [cbn; now f_equal|]. split; [now constructor | exact Hhd].
  - exists []. split; [reflexivity|]. split; [constructor|]. right. now exists x, s.
Qed.

Lemma rstrip_spec (p : Z -> bool) (s : str) :
  exists suf, s = rstrip p s ++ suf /\ Forall (fun c => p c = true) suf
    /\ (rstrip p s = [] \/ exists r c, rstrip p s = r ++ [c] /\ p c = false).
Proof.
  unfold rstrip. destruct (lstrip_spec p (rev s)) as (pre & Hs & Hpre & Hhd).
  exists (rev pre). split.
  - rewrite <- rev_app_distr, <- Hs. now rewrite rev_involutive.
  - split; [now apply Forall_rev|].
    destruct Hhd as [->|(c & r & -> & Hc)]; [now left|].
    right. exists (rev r), c. now split.
Qed.

Lemma lstrip_id (p : Z -> bool) (s : str) :
  (forall c r, s = c :: r -> p c = false) -> lstrip p s = s.
Proof.
  intros H. destruct s as [|c r]; [reflexivity|]. cbn [lstrip].
  now rewrite (H c r eq_refl).
Qed.

Lemma rstrip_id (p : Z -> bool) (s : str) :
  (forall r c, s = r ++ [c] -> p c = false) -> rstrip p s = s.
Proof.
  intros H. unfold rstrip. rewrite lstrip_id; [apply rev_involutive|].
  intros c r E. apply (H (rev r) c).
  rewrite <- (rev_involutive s), E. reflexivity.
Qed.

Lemma sub_runs_from_id (cls : Z -> bool) (rep : str) (b : bool) (s : str) :
  Forall (fun c => cls c = false) s -> sub_runs_from cls rep b s = s.
Proof.
  intros H. revert b. induction H as [|c s Hc Hs IH]; intros b; [reflexivity|].
  cbn [sub_runs_from]. now rewrite Hc, IH.
Qed.

(** Collapsing the hyphens leaves no two in a row, and none in front
    inside a run. *)
Lemma sub_runs_hyphen (b : bool) (s : str) :
  let r := sub_runs_from is_hyphen (lit "-") b s in
  no_double_hyphen r = true /\ (b = true -> startswith (lit "-") r = false).
Proof.
  revert b. induction s as [|c s IH]; intros b; [now split|].
  cbn [sub_runs_from]. destruct (is_hyphen c) eqn:E.
  - destruct (IH true) as [H1 H2]. destruct b.
    + cbn [app]. split; [exact H1 | exact H2].
    + change (lit "-" ++ ?x) with (45 :: x). rewrite no_double_hyphen_cons.
      rewrite (H2 eq_refl), andb_false_r, H1. now split.
  - destruct (IH false) as [H1 _]. rewrite no_double_hyphen_cons, E, H1.
    split; [reflexivity|]. intros _.
    change (startswith (lit "-") (c :: ?x)) with ((45 =? c) && true).
    unfold is_hyphen in E. now rewrite Z.eqb_sym, E.
Qed.

Lemma sub_runs_hyphen_id (b : bool) (s : str) :
  no_double_hyphen s = true -> (b = true -> startswith (lit "-") s = false) ->
  sub_runs_from is_hyphen (lit "-") b s = s.
Proof.
  revert b. induction s as [|c s IH]; intros b Hd Hb; [reflexivity|].
  rewrite no_double_hyphen_cons in Hd. apply andb_true_iff in Hd as [H1 H2].
  cbn [sub_runs_from]. destruct (is_hyphen c) eqn:E.
  - destruct b.
    + specialize (Hb eq_refl).
      change (startswith (lit "-") (c :: s)) with ((45 =? c) && true) in Hb.
      unfold is_hyphen in E. rewrite Z.eqb_sym, E in Hb. discriminate.
    + change (lit "-" ++ ?x) with (45 :: x). unfold is_hyphen in E.
      apply Z.eqb_eq in E. subst c. f_equal. apply IH; [exact H2|].
      intros _. cbn [andb] in H1. now apply negb_true_iff in H1.
  - f_equal. apply IH; [exact H2 | discriminate].
Qed.

Lemma startswith_hyphen_cons (c : Z) (s : str) :
  startswith (lit "-") (c :: s) = is_hyphen c.
Proof.
  change (startswith (lit "-") (c :: s)) with ((45 =? c) && true).
  unfold is_hyphen. now rewrite andb_true_r, Z.eqb_sym.
Qed.

Lemma startswith_hyphen_prefix (a b : str) :
  startswith (lit "-") (a ++ b) = false -> startswith (lit "-") a = false.
Proof. destruct a as [|c a]; [reflexivity|]. cbn [app]. now rewrite !startswith_hyphen_cons. Qed.

(** The text between the third substitution and the truncation. *)
Lemma slug_body_clean (x : str) :
  let t := strip is_hyphen (sub_runs is_hyphen (lit "-") x) in
  startswith (lit "-") t = false /\ no_double_hyphen t = true
  /\ (t = [] \/ exists r c, t = r ++ [c] /\ c <> 45).
Proof.
  cbv zeta. unfold strip, sub_runs.
  destruct (sub_runs_hyphen false x) as [Hd _]. cbv zeta in Hd.
  set (r := sub_runs_from is_hyphen (lit "-") false x) in *.
  pose proof (no_double_hyphen_lstrip is_hyphen r Hd) as Hd1.
  destruct (lstrip_spec is_hyphen r) as (_ & _ & _ & Hhd).
  set (l := lstrip is_hyphen r) in *.
  destruct (rstrip_spec is_hyphen l) as (suf & Hl & _ & Hlast).
  assert (Hs : startswith (lit "-") l = false).
  { destruct Hhd as [->|(c & l' & -> & Hc)]; [reflexivity|].
    now rewrite startswith_hyphen_cons. }
  split; [apply (startswith_hyphen_prefix _ suf); now rewrite <- Hl|].
  split; [apply (no_double_hyphen_app _ suf); now rewrite <- Hl|].
  destruct Hlast as [->|(r' & c & -> & Hc)]; [now left|].
  right. exists r', c. split; [reflexivity|]. unfold is_hyphen in Hc.
  now apply Z.eqb_neq in Hc.
Qed.

(** The shape of every slug. *)
Lemma slugify_clean `{RT : Runtime} (text : str) (max_len : Z) :
  let s := _slugify text max_len in
  Forall (fun c => slug_char c = true) s /\ s <> []
  /\ startswith (lit "-") s = false
  /\ no_double_hyphen s = true
  /\ (0 <= max_len -> Z.of_nat (length s) < max_len -> List.last s 0 <> 45).
Proof.
  unfold _slugify. cbv zeta.
  set (x := sub_runs (fun c => negb (slug_char c)) _ _).
  assert (Hx : Forall (fun c => slug_char c = true) x).
  { apply Forall_sub_runs_from; [exact slug_char_hyphen|].
    apply List.Forall_forall. intros c _ Hcls. now apply negb_false_iff in Hcls. }
  destruct (slug_body_clean x) as (Hs & Hd & Hl). cbv zeta in Hs, Hd, Hl.
  assert (Ht : Forall (fun c => slug_char c = true)
                 (strip is_hyphen (sub_runs is_hyphen (lit "-") x))).
  { apply Forall_strip. apply Forall_sub_runs_from; [exact slug_char_hyphen|].
    eapply Forall_impl; [exact Hx|]. now intros c Hc _. }
  set (t := strip is_hyphen (sub_runs is_hyphen (lit "-") x)) in *.
  assert (Hpre : t = slice_to t max_len ++ slice_from t max_len)
    by (unfold slice_to, slice_from; now rewrite firstn_skipn).
  pose proof (Forall_slice_to _ t max_len Ht) as Hsc.
  remember (slice_to t max_len) as s' eqn:E.
  destruct s' as [|c r].
  { split; [exact slug_chars_untitled|]. split; [discriminate|].
    split; [reflexivity|]. split; [reflexivity|]. intros _ _. discriminate. }
  split; [exact Hsc|]. split; [discriminate|].
  split; [apply (startswith_hyphen_prefix _ (slice_from t max_len)); now rewrite <- Hpre|].
  split; [apply (no_double_hyphen_app _ (slice_from t max_len)); now rewrite <- Hpre|].
  intros Hm Hlen.
  assert (Hall : c :: r = t).
  { rewrite E. rewrite E in Hlen. rewrite slice_to_nonneg in * by exact Hm.
    rewrite length_firstn in Hlen. apply firstn_all2. lia. }
  rewrite Hall. destruct Hl as [Ht0|(r' & c' & Ht0 & Hc)].
  - rewrite Ht0 in Hall. discriminate.
  - rewrite Ht0, last_last. exact Hc.
Qed.

(** X1: a slug never starts with a hyphen and never holds two hyphens in a
    row; it ends with a hyphen only where the truncation cut it. *)
Theorem slugify_hyphens `{RT : Runtime} (text : str) (max_len : Z) :
  let s := _slugify text max_len in
  startswith (lit "-") s = false
  /\ no_double_hyphen s = true
  /\ (0 <= max_len -> Z.of_nat (length s) < max_len -> List.last s 0 <> 45).
Proof.
  destruct (slugify_clean text max_len) as (_ & _ & H). exact H.
Qed.

(** A clean slug is what [_slugify] returns for it. *)
Lemma slugify_clean_fixed `{RT : Runtime} (s : str) (max_len : Z) :
  Forall (fun c => slug_char c = true) s -> s <> [] ->
  startswith (lit "-") s = false -> no_double_hyphen s = true ->
  List.last s 0 <> 45 -> Z.of_nat (length s) <= max_len ->
  _slugify s max_len = s.
Proof.
  intros Hc Hne Hhd Hd Hlast Hlen. unfold _slugify. cbv zeta.
  assert (Hnsp : forall c, slug_char c = true -> isspace c = false).
  { intros c. unfold slug_char, isspace, is_lower, is_digit.
    change (mem c (lit "-_.()"))
      with ((c =? 45) || ((c =? 95) || ((c =? 46) || ((c =? 40) || ((c =? 41) || false))))).
    lia. }
  assert (Hsp : Forall (fun c => isspace c = false) s).
  { eapply Forall_impl; [exact Hc|]. exact Hnsp. }
  assert (E1 : strip isspace s = s).
  { unfold strip. rewrite (lstrip_id isspace s).
    - apply rstrip_id. intros r c E. rewrite E in Hsp.
      apply Forall_app in Hsp as [_ H]. now inversion H.
    - intros c r E. rewrite E in Hsp. now inversion Hsp. }
  rewrite E1.
  assert (E2 : str_lower s = s).
  { rewrite str_lower_ascii.
    - rewrite <- (map_id s) at 2. apply map_ext_in. intros c Hin.
      apply (proj1 (List.Forall_forall _ _) Hc) in Hin. unfold ascii_lower_char.
      assert (is_upper c = false) as ->; [|reflexivity].
      revert Hin. unfold slug_char, is_upper, is_lower, is_digit.
      change (mem c (lit "-_.()"))
        with ((c =? 45) || ((c =? 95) || ((c =? 46) || ((c =? 40) || ((c =? 41) || false))))).
      lia.
    - apply forallb_forall. intros c Hin.
      apply (proj1 (List.Forall_forall _ _) Hc) in Hin.
      revert Hin. unfold slug_char, is_ascii, is_lower, is_digit.
      change (mem c (lit "-_.()"))
        with ((c =? 45) || ((c =? 95) || ((c =? 46) || ((c =? 40) || ((c =? 41) || false))))).
      lia. }
  rewrite E2. unfold sub_runs.
  rewrite (sub_runs_from_id isspace) by exact Hsp.
  rewrite (sub_runs_from_id (fun c => negb (slug_char c))).
  2:{ eapply Forall_impl; [exact Hc|]. intros c H. cbv beta. now rewrite H. }
  rewrite sub_runs_hyphen_id by (try exact Hd; discriminate).
  assert (E3 : strip is_hyphen s = s).
  { unfold strip. rewrite (lstrip_id is_hyphen s).
    - apply rstrip_id. intros r c E. rewrite E, last_last in Hlast.
      unfold is_hyphen. now apply Z.eqb_neq.
    - intros c r E. rewrite E, startswith_hyphen_cons in Hhd. exact Hhd. }
  rewrite E3, slice_to_all by exact Hlen. destruct s; [contradiction | reflexivity].
Qed.

(** X2: where the truncation has not left a hyphen at the end, slugifying a
    slug again gives the same slug. *)
Theorem slugify_idempotent `{RT : Runtime} (text : str) (max_len : Z) :
  let s := _slugify text max_len in
  Z.of_nat (length s) <= max_len -> List.last s 0 <> 45 ->
  _slugify s max_len = s.
Proof.
  intros s Hlen Hlast.
  assert (Hm : 0 <= max_len) by lia.
  destruct (slugify_clean text max_len) as (Hc & Hne & Hhd & Hd & _).
  now apply slugify_clean_fixed.
Qed.

Lemma slugify_idempotent_witness :
  @_slugify ascii_runtime (@_slugify ascii_runtime (lit "  Ah! My -- Goddess ") 120) 120
  = @_slugify ascii_runtime (lit "  Ah! My -- Goddess ") 120.
Proof.
  apply (@slugify_idempotent ascii_runtime (lit "  Ah! My -- Goddess ") 120);
    vm_compute; [discriminate | discriminate].
Defined.

(** * More on [normalize_url] *)

Lemma Forall_urlunsplit (P : Z -> Prop) (s n url q f : str) :
  P 47 -> P 58 -> P 63 -> P 35 ->
  Forall P s -> Forall P n -> Forall P url -> Forall P q -> Forall P f ->
  Forall P (urlunsplit s n url q f).
Proof.
  intros H47 H58 H63 H35 Hs Hn Hu Hq Hf. unfold urlunsplit. cbv zeta.
  change (lit ":") with [58]. change (lit "?") with [63]. change (lit "#") with [35].
  change (lit "//") with [47; 47]. change (lit "/") with [47].
  assert (H1 : Forall P (if negb (str_eqb url []) && negb (str_eqb (slice_to url 1) [47])
                         then [47] ++ url else url)).
  { destruct (_ && _); [|exact Hu]. now constructor. }
  assert (H2 : Forall P
                 (if negb (str_eqb n [])
                     || negb (str_eqb s []) && in_list s uses_netloc
                        && negb (str_eqb (slice_to url 2) [47; 47])
                  then [47; 47] ++ n ++
                       (if negb (str_eqb url []) && negb (str_eqb (slice_to url 1) [47])
                        then [47] ++ url else url)
                  else url)).
  { destruct (_ || _); [|exact Hu]. constructor; [exact H47|]. constructor; [exact H47|].
    now apply Forall_app_2. }
  set (body := if negb (str_eqb n []) || _ then _ else url) in *.
  assert (H3 : Forall P (if negb (str_eqb s []) then s ++ [58] ++ body else body)).
  { destruct (negb (str_eqb s [])); [|exact H2].
    apply Forall_app_2; [exact Hs | now constructor]. }
  set (b3 := if negb (str_eqb s []) then _ else body) in *.
  assert (H4 : Forall P (if negb (str_eqb q []) then b3 ++ [63] ++ q else b3)).
  { destruct (negb (str_eqb q [])); [|exact H3].
    apply Forall_app_2; [exact H3 | now constructor]. }
  set (b4 := if negb (str_eqb q []) then _ else b3) in *.
  destruct (negb (str_eqb f [])); [|exact H4].
  apply Forall_app_2; [exact H4 | now constructor].
Qed.

Lemma always_safe_printable (c : Z) : always_safe c = true -> is_printable c = true.
Proof.
  unfold always_safe, is_printable, is_upper, is_lower, is_digit.
  change (mem c (lit "_.-~"))
    with ((c =? 95) || ((c =? 46) || ((c =? 45) || ((c =? 126) || false)))).
  lia.
Qed.

Lemma hex_upper_printable (x : Z) : 0 <= x < 16 -> is_printable (hex_upper x) = true.
Proof. intros H. unfold hex_upper, is_printable. destruct (x <? 10) eqn:E; lia. Qed.

(** Quoted text is printable when the safe characters are. *)
Lemma quoted_char_printable (safe : str) (c : Z) :
  forallb is_printable safe = true ->
  quoted_char safe c \/ c = 43 -> is_printable c = true.
Proof.
  intros Hsafe [[H|[->|(x & Hx & ->)]]| ->];
    [|reflexivity | now apply hex_upper_printable | reflexivity].
  apply orb_true_iff in H as [H|H]; [now apply always_safe_printable|].
  apply andb_true_iff in H as [_ H]. unfold mem in H.
  apply existsb_exists in H as (y & Hy & E). apply Z.eqb_eq in E. subst y.
  exact (proj1 (forallb_forall _ _) Hsafe c Hy).
Qed.

Section NormalizeMore.
Context `{RT : Runtime}.

Lemma normalize_url_inv (u v : str) :
  normalize_url u = Ok v ->
  exists s n P Q F, normalize_parts u = Ok (s, n, P, Q, F) /\ v = urlunsplit s n P Q F.
Proof.
  unfold normalize_url, normalize_parts.
  destruct (urljoin BASE_URL u) as [j|e]; [|discriminate]. cbn [mbind result_bind].
  destruct (urlsplit j []) as [[[[[s n] p] q] f]|e]; [|discriminate].
  cbn [mbind result_bind].
  destruct (quote (unquote p) _) as [P|e]; [|discriminate]. cbn [mbind result_bind].
  destruct (quote_plus (unquote_plus q) _) as [Q|e]; [|discriminate].
  cbn [mbind result_bind].
  destruct (quote (unquote f) _) as [F|e]; [|discriminate]. cbn [mbind result_bind].
  intros [= <-]. now exists s, n, P, Q, F.
Qed.

(** Where the joined URL gets its scheme and its network location from:
    from the reference, and for a reference without network location under
    the scheme of the base, from the base. *)
Lemma urljoin_split_origin (u j s0 n0 p0 q0 f0 : str) :
  urlsplit u (lit "https") = Ok (s0, n0, p0, q0, f0) ->
  urljoin BASE_URL u = Ok j ->
  exists p q f,
    urlsplit j []
    = Ok (s0, (if str_eqb s0 (lit "https") && str_eqb n0 []
               then lit "animezen.net" else n0), p, q, f).
Proof.
  intros Hsp. destruct (decide (u = [])) as [->|Hu].
  - intros [= <-]. rewrite urlsplit_stages in Hsp. cbv in Hsp.
    injection Hsp as <- <- <- <- <-. exists [], [], []. apply urlsplit_base.
  - rewrite (urljoin_base u Hu). unfold urlparse. rewrite Hsp.
    cbn [mbind result_bind].
    destruct (urlsplit_parts _ _ _ _ _ _ _ Hsp)
      as (Hs & Hbr & Hck & Hn & Hpc & Hqc & Hfc & _ & _).
    set (pp := if in_list s0 uses_params && mem 59 p0 then _splitparams p0 else (p0, [])).
    assert (Hsub : Forall (fun c => path_char c = true) (fst pp)
                   /\ Forall (fun c => path_char c = true) (snd pp)).
    { unfold pp. destruct (in_list s0 uses_params && mem 59 p0) eqn:E;
        [|split; [exact Hpc | constructor]].
      apply andb_true_iff in E as [_ Hm].
      destruct (_splitparams p0) as [pa pr] eqn:Hsplit. cbn [fst snd].
      destruct (splitparams_spec _ _ _ Hm Hsplit) as [[E1 E2]|E1].
      - subst. split; [exact Hpc | constructor].
      - rewrite E1 in Hpc. apply Forall_app in Hpc as [H1 H2].
        inversion H2; now subst. }
    destruct pp as [path params]. cbn [fst snd] in Hsub. destruct Hsub as [Hpa Hpr].
    cbn [mbind result_bind].
    destruct (str_eqb s0 (lit "https")) eqn:Es; cbn [negb andb].
    + apply str_eqb_eq in Es. subst s0. rewrite Es. rewrite str_eqb_nil.
      destruct n0 as [|x n'] eqn:En; cbn [negb].
      * destruct (str_eqb path [] && str_eqb params []) eqn:E2; intros [= <-].
        -- apply andb_true_iff in E2 as [_ E3]. apply str_eqb_eq in E3. subst params.
           destruct (https_unparse_split (lit "animezen.net") [] [] q0 f0)
             as (p & Hp & _); try reflexivity; try discriminate; try apply List.Forall_nil;
             try assumption; [now apply Forall_forallb|].
           now exists p, q0, f0.
        -- destruct (https_unparse_split (lit "animezen.net") (join_root path) params q0 f0)
             as (p & Hp & _); try reflexivity; try discriminate; try assumption;
             [now apply Forall_forallb | now apply Forall_join_root|].
           now exists p, q0, f0.
      * intros [= <-]. rewrite <- En in *.
        destruct (https_unparse_split n0 path params q0 f0) as (p & Hp & _);
          try assumption; [rewrite En; discriminate|].
        now exists p, q0, f0.
    + intros [= <-]. exists p0, q0, f0.
      rewrite (urlsplit_default _ _ [] _ _ _ _ _ Hsp). repeat f_equal.
      destruct (has_scheme (clean_url u)) eqn:Hh.
      * rewrite Hs. unfold scheme_of. now rewrite Hh.
      * exfalso. apply str_eqb_neq in Es. apply Es. rewrite Hs. unfold scheme_of.
        now rewrite Hh.
Qed.

(** The scheme read off a URL when the default is empty is not empty. *)
Lemma urlsplit_scheme_default (u s n p q f : str) :
  urlsplit u [] = Ok (s, n, p, q, f) ->
  urlsplit u (lit "https")
  = Ok ((if str_eqb s [] then lit "https" else s), n, p, q, f)
  /\ (s <> [] -> good_scheme s = true).
Proof.
  intros H. destruct (urlsplit_parts _ _ _ _ _ _ _ H) as (Hs & _).
  rewrite (urlsplit_default _ _ (lit "https") _ _ _ _ _ H).
  unfold scheme_of in *. destruct (has_scheme (clean_url u)) eqn:Hh.
  - assert (Hg : good_scheme s = true).
    { rewrite Hs. pose proof (scheme_of_good (clean_url u) [] Hh) as Hg.
      unfold scheme_of in Hg. now rewrite Hh in Hg. }
    rewrite <- Hs. rewrite str_eqb_nil. destruct s; [discriminate|]. now split.
  - rewrite Hs. change (remove_unsafe (strip c0_or_space [])) with (@nil Z).
    split; [reflexivity | intros E; now contradiction E].
Qed.

End NormalizeMore.

(** X3: [normalize_url] only re-encodes the URL that [urljoin] gives: the
    scheme and the network location are those of that URL, and the path,
    the query and the fragment of the result decode to the same text as
    those of that URL. *)
Theorem normalize_url_keeps_decoding `{RT : Runtime} (u v : str) :
  normalize_url u = Ok v ->
  exists j s n p q f P Q F,
    urljoin BASE_URL u = Ok j /\ urlsplit j [] = Ok (s, n, p, q, f)
    /\ v = urlunsplit s n P Q F
    /\ unquote P = unquote p
    /\ unquote_plus Q = unquote_plus q
    /\ unquote F = unquote f.
Proof.
  intros H. destruct (normalize_url_inv u v H) as (s & n & P & Q & F & Hp & ->).
  destruct (normalize_parts_inv _ _ _ _ _ _ Hp)
    as (j & p & q & f & Hj & Hs & HP & HQ & HF).
  exists j, s, n, p, q, f, P, Q, F.
  destruct (quote_spec _ _ _ HP) as (_ & _ & _ & HPu).
  destruct (quote_plus_spec (unquote_plus q) (lit "=&") Q eq_refl eq_refl eq_refl HQ)
    as (_ & _ & HQu).
  destruct (quote_spec _ _ _ HF) as (_ & _ & _ & HFu).
  repeat split; auto.
Qed.

Lemma normalize_url_keeps_decoding_witness :
  exists j s n p q f P Q F,
    @urljoin ascii_runtime BASE_URL (lit "/midis/Ah! My Goddess - Opening.mid") = Ok j
    /\ @urlsplit ascii_runtime j [] = Ok (s, n, p, q, f)
    /\ lit "https://animezen.net/midis/Ah!%20My%20Goddess%20-%20Opening.mid"
       = urlunsplit s n P Q F
    /\ unquote P = unquote p
    /\ unquote_plus Q = unquote_plus q
    /\ unquote F = unquote f.
Proof.
  apply (@normalize_url_keeps_decoding ascii_runtime
           (lit "/midis/Ah! My Goddess - Opening.mid")).
  vm_compute. reflexivity.
Defined.

(** X5: a reference in which [urlsplit] finds neither a scheme nor a
    network location is resolved against the site: what [normalize_url]
    returns for it is a URL of [https://animezen.net]. *)
Theorem normalize_url_on_site `{RT : Runtime} (u v p0 q0 f0 : str) :
  urlsplit u [] = Ok ([], [], p0, q0, f0) ->
  normalize_url u = Ok v ->
  exists P Q F tail,
    v = urlunsplit (lit "https") (lit "animezen.net") P Q F
    /\ v = BASE_URL ++ tail.
Proof.
  intros Hu H. destruct (urlsplit_scheme_default _ _ _ _ _ _ Hu) as [Hu' _].
  change (if str_eqb [] [] then lit "https" else []) with (lit "https") in Hu'.
  destruct (normalize_url_inv u v H) as (s & n & P & Q & F & Hp & ->).
  destruct (normalize_parts_inv _ _ _ _ _ _ Hp)
    as (j & p & q & f & Hj & Hs & _).
  destruct (urljoin_split_origin _ _ _ _ _ _ _ Hu' Hj) as (p' & q' & f' & Hs').
  rewrite Hs in Hs'. injection Hs' as -> -> _ _ _.
  change (if str_eqb (lit "https") (lit "https") && str_eqb [] []
          then lit "animezen.net" else []) with (lit "animezen.net").
  destruct (urlunsplit_base_prefix P Q F) as [tail Ht].
  now exists P, Q, F, tail.
Qed.

Lemma normalize_url_on_site_witness :
  exists P Q F tail,
    lit "https://animezen.net/midis/Ah!%20My%20Goddess%20-%20Opening.mid"
    = urlunsplit (lit "https") (lit "animezen.net") P Q F
    /\ lit "https://animezen.net/midis/Ah!%20My%20Goddess%20-%20Opening.mid"
       = BASE_URL ++ tail.
Proof.
  apply (@normalize_url_on_site ascii_runtime
           (lit "/midis/Ah! My Goddess - Opening.mid") _
           (lit "/midis/Ah! My Goddess - Opening.mid") [] []);
    vm_compute; reflexivity.
Defined.

Lemma quoted_char_no_bracket (safe : str) (c : Z) :
  mem 91 safe = false -> mem 93 safe = false ->
  quoted_char safe c \/ c = 43 -> c <> 91 /\ c <> 93.
Proof.
  intros H91 H93 [H| ->]; [|split; discriminate].
  split; intros ->.
  - now apply (quoted_char_not safe 91 H).
  - now apply (quoted_char_not safe 93 H).
Qed.

Section NormalizedSplits.
Context `{RT : Runtime}.

(** What [normalize_url] returns is a URL that [urlsplit] accepts. *)
Lemma normalized_url_splits (u v d : str) :
  normalize_url u = Ok v -> is_ok (urlsplit v d) = true.
Proof.
  intros H. destruct (normalize_url_inv u v H) as (s & n & P & Q & F & Hp & ->).
  destruct (normalize_parts_inv _ _ _ _ _ _ Hp)
    as (j & p & q & f & Hj & Hs & HP & HQ & HF).
  destruct (urljoin_split u j Hj) as (s' & n' & p' & q' & f' & Hs' & Hgood & _).
  rewrite Hs in Hs'. injection Hs' as <- <- <- <- <-.
  destruct (urlsplit_parts _ _ _ _ _ _ _ Hs) as (_ & Hbr & Hck & Hn & _).
  destruct (quote_spec _ _ _ HP) as (HPc & _).
  destruct (quote_plus_spec (unquote_plus q) (lit "=&") Q eq_refl eq_refl eq_refl HQ)
    as (HQc & _).
  destruct (quote_spec _ _ _ HF) as (HFc & _).
  destruct (decide (n = [] /\ startswith (lit "//") P = true)) as [[-> Hsl]|Hno].
  - apply urlsplit_ascii_accepts.
    + apply forallb_forall. apply List.Forall_forall.
      apply Forall_urlunsplit; try reflexivity; try constructor.
      * destruct (good_scheme_facts s Hgood) as (c & s0 & _ & _ & Hall & _).
        apply Forall_forallb in Hall. eapply Forall_impl; [exact Hall|].
        intros x Hx. now apply scheme_char_facts in Hx.
      * eapply Forall_impl; [exact HPc|]. intros c. apply quoted_char_ascii.
      * eapply Forall_impl; [exact HQc|]. intros c [Hc| ->];
          [now apply (quoted_char_ascii (lit "=&")) | reflexivity].
      * eapply Forall_impl; [exact HFc|]. intros c. apply quoted_char_ascii.
    + apply mem_false_Forall.
      apply Forall_urlunsplit; try discriminate; try constructor.
      * destruct (good_scheme_facts s Hgood) as (c & s0 & _ & _ & Hall & _).
        apply Forall_forallb in Hall. eapply Forall_impl; [exact Hall|].
        intros x Hx ->. discriminate.
      * eapply Forall_impl; [exact HPc|]. intros c Hc.
        apply (quoted_char_no_bracket (lit "/()!.,;:@-_")); auto.
      * eapply Forall_impl; [exact HQc|]. intros c Hc.
        now apply (quoted_char_no_bracket (lit "=&")).
      * eapply Forall_impl; [exact HFc|]. intros c Hc.
        apply (quoted_char_no_bracket []); auto.
    + apply mem_false_Forall.
      apply Forall_urlunsplit; try discriminate; try constructor.
      * destruct (good_scheme_facts s Hgood) as (c & s0 & _ & _ & Hall & _).
        apply Forall_forallb in Hall. eapply Forall_impl; [exact Hall|].
        intros x Hx ->. discriminate.
      * eapply Forall_impl; [exact HPc|]. intros c Hc.
        apply (quoted_char_no_bracket (lit "/()!.,;:@-_")); auto.
      * eapply Forall_impl; [exact HQc|]. intros c Hc.
        now apply (quoted_char_no_bracket (lit "=&")).
      * eapply Forall_impl; [exact HFc|]. intros c Hc.
        apply (quoted_char_no_bracket []); auto.
  - destruct (urlsplit_urlunsplit s n P Q F d Hgood Hbr Hck Hn) as (Hok & _).
    + eapply Forall_impl; [exact HPc|]. intros c Hc.
      apply (quoted_char_plain (lit "/()!.,;:@-_")); auto.
    + eapply Forall_impl; [exact HQc|]. intros c Hc.
      apply (quoted_char_plain (lit "=&")) in Hc; try reflexivity.
      unfold path_char in Hc. unfold query_char.
      destruct (negb (is_unsafe c)), (c =? 63), (c =? 35); try discriminate; reflexivity.
    + eapply Forall_impl; [exact HFc|]. intros c Hc.
      assert (Hc' : path_char c = true) by (apply (quoted_char_plain []); auto).
      unfold path_char in Hc'. unfold fragment_char. now destruct (negb (is_unsafe c)).
    + intros En. destruct (startswith (lit "//") P) eqn:E; [|reflexivity].
      exfalso. now apply Hno.
    + now rewrite Hok.
Qed.

End NormalizedSplits.

(** [urlsplit] reads back the scheme that heads a URL. *)
Lemma urlsplit_scheme_read `{RT : Runtime} (s rest d s' n p q f : str) :
  good_scheme s = true ->
  Forall (fun x => is_unsafe x = false) rest ->
  urlsplit (s ++ 58 :: rest) d = Ok (s', n, p, q, f) -> s' = s.
Proof.
  intros Hs Hrest H.
  destruct (urlsplit_parts _ _ _ _ _ _ _ H) as (-> & _).
  destruct (good_scheme_facts s Hs) as (c & s0 & Es & Hc & Hall & Hlow & Hsafe).
  assert (Hclean : clean_url (s ++ 58 :: rest) = s ++ 58 :: rest).
  { unfold clean_url. rewrite Es. cbn [app lstrip].
    assert (c0_or_space c = false) as ->.
    { rewrite Es in Hall. cbn [forallb] in Hall. apply andb_true_iff in Hall as [Hc0 _].
      now apply scheme_char_facts in Hc0. }
    change (c :: s0 ++ 58 :: rest) with ((c :: s0) ++ 58 :: rest).
    rewrite <- Es. apply remove_unsafe_id.
    apply Forall_app_2; [exact Hsafe|]. now constructor. }
  rewrite Hclean.
  destruct (has_scheme_intro c s0 rest Hc) as (Hh & Hsc & _);
    [rewrite <- Es; exact Hall|]. rewrite <- Es in Hh, Hsc.
  unfold scheme_of. now rewrite Hh, Hsc, Hlow.
Qed.

Lemma printable_safe (l : str) :
  Forall (fun c => is_printable c = true) l -> Forall (fun c => is_unsafe c = false) l.
Proof.
  intros H. eapply Forall_impl; [exact H|]. intros c. unfold is_printable, is_unsafe. lia.
Qed.

(** What [urlsplit] reads off the URL that [normalize_url] builds from the
    parts [s], [n], [P], [Q], [F]: the scheme [s], the network location [n]
    when there is one, and a printable path, query and fragment. *)
Lemma normalize_parts_resplit `{RT : Runtime} (u s n P Q F : str) :
  normalize_parts u = Ok (s, n, P, Q, F) ->
  let v := urlunsplit s n P Q F in
  good_scheme s = true
  /\ exists n' P' Q' F',
       urlsplit v [] = Ok (s, n', P', Q', F')
       /\ (n <> [] -> n' = n)
       /\ Forall (fun c => is_printable c = true) P'
       /\ Forall (fun c => is_printable c = true) Q'
       /\ Forall (fun c => is_printable c = true) F'
       /\ (Forall (fun c => is_printable c = true) n' ->
           Forall (fun c => is_printable c = true) v).
Proof.
  intros Hp v.
  destruct (normalize_parts_inv _ _ _ _ _ _ Hp)
    as (j & p & q & f & Hj & Hs & HP & HQ & HF).
  destruct (urljoin_split u j Hj) as (s' & n' & p' & q' & f' & Hs' & Hgood & _).
  rewrite Hs in Hs'. injection Hs' as <- <- <- <- <-.
  destruct (urlsplit_parts _ _ _ _ _ _ _ Hs) as (_ & Hbr & Hck & Hn & _).
  destruct (quote_spec _ _ _ HP) as (HPc & _).
  destruct (quote_plus_spec (unquote_plus q) (lit "=&") Q eq_refl eq_refl eq_refl HQ)
    as (HQc & _).
  destruct (quote_spec _ _ _ HF) as (HFc & _).
  assert (HPp : Forall (fun c => is_printable c = true) P).
  { eapply Forall_impl; [exact HPc|]. intros c Hc.
    apply (quoted_char_printable (lit "/()!.,;:@-_")); [reflexivity | now left]. }
  assert (HQp : Forall (fun c => is_printable c = true) Q).
  { eapply Forall_impl; [exact HQc|]. intros c Hc.
    now apply (quoted_char_printable (lit "=&")). }
  assert (HFp : Forall (fun c => is_printable c = true) F).
  { eapply Forall_impl; [exact HFc|]. intros c Hc.
    apply (quoted_char_printable []); [reflexivity | now left]. }
  assert (Hsp : Forall (fun c => is_printable c = true) s).
  { destruct (good_scheme_facts s Hgood) as (c & s0 & _ & _ & Hall & _).
    apply Forall_forallb in Hall. eapply Forall_impl; [exact Hall|].
    intros x Hx. revert Hx. unfold scheme_char, is_printable, is_lower, is_upper, is_digit.
    change (mem x (lit "+-.")) with ((x =? 43) || ((x =? 45) || ((x =? 46) || false))).
    lia. }
  assert (Hv : Forall (fun c => is_printable c = true) n ->
               Forall (fun c => is_printable c = true) v).
  { intros Hnp. apply Forall_urlunsplit; try reflexivity; assumption. }
  split; [exact Hgood|].
  destruct (decide (n = [] /\ startswith (lit "//") P = true)) as [[-> Hsl]|Hno].
  - specialize (Hv (List.Forall_nil _)).
    pose proof (normalized_url_splits u v [] (normalize_url_parts _ _ _ _ _ _ Hp)) as Hok.
    destruct (urlsplit v []) as [[[[[s1 n1] P1] Q1] F1]|] eqn:Hre; [|discriminate].
    destruct (urlsplit_parts _ _ _ _ _ _ _ Hre) as (_ & _ & _ & _ & _ & _ & _ & _ & Hall).
    destruct (Hall _ Hv) as (Hn1 & HP1 & HQ1 & HF1).
    assert (Es : s1 = s).
    { assert (Hne : s <> []) by (intros ->; discriminate).
      destruct (urlunsplit_scheme_prefix s [] P Q F Hne) as [rest Hrest].
      fold v in Hrest. rewrite Hrest in Hre, Hv.
      apply Forall_app in Hv as [_ Hv]. apply Forall_cons_1 in Hv as [_ Hv].
      exact (urlsplit_scheme_read s rest [] _ _ _ _ _ Hgood (printable_safe _ Hv) Hre). }
    subst s1. exists n1, P1, Q1, F1. split; [reflexivity|]. split; [easy|].
    now repeat split.
  - destruct (urlsplit_urlunsplit s n P Q F [] Hgood Hbr Hck Hn) as (Hok & _ & _).
    + eapply Forall_impl; [exact HPc|]. intros c Hc.
      apply (quoted_char_plain (lit "/()!.,;:@-_")); auto.
    + eapply Forall_impl; [exact HQc|]. intros c Hc.
      apply (quoted_char_plain (lit "=&")) in Hc; try reflexivity.
      unfold path_char in Hc. unfold query_char.
      destruct (negb (is_unsafe c)), (c =? 63), (c =? 35); try discriminate; reflexivity.
    + eapply Forall_impl; [exact HFc|]. intros c Hc.
      assert (Hc' : path_char c = true) by (apply (quoted_char_plain []); auto).
      unfold path_char in Hc'. unfold fragment_char. now destruct (negb (is_unsafe c)).
    + intros En. destruct (startswith (lit "//") P) eqn:E; [|reflexivity].
      exfalso. now apply Hno.
    + eexists n, _, Q, F. split; [exact Hok|]. split; [reflexivity|].
      split; [|now repeat split].
      destruct (negb (str_eqb n []) || in_list s uses_netloc); [|exact HPp].
      now apply Forall_slashed.
Qed.

(** X4: [urlsplit] accepts every URL that [normalize_url] returns, and
    reads off it a well-formed lowercase scheme and a path, a query and a
    fragment of printable ASCII characters without spaces; the whole URL
    is printable when the network location read off it is. *)
Theorem normalize_url_printable `{RT : Runtime} (u v : str) :
  normalize_url u = Ok v ->
  exists s n P Q F,
    urlsplit v [] = Ok (s, n, P, Q, F)
    /\ good_scheme s = true
    /\ forallb is_printable P = true
    /\ forallb is_printable Q = true
    /\ forallb is_printable F = true
    /\ (forallb is_printable n = true -> forallb is_printable v = true).
Proof.
  intros H. destruct (normalize_url_inv u v H) as (s & n & P & Q & F & Hp & ->).
  destruct (normalize_parts_resplit u s n P Q F Hp)
    as (Hgood & n' & P' & Q' & F' & Hre & _ & HP & HQ & HF & Hv).
  assert (Hb : forall l, Forall (fun c => is_printable c = true) l ->
                         forallb is_printable l = true).
  { intros l Hl. apply forallb_forall. now apply List.Forall_forall. }
  exists s, n', P', Q', F'. split; [exact Hre|]. split; [exact Hgood|].
  split; [now apply Hb|]. split; [now apply Hb|]. split; [now apply Hb|].
  intros Hn. apply Hb, Hv. now apply Forall_forallb.
Qed.

Lemma normalize_url_printable_witness :
  exists s n P Q F,
    @urlsplit ascii_runtime
      (lit "https://animezen.net/midis/a%20b%C3%A9.mid?x+y#z%20w") []
    = Ok (s, n, P, Q, F)
    /\ good_scheme s = true
    /\ forallb is_printable P = true
    /\ forallb is_printable Q = true
    /\ forallb is_printable F = true
    /\ (forallb is_printable n = true ->
        forallb is_printable
          (lit "https://animezen.net/midis/a%20b%C3%A9.mid?x+y#z%20w") = true).
Proof.
  apply (@normalize_url_printable ascii_runtime
           (lit "/midis/a b" ++ [233] ++ lit ".mid?x y#z w")).
  vm_compute. reflexivity.
Defined.

(** Without a network location a URL can gain one: the decoded path of
    this one starts with two slashes. *)
Lemma normalize_url_can_gain_netloc :
  @normalize_url ascii_runtime (lit "http:%2F%2Fexample.org/x")
  = Ok (lit "http://example.org/x").
Proof. vm_compute. reflexivity. Qed.

(** X6: a URL with a scheme, and with a network location when the scheme
    is [https], keeps its scheme, and keeps its network location when it
    has one: these are the scheme and the network location that [urlsplit]
    reads off what [normalize_url] returns. *)
Theorem normalize_url_keeps_origin `{RT : Runtime} (u v s0 n0 p0 q0 f0 : str) :
  urlsplit u [] = Ok (s0, n0, p0, q0, f0) ->
  s0 <> [] -> (s0 <> lit "https" \/ n0 <> []) ->
  normalize_url u = Ok v ->
  exists n P Q F,
    urlsplit v [] = Ok (s0, n, P, Q, F) /\ (n0 <> [] -> n = n0).
Proof.
  intros Hu Hs0 Hor H. destruct (urlsplit_scheme_default _ _ _ _ _ _ Hu) as [Hu' _].
  assert (E : str_eqb s0 [] = false) by now apply str_eqb_neq.
  rewrite E in Hu'.
  destruct (normalize_url_inv u v H) as (s & n & P & Q & F & Hp & ->).
  destruct (normalize_parts_resplit u s n P Q F Hp)
    as (_ & n' & P' & Q' & F' & Hre & Hn & _).
  destruct (normalize_parts_inv _ _ _ _ _ _ Hp)
    as (j & p & q & f & Hj & Hs & _).
  destruct (urljoin_split_origin _ _ _ _ _ _ _ Hu' Hj) as (p' & q' & f' & Hs').
  rewrite Hs in Hs'. injection Hs' as -> -> _ _ _.
  assert (E2 : str_eqb s0 (lit "https") && str_eqb n0 [] = false).
  { destruct Hor as [Hn0|Hn0]; apply str_eqb_neq in Hn0; rewrite Hn0;
      [reflexivity | apply andb_false_r]. }
  rewrite E2 in Hre, Hn |- *. exists n', P', Q', F'. split; [exact Hre | exact Hn].
Qed.

Lemma normalize_url_keeps_origin_witness :
  exists n P Q F,
    @urlsplit ascii_runtime (lit "http://example.org/a%20b.mid") []
    = Ok (lit "http", n, P, Q, F)
    /\ (lit "example.org" <> [] -> n = lit "example.org").
Proof.
  apply (@normalize_url_keeps_origin ascii_runtime
           (lit "HTTP://example.org/a b.mid") _
           (lit "http") (lit "example.org") (lit "/a b.mid") [] []).
  - vm_compute. reflexivity.
  - discriminate.
  - left. discriminate.
  - vm_compute. reflexivity.
Defined.

(** X7: every URL that [normalize_url] returns is accepted by
    [_safe_filename_from_url]: the file name of a link can always be
    derived. *)
Theorem safe_filename_of_normalized `{RT : Runtime} (u v : str) :
  normalize_url u = Ok v -> exists f, _safe_filename_from_url v = Ok f /\ f <> [].
Proof.
  intros H. pose proof (normalized_url_splits u v [] H) as Hok.
  unfold _safe_filename_from_url, urlparse.
  destruct (urlsplit v []) as [[[[[s n] p] q] f]|e]; [|discriminate].
  cbn [mbind result_bind].
  destruct (if in_list s uses_params && mem 59 p then _splitparams p else (p, []))
    as [path params].
  cbn [mbind result_bind].
  destruct (splitext (unquote (basename path))) as [root ext] eqn:Hsp.
  eexists. split; [reflexivity|].
  destruct (slugify_clean root 120) as (_ & Hne & _).
  intros E. apply app_eq_nil in E as [E _]. now apply Hne.
Qed.

Lemma safe_filename_of_normalized_witness :
  exists f,
    @_safe_filename_from_url ascii_runtime
      (lit "https://animezen.net/midis/Ah!%20My%20Goddess%20-%20Opening.mid") = Ok f
    /\ f <> [].
Proof.
  apply (@safe_filename_of_normalized ascii_runtime
           (lit "/midis/Ah! My Goddess - Opening.mid")).
  vm_compute. reflexivity.
Defined.

(** * More on [parse_midis] and [parse_categories] *)

Section ParseMore.
Context `{RT : Runtime}.

(** The first loop of [parse_midis] stops at the first matching href that
    [normalize_url] rejects, and nowhere else. *)
Lemma collect_midis_outcome (category_name : str) (hrefs : list str) :
  match collect_midis category_name hrefs with
  | Ok _ =>
      forall h, In h hrefs -> search_midi h = true -> is_ok (normalize_url h) = true
  | Raise e =>
      exists pre h post,
        hrefs = pre ++ h :: post /\ search_midi h = true /\ normalize_url h = Raise e
        /\ forall h', In h' pre -> search_midi h' = true ->
                      is_ok (normalize_url h') = true
  end.
Proof.
  induction hrefs as [|href hrefs IH]; cbn [collect_midis]; [now intros h []|].
  destruct (search_midi href) eqn:Hs; cbn [negb].
  - destruct (normalize_url href) as [url|e] eqn:Hn; cbn [mbind result_bind].
    + pose proof (normalized_url_splits href url [] Hn) as Hok.
      destruct (urlsplit url []) as [[[[[s n] p] q] f]|e] eqn:Hsp; [|discriminate].
      destruct (urlparse_total _ _ _ _ _ _ _ Hsp) as (path & params & ->).
      cbn [mbind result_bind].
      destruct (collect_midis category_name hrefs) as [ms|e]; cbn [mbind result_bind].
      * intros h [<-|Hin] Hh; [now rewrite Hn | now apply IH].
      * destruct IH as (pre & h & post & -> & Hh & He & Hpre).
        exists (href :: pre), h, post. split; [reflexivity|]. split; [exact Hh|].
        split; [exact He|]. intros h' [<-|Hin] Hh'; [now rewrite Hn | now apply Hpre].
    + exists [], href, hrefs. split; [reflexivity|]. split; [exact Hs|].
      split; [exact Hn|]. now intros h' [].
  - destruct (collect_midis category_name hrefs) as [ms|e].
    + intros h [<-|Hin] Hh; [congruence | now apply IH].
    + destruct IH as (pre & h & post & -> & Hh & He & Hpre).
      exists (href :: pre), h, post. split; [reflexivity|]. split; [exact Hh|].
      split; [exact He|]. intros h' [<-|Hin] Hh'; [congruence | now apply Hpre].
Qed.

End ParseMore.

(** X8: [parse_midis] returns exactly when [normalize_url] returns on every
    href that matches the file pattern; when it raises, the exception is the
    one [normalize_url] raises on the first such href that it rejects. *)
Theorem parse_midis_returns `{RT : Runtime} (category_html category_name : str) :
  (is_ok (parse_midis category_html category_name) = true <->
   forall h, In h (findall_href category_html) -> search_midi h = true ->
             is_ok (normalize_url h) = true)
  /\ (forall e, parse_midis category_html category_name = Raise e ->
        exists pre h post,
          findall_href category_html = pre ++ h :: post
          /\ search_midi h = true /\ normalize_url h = Raise e
          /\ forall h', In h' pre -> search_midi h' = true ->
                        is_ok (normalize_url h') = true).
Proof.
  unfold parse_midis. cbv zeta.
  pose proof (collect_midis_outcome category_name (findall_href category_html)) as H.
  destruct (collect_midis category_name (findall_href category_html)) as [ms|e];
    cbn [mbind result_bind is_ok].
  - split; [split; [intros _; exact H | reflexivity] | discriminate].
  - split.
    + split; [discriminate|]. intros Hall.
      destruct H as (pre & h & post & Hhrefs & Hh & He & _).
      specialize (Hall h). rewrite Hhrefs, He in Hall. apply Hall; [|exact Hh].
      apply in_or_app. right. now left.
    + intros e' [= <-]. exact H.
Qed.

(** A page with a link that [urlsplit] rejects makes [parse_midis] raise. *)
Lemma parse_midis_raises_on_bracket :
  @parse_midis ascii_runtime
    (lit "<a href=" ++ dq ++ lit "//[a.mid" ++ dq ++ lit ">x</a>") (lit "c")
  = Raise (ValueError (lit "Invalid IPv6 URL")).
Proof. vm_compute. reflexivity. Qed.

Lemma href_match_chars (P : Z -> Prop) (s value : str) (n : nat) :
  Forall P s -> href_match s = Some (value, n) -> Forall P value.
Proof.
  intros H. unfold href_match.
  destruct s as [|h [|r [|e [|f [|eq [|q rest]]]]]]; try discriminate.
  destruct (_ && _); [|discriminate].
  destruct (span_until is_quote rest) as [val tail] eqn:Hsp.
  destruct (span_until_spec _ _ _ _ Hsp) as (Hrest & _).
  destruct val as [|v val']; [discriminate|]. destruct tail; [discriminate|].
  intros [= <- _].
  do 6 (apply Forall_cons_1 in H as [_ H]). rewrite Hrest in H.
  now apply Forall_app in H as [H _].
Qed.

Lemma Forall_findall_href_from (P : Z -> Prop) (s : str) : forall skip,
  Forall P s -> Forall (Forall P) (findall_href_from skip s).
Proof.
  induction s as [|c s IH]; intros skip H; [constructor|].
  cbn [findall_href_from]. destruct skip as [|k].
  - destruct (href_match (c :: s)) as [[value n]|] eqn:Hm.
    + constructor; [now apply (href_match_chars P (c :: s) value n)|].
      apply IH. now inversion H.
    + apply IH. now inversion H.
  - apply IH. now inversion H.
Qed.

Lemma Forall2_right {A B} (R : A -> B -> Prop) (l : list A) (l' : list B) :
  Forall2 R l l' -> Forall (fun b => exists a, In a l /\ R a b) l'.
Proof.
  induction 1 as [|a b l l' Hab _ IH]; constructor.
  - exists a. split; [now left | exact Hab].
  - eapply Forall_impl; [exact IH|]. intros b' (a' & Hin & HR).
    exists a'. split; [now right | exact HR].
Qed.

Section JoinChars.
Context `{RT : Runtime}.

(** The characters of a joined URL come from the reference, from the base
    or from the separators: all of these but the first are ASCII. *)
Lemma Forall_urljoin (P : Z -> Prop) (u j : str) :
  (forall c, is_ascii c = true -> P c) ->
  urljoin BASE_URL u = Ok j -> Forall P u -> Forall P j.
Proof.
  intros Hascii Hj Hu.
  assert (Hlit : forall l, forallb is_ascii l = true -> Forall P l).
  { intros l Hl. apply Forall_forallb in Hl. eapply Forall_impl; [exact Hl|].
    exact Hascii. }
  destruct (decide (u = [])) as [->|Hne].
  { injection Hj as <-. now apply Hlit. }
  rewrite (urljoin_base u Hne) in Hj.
  destruct (urlparse u (lit "https")) as [[[[[[s n] path] params] q] f]|e] eqn:Hp;
    [|discriminate].
  cbn [mbind result_bind] in Hj.
  destruct (urlparse_inv _ _ _ _ _ _ _ _ Hp) as (url & Hsp & Hurl).
  destruct (urlsplit_parts _ _ _ _ _ _ _ Hsp) as (_ & _ & _ & _ & _ & _ & _ & _ & Hall).
  destruct (Hall P Hu) as (Hn & Hpu & Hq & Hf).
  assert (Hsub : Forall P path /\ Forall P params).
  { destruct Hurl as [[-> ->]| ->]; [split; [exact Hpu | constructor]|].
    apply Forall_app in Hpu as [H1 H2]. inversion H2; now subst. }
  destruct Hsub as [Hpath Hparams].
  assert (Hun : forall n' X, Forall P n' -> Forall P X ->
                  Forall P (urlunparse (lit "https") n' X params q f)).
  { intros n' X Hn' HX. unfold urlunparse.
    apply Forall_urlunsplit; try (apply Hascii; reflexivity); try assumption.
    - now apply Hlit.
    - destruct (negb (str_eqb params [])); [|exact HX].
      apply Forall_app_2; [exact HX|]. constructor; [now apply Hascii | exact Hparams]. }
  destruct (negb (str_eqb s (lit "https"))) eqn:Es.
  { now injection Hj as <-. }
  apply negb_false_iff, str_eqb_eq in Es. subst s.
  destruct (negb (str_eqb n [])).
  { injection Hj as <-. now apply Hun. }
  destruct (str_eqb path [] && str_eqb params []) eqn:E2; injection Hj as <-.
  - apply andb_true_iff in E2 as [_ E3]. apply str_eqb_eq in E3. subst params.
    apply Hun; [now apply Hlit | constructor].
  - apply Hun; [now apply Hlit|]. apply Forall_join_root; [|exact Hpath].
    now apply Hascii.
Qed.

(** A URL of the site that [urljoin] has put together is normalised to a
    URL of the site. *)
Lemma normalize_site_url (h j : str) (p0 q0 f0 : str) :
  urlsplit h (lit "https") = Ok (lit "https", [], p0, q0, f0) ->
  urljoin BASE_URL h = Ok j ->
  Forall (fun c => is_scalar c = true) h ->
  exists tail, normalize_url j = Ok (BASE_URL ++ tail).
Proof.
  intros Hh Hj Hsc.
  assert (Hjs : Forall (fun c => is_scalar c = true) j).
  { apply (Forall_urljoin _ h j); [apply is_ascii_scalar | exact Hj | exact Hsc]. }
  destruct (urljoin_split_origin _ _ _ _ _ _ _ Hh Hj) as (p & q & f & Hs).
  change (if str_eqb (lit "https") (lit "https") && str_eqb [] []
          then lit "animezen.net" else []) with (lit "animezen.net") in Hs.
  destruct (normalize_url_returns j Hjs) as [v Hv]; [now rewrite Hs|].
  exists (skipn (length BASE_URL) v). rewrite Hv. f_equal.
  destruct (urlsplit_scheme_default _ _ _ _ _ _ Hs) as [Hs' _].
  change (if str_eqb (lit "https") [] then lit "https" else lit "https")
    with (lit "https") in Hs'.
  destruct (normalize_url_inv j v Hv) as (s1 & n1 & P & Q & F & Hp & ->).
  destruct (normalize_parts_inv _ _ _ _ _ _ Hp) as (j' & p' & q' & f' & Hj' & Hsj' & _).
  destruct (urljoin_split_origin _ _ _ _ _ _ _ Hs' Hj') as (p2 & q2 & f2 & Hs2).
  rewrite Hsj' in Hs2. injection Hs2 as -> -> _ _ _.
  change (if str_eqb (lit "https") (lit "https") && str_eqb (lit "animezen.net") []
          then lit "animezen.net" else lit "animezen.net") with (lit "animezen.net").
  destruct (urlunsplit_base_prefix P Q F) as [tail ->].
  now rewrite skipn_app, skipn_all, Nat.sub_diag.
Qed.

End JoinChars.

(** X9: on a page of Unicode scalar values, as decoding yields it, every
    category URL that [parse_categories] returns is accepted by
    [normalize_url], which turns it into a URL of the site: the request for
    a series page cannot fail for its URL. *)
Theorem parse_categories_urls_normalize `{RT : Runtime} (index_html : str)
    (cs : list category) :
  Forall (fun c => is_scalar c = true) index_html ->
  parse_categories index_html = Ok cs ->
  Forall (fun c => exists tail, normalize_url (cat_url c) = Ok (BASE_URL ++ tail)) cs.
Proof.
  intros Hsc. unfold parse_categories. cbv zeta.
  set (S := list_to_set (findall_href index_html) : gset (list Z)).
  destruct (collect_categories_spec (sorted (elements S))) as (cs' & Hcs & HF).
  rewrite Hcs. intros [= <-].
  eapply Forall_impl; [exact (Forall2_right _ _ _ HF)|].
  intros c (h & Hin & rest & tail & Hh & Hj & _).
  apply List.filter_In in Hin as [Hin _].
  apply (proj1 (sorted_In _ _)) in Hin.
  apply (proj2 (list_elem_of_In _ _)) in Hin. apply (proj1 (elem_of_elements _ _)) in Hin.
  unfold S in Hin. apply (proj1 (elem_of_list_to_set _ _)) in Hin.
  apply (proj1 (list_elem_of_In _ _)) in Hin.
  assert (Hhs : Forall (fun c => is_scalar c = true) h).
  { pose proof (Forall_findall_href_from _ index_html 0%nat Hsc) as Hall.
    exact (proj1 (List.Forall_forall _ _) Hall h Hin). }
  destruct (urlsplit_rooted 109 (lit "idis/" ++ rest) (lit "https"))
    as (p & q & f & Hs); [discriminate | reflexivity |].
  change (47 :: 109 :: lit "idis/" ++ rest) with (midis_prefix ++ rest) in Hs.
  change (remove_unsafe (strip c0_or_space (lit "https"))) with (lit "https") in Hs.
  rewrite <- Hh in Hs. exact (normalize_site_url h (cat_url c) p q f Hs Hj Hhs).
Qed.

Lemma parse_categories_urls_normalize_witness :
  Forall (fun c => exists tail,
            @normalize_url ascii_runtime (cat_url c) = Ok (BASE_URL ++ tail))
    [ {| cat_name := lit "./a b"; cat_url := lit "https://animezen.net/midis/a b" |};
      {| cat_name := lit "a b"; cat_url := lit "https://animezen.net/midis/a b" |} ].
Proof.
  apply (@parse_categories_urls_normalize ascii_runtime twin_html).
  - apply Forall_forallb. vm_compute. reflexivity.
  - vm_compute. reflexivity.
Defined.

(** * More on [download_file] *)

Section QuietSteps.
Variables tmp dest : path.

Lemma same_elsewhere_refl (t : tree) : same_elsewhere tmp dest t t.
Proof. now intros p _ _. Qed.

Lemma same_elsewhere_trans (t t1 t2 : tree) :
  same_elsewhere tmp dest t t1 -> same_elsewhere tmp dest t1 t2 ->
  same_elsewhere tmp dest t t2.
Proof. intros H1 H2 p Hp Hq. now rewrite H2, H1. Qed.

Lemma quiet_step_ret {A} (a : A) : quiet_step tmp dest (mret a : prog A).
Proof. intros w r w1 [= <- <-]. split; [apply same_elsewhere_refl | reflexivity]. Qed.

Lemma quiet_step_lift {A} (x : result A) : quiet_step tmp dest (lift x).
Proof. intros w r w1 [= <- <-]. split; [apply same_elsewhere_refl | reflexivity]. Qed.

Lemma quiet_step_bind {A B} (m : prog A) (f : A -> prog B) :
  quiet_step tmp dest m -> (forall a, quiet_step tmp dest (f a)) ->
  quiet_step tmp dest (m ≫= f).
Proof.
  intros Hm Hf w r w1. rewrite bind_run. destruct (m w) as [[a|e] w'] eqn:E.
  - intros H. destruct (Hm _ _ _ E) as [H1 H2], (Hf a _ _ _ H) as [H3 H4].
    split; [eapply same_elsewhere_trans; eassumption | congruence].
  - intros [= <- <-]. exact (Hm _ _ _ E).
Qed.

Lemma quiet_step_try {A} (body : prog A) (handler : exn -> prog A) :
  quiet_step tmp dest body -> (forall e, quiet_step tmp dest (handler e)) ->
  quiet_step tmp dest (try_except body handler).
Proof.
  intros Hm Hf w r w1. unfold try_except. destruct (body w) as [[a|e] w'] eqn:E.
  - intros [= <- <-]. exact (Hm _ _ _ E).
  - intros H. destruct (Hm _ _ _ E) as [H1 H2], (Hf e _ _ _ H) as [H3 H4].
    split; [eapply same_elsewhere_trans; eassumption | congruence].
Qed.

Lemma quiet_step_file_op (op : tree -> result tree) :
  (forall t t', op t = Ok t' -> same_elsewhere tmp dest t t') ->
  quiet_step tmp dest (file_op op).
Proof.
  intros Hop w r w1. rewrite file_op_run. destruct (op (w_tree w)) as [t'|e] eqn:E.
  - intros [= <- <-]. split; [now apply Hop | reflexivity].
  - intros [= <- <-]. split; [apply same_elsewhere_refl | reflexivity].
Qed.

Lemma quiet_step_path_exists (p : path) : quiet_step tmp dest (path_exists p).
Proof. intros w r w1 [= <- <-]. split; [apply same_elsewhere_refl | reflexivity]. Qed.

Lemma quiet_step_sleep (secs : Q) : quiet_step tmp dest (time_sleep secs).
Proof.
  intros w r w1. unfold time_sleep. destruct (negb _); [|destruct (Qltb secs 0)];
    intros [= <- <-]; (split; [apply same_elsewhere_refl | reflexivity]).
Qed.

Lemma quiet_step_copy_chunks (reads : list read_result) :
  quiet_step tmp dest (copy_chunks tmp reads).
Proof.
  induction reads as [|[chunk|e] reads IH]; cbn [copy_chunks].
  - apply quiet_step_ret.
  - destruct chunk as [|b chunk]; [apply quiet_step_ret|].
    apply quiet_step_bind; [|intros _; exact IH].
    apply quiet_step_file_op. intros t t' [= <-] p Hp _. unfold write_chunk.
    destruct (t !! tmp) as [[data|]|]; [|reflexivity | reflexivity].
    now rewrite lookup_insert_ne.
  - apply quiet_step_lift.
Qed.

Lemma quiet_step_cleanup : quiet_step tmp dest (cleanup tmp).
Proof.
  unfold cleanup. apply quiet_step_try; [|intros _; apply quiet_step_ret].
  apply quiet_step_bind; [apply quiet_step_path_exists|].
  intros [|]; [|apply quiet_step_ret].
  apply quiet_step_file_op. intros t t'. unfold unlink.
  destruct (t !! tmp) as [[data|]|]; try discriminate.
  intros [= <-] p Hp _. now rewrite lookup_delete_ne.
Qed.

End QuietSteps.

(** ** What [mkdir] with [parents=True, exist_ok=True] changes

    Every entry either stays as it was or is a directory made where nothing
    was, on the way to the path asked for. *)
Lemma os_mkdir_fresh (t t' : tree) (p : path) :
  os_mkdir t p = Ok t' -> t' = <[p := Dir]> t /\ t !! p = None.
Proof.
  unfold os_mkdir. destruct (tree_exists t p) eqn:E; [discriminate|].
  destruct (tree_is_dir t (parent p));
    [|destruct (tree_exists t (parent p)); discriminate].
  intros [= <-]. split; [reflexivity|]. now apply tree_exists_None in E.
Qed.

Lemma made_dirs_insert (t : tree) (p target q : path) :
  t !! p = None -> p `prefix_of` target -> made_dirs target t (<[p := Dir]> t) q.
Proof.
  intros Hp Hpre. unfold made_dirs. destruct (decide (q = p)) as [-> | Hq].
  - right. split; [exact Hp|]. split; [apply lookup_insert_eq | exact Hpre].
  - left. now rewrite lookup_insert_ne.
Qed.

Lemma made_dirs_trans (target target' : path) (t t1 t2 : tree) (q : path) :
  target `prefix_of` target' ->
  made_dirs target t t1 q -> made_dirs target' t1 t2 q -> made_dirs target' t t2 q.
Proof.
  unfold made_dirs. intros Hpre [E1 | (N1 & D1 & P1)] [E2 | (N2 & D2 & P2)].
  - left. congruence.
  - right. rewrite <- E1. now split.
  - right. split; [exact N1|]. split; [congruence|]. now transitivity target.
  - congruence.
Qed.

Lemma mkdir_single_keeps (t t' : tree) (p q : path) :
  mkdir_single t p = Ok t' -> made_dirs p t t' q.
Proof.
  unfold mkdir_single. destruct (os_mkdir t p) as [t1|e] eqn:E.
  - intros [= <-]. apply os_mkdir_fresh in E as [-> E]. now apply made_dirs_insert.
  - destruct e; try discriminate;
      (destruct (tree_is_dir t p); [|discriminate]); intros [= <-]; now left.
Qed.

Lemma mkdir_from_keeps (rp : path) : forall t t' q,
  mkdir_from t rp = Ok t' -> made_dirs (rev rp) t t' q.
Proof.
  induction rp as [|c rp IH]; intros t t' q H; cbn [mkdir_from] in H.
  - destruct (os_mkdir t (rev [])) as [t1|e] eqn:E.
    + inversion H; subst. apply os_mkdir_fresh in E as [-> E]. now apply made_dirs_insert.
    + destruct e; try discriminate; cbn in H; inversion H; now left.
  - destruct (os_mkdir t (rev (c :: rp))) as [t1|e] eqn:E.
    + inversion H; subst. apply os_mkdir_fresh in E as [-> E]. now apply made_dirs_insert.
    + assert (Hother : (if tree_is_dir t (rev (c :: rp)) then Ok t else Raise e) = Ok t' ->
                       made_dirs (rev (c :: rp)) t t' q).
      { destruct (tree_is_dir t (rev (c :: rp))); [|discriminate]. intros [= <-]. now left. }
      destruct e; try (now apply Hother).
      cbn [mbind result_bind] in H.
      destruct (mkdir_from t rp) as [t1|e] eqn:E1; [|discriminate].
      eapply made_dirs_trans; [|apply (IH _ _ q E1) | apply (mkdir_single_keeps _ _ _ q H)].
      cbn [rev]. now apply prefix_app_r.
Qed.

Lemma mkdir_parents_keeps (t t' : tree) (p q : path) :
  mkdir_parents t p = Ok t' -> made_dirs p t t' q.
Proof.
  unfold mkdir_parents. intros H. apply (mkdir_from_keeps _ _ _ q) in H.
  now rewrite rev_involutive in H.
Qed.

Section DownloadLog.
Context `{RT : Runtime}.
Variable net : network.
Variable url : str.
Variables tmp dest : path.
Variable retries : Z.
Variable backoff_s : Q.

Lemma requests_of_add (a b : nat) :
  requests_of url (a + b) = requests_of url a ++ requests_of url b.
Proof.
  unfold requests_of. destruct (normalize_url url); [apply repeat_app | reflexivity].
Qed.

(** One run of the [try] body: one request when the URL can be normalised,
    none otherwise, and no change away from [tmp] and [dest]. *)
Lemma transfer_log w r w1 :
  transfer net url tmp dest w = (r, w1) ->
  same_elsewhere tmp dest (w_tree w) (w_tree w1)
  /\ w_requests w1 = w_requests w ++ requests_of url 1
  /\ (forall e, normalize_url url = Raise e -> r = Raise e /\ w1 = w).
Proof.
  unfold transfer, requests_of. rewrite bind_run. unfold lift at 1.
  destruct (normalize_url url) as [u|e] eqn:Hu.
  2:{ intros [= <- <-]. split; [apply same_elsewhere_refl|].
      split; [now rewrite app_nil_r|]. now intros e' [= <-]. }
  rewrite bind_run. unfold urlopen.
  assert (Hrest : forall reads,
            quiet_step tmp dest
              (file_op (fun t => open_wb t tmp);;
               copy_chunks tmp reads;;
               file_op (fun t => replace_file t tmp dest))).
  { intros reads. apply quiet_step_bind.
    - apply quiet_step_file_op. intros t t'. unfold open_wb.
      destruct (tree_is_dir t tmp); [discriminate|].
      destruct (tree_is_dir t (parent tmp)); [|discriminate].
      intros [= <-] p Hp _. now rewrite lookup_insert_ne.
    - intros _. apply quiet_step_bind; [apply quiet_step_copy_chunks|].
      intros _. apply quiet_step_file_op. intros t t'. unfold replace_file.
      destruct (t !! tmp) as [[data|]|]; try discriminate.
      destruct (tree_is_dir t dest); [discriminate|].
      destruct (tree_is_dir t (parent dest)); [|discriminate].
      intros [= <-] p Hp Hq. now rewrite lookup_insert_ne, lookup_delete_ne. }
  destruct (net u (length (w_requests w))) as [e|reads].
  - intros [= <- <-]. split; [apply same_elsewhere_refl|]. split; [reflexivity|].
    discriminate.
  - intros H. destruct (Hrest reads _ _ _ H) as [H1 H2].
    split; [exact H1|]. split; [exact H2 | discriminate].
Qed.


Lemma attempt_once_log k w r w1 :
  attempt_once net url tmp dest retries backoff_s k w = (r, w1) ->
  same_elsewhere tmp dest (w_tree w) (w_tree w1)
  /\ w_requests w1 = w_requests w ++ requests_of url 1
  /\ (r = Ok None -> exists u, normalize_url url = Ok u).
Proof.
  unfold attempt_once, try_except. rewrite bind_run.
  destruct (transfer net url tmp dest w) as [[[]|e] w'] eqn:Ht;
    destruct (transfer_log _ _ _ Ht) as (H1 & H2 & H0).
  - intros [= <- <-]. split; [exact H1|]. split; [exact H2|]. intros _.
    destruct (normalize_url url) as [u|e]; [now exists u|].
    now destruct (H0 e eq_refl).
  - intros H.
    assert (Hh : quiet_step tmp dest
              (cleanup tmp;;
               (if k <? retries
                then secs ← lift (float_mul_int backoff_s (2 ^ k)); time_sleep secs
                else mret tt);;
               mret (Some e))).
    { apply quiet_step_bind; [apply quiet_step_cleanup|]. intros _.
      apply quiet_step_bind; [|intros _; apply quiet_step_ret].
      destruct (k <? retries); [|apply quiet_step_ret].
      apply quiet_step_bind; [apply quiet_step_lift | intros secs; apply quiet_step_sleep]. }
    destruct (Hh _ _ _ H) as [H3 H4].
    split; [eapply same_elsewhere_trans; eassumption|]. split; [congruence|].
    intros ->. revert H. rewrite bind_run.
    destruct (cleanup tmp w') as [[[]|e1] w2]; [|discriminate].
    rewrite bind_run.
    destruct ((if k <? retries
               then secs ← lift (float_mul_int backoff_s (2 ^ k)); time_sleep secs
               else mret tt) w2) as [[[]|e2] w3]; discriminate.
Qed.

(** The loop makes one request per attempt, at most one attempt per entry
    of the range; it reports a download only after a request. *)
Lemma attempts_loop_log (attempts : list Z) : forall last_err w r w1,
  attempts_loop net url tmp dest retries backoff_s attempts last_err w = (r, w1) ->
  same_elsewhere tmp dest (w_tree w) (w_tree w1)
  /\ exists k, (k <= length attempts)%nat
       /\ w_requests w1 = w_requests w ++ requests_of url k
       /\ (forall msg, r = Ok (true, msg) ->
             (1 <= k)%nat /\ exists u, normalize_url url = Ok u).
Proof.
  induction attempts as [|a attempts IH]; intros last_err w r w1; cbn [attempts_loop].
  - intros [= <- <-]. split; [apply same_elsewhere_refl|]. exists 0%nat.
    split; [lia|]. split; [unfold requests_of; destruct (normalize_url url);
                           now rewrite app_nil_r|]. discriminate.
  - rewrite bind_run.
    destruct (attempt_once net url tmp dest retries backoff_s a w) as [[o|e] w'] eqn:Ha;
      destruct (attempt_once_log _ _ _ _ Ha) as (H1 & H2 & H0).
    + destruct o as [e|].
      * destruct (a <? retries).
        -- intros H. destruct (IH _ _ _ _ H) as (H3 & k & Hk & H4 & H5).
           split; [eapply same_elsewhere_trans; eassumption|].
           exists (1 + k)%nat. split; [cbn; lia|].
           split; [rewrite H4, H2, requests_of_add; now rewrite app_assoc|].
           intros msg E. destruct (H5 msg E) as [_ Hu]. split; [lia | exact Hu].
        -- intros [= <- <-]. split; [exact H1|]. exists 1%nat.
           split; [cbn; lia|]. split; [exact H2 | discriminate].
      * intros [= <- <-]. split; [exact H1|]. exists 1%nat.
        split; [cbn; lia|]. split; [exact H2|]. intros _ _. split; [lia | now apply H0].
    + intros [= <- <-]. split; [exact H1|]. exists 1%nat.
      split; [cbn; lia|]. split; [exact H2 | discriminate].
Qed.

(** The loop on a URL that [normalize_url] rejects with [e]: no request,
    no change away from [tmp], and no other answer than the error. *)
Lemma attempts_loop_rejected (e : exn) (attempts : list Z) :
  normalize_url url = Raise e ->
  forall last_err w r w1,
  last_err = None \/ last_err = Some e ->
  attempts_loop net url tmp dest retries backoff_s attempts last_err w = (r, w1) ->
  same_elsewhere tmp tmp (w_tree w) (w_tree w1)
  /\ w_requests w1 = w_requests w
  /\ (forall b msg, r = Ok (b, msg) ->
        b = false
        /\ (msg = lit "error: None" \/ msg = lit "error: " ++ exn_str e)).
Proof.
  intros Hu. induction attempts as [|a attempts IH]; intros last_err w r w1 Hlast;
    cbn [attempts_loop].
  - intros [= <- <-]. split; [apply same_elsewhere_refl|]. split; [reflexivity|].
    intros b msg [= <- <-]. split; [reflexivity|].
    destruct Hlast as [-> | ->]; [now left | now right].
  - rewrite bind_run. unfold attempt_once at 1. unfold try_except. rewrite bind_run.
    destruct (transfer net url tmp dest w) as [rt w'] eqn:Ht.
    destruct (transfer_log _ _ _ Ht) as (_ & _ & H0).
    destruct (H0 e Hu) as [-> ->].
    assert (Hh : quiet_step tmp tmp
              (cleanup tmp;;
               (if a <? retries
                then secs ← lift (float_mul_int backoff_s (2 ^ a)); time_sleep secs
                else mret tt);;
               mret (Some e))).
    { apply quiet_step_bind; [apply quiet_step_cleanup|]. intros _.
      apply quiet_step_bind; [|intros _; apply quiet_step_ret].
      destruct (a <? retries); [|apply quiet_step_ret].
      apply quiet_step_bind; [apply quiet_step_lift | intros secs; apply quiet_step_sleep]. }
    destruct ((cleanup tmp;;
               (if a <? retries
                then secs ← lift (float_mul_int backoff_s (2 ^ a)); time_sleep secs
                else mret tt);;
               mret (Some e)) w) as [rh wh] eqn:Eh.
    destruct (Hh _ _ _ Eh) as [H1 H2].
    assert (Hrh : rh = Ok (Some e) \/ exists e', rh = Raise e').
    { revert Eh. rewrite bind_run.
      destruct (cleanup tmp w) as [[[]|e1] w2]; [|intros [= <- _]; right; now exists e1].
      rewrite bind_run.
      destruct ((if a <? retries
                 then secs ← lift (float_mul_int backoff_s (2 ^ a)); time_sleep secs
                 else mret tt) w2) as [[[]|e2] w3];
        [intros [= <- _]; now left | intros [= <- _]; right; now exists e2]. }
    destruct Hrh as [-> | [e' ->]].
    + destruct (a <? retries).
      * intros H. destruct (IH _ _ _ _ (or_intror eq_refl) H) as (H3 & H4 & H5).
        split; [eapply same_elsewhere_trans; eassumption|]. split; [congruence | exact H5].
      * intros [= <- <-]. split; [exact H1|]. split; [exact H2|].
        intros b msg [= <- <-]. split; [reflexivity | now right].
    + intros [= <- <-]. split; [exact H1|]. split; [exact H2 | discriminate].
Qed.

End DownloadLog.

Section DownloadFileLog.
Context `{RT : Runtime}.
Variable net : network.
Variable url : str.
Variable dest : path.
Variable retries : Z.
Variable backoff_s : Q.

(** The run of [download_file], whatever the arguments. *)
Lemma download_file_log dry_run w r w1 :
  download_file net url dest retries backoff_s dry_run w = (r, w1) ->
  (forall p, p <> dest -> p <> part_path dest ->
             made_dirs (parent dest) (w_tree w) (w_tree w1) p)
  /\ exists k, Z.of_nat k <= Z.max 0 (retries + 1)
       /\ w_requests w1 = w_requests w ++ requests_of url k
       /\ (forall msg, r = Ok (true, msg) ->
             (1 <= k)%nat /\ exists u, normalize_url url = Ok u).
Proof.
  assert (Hnone : forall w, w_requests w = w_requests w ++ requests_of url 0).
  { intros w0. unfold requests_of. destruct (normalize_url url); now rewrite app_nil_r. }
  destruct (tree_exists (w_tree w) dest) eqn:Hex.
  { rewrite download_file_exists by exact Hex. intros [= <- <-].
    split; [now left|]. exists 0%nat. split; [lia|]. split; [apply Hnone | discriminate]. }
  destruct dry_run.
  { rewrite download_file_dry_run by exact Hex. intros [= <- <-].
    split; [now left|]. exists 0%nat. split; [lia|]. split; [apply Hnone | discriminate]. }
  rewrite (download_file_run net url dest retries backoff_s w Hex).
  destruct (mkdir_parents (w_tree w) (parent dest)) as [t'|e] eqn:Hmk.
  2:{ intros [= <- <-]. split; [now left|]. exists 0%nat.
      split; [lia|]. split; [apply Hnone | discriminate]. }
  destruct (with_suffix dest (suffix (name dest) ++ lit ".part")) as [tmp'|e] eqn:Hsfx.
  2:{ intros [= <- <-]. split.
      - intros p _ _. cbn [w_tree with_tree]. now apply mkdir_parents_keeps.
      - exists 0%nat. split; [lia|]. split; [apply (Hnone (with_tree w t')) | discriminate]. }
  apply with_suffix_part_inv in Hsfx as [-> _]. intros H.
  apply attempts_loop_log in H as (Hsame & k & Hk & Hreq & Hpos).
  cbn [w_tree w_requests with_tree] in Hsame, Hreq.
  split.
  - intros p Hp Hq. unfold made_dirs. rewrite (Hsame p Hq Hp).
    now apply mkdir_parents_keeps.
  - exists k. split; [|now split].
    unfold range in Hk. rewrite length_map, length_seq in Hk. lia.
Qed.

End DownloadFileLog.

(** ** Further properties of [download_file] *)

(** X10: whatever the arguments and the outcome, a call of
    [download_file] leaves every path other than the destination and its
    [.part] companion as it was, except that it may make a directory where
    nothing was, at the parent of the destination or above it. *)
Theorem download_file_spares_others `{RT : Runtime} (net : network) (url : str)
    (dest : path) (retries : Z) (backoff_s : Q) (dry_run : bool) (w : world) (p : path) :
  p <> dest -> p <> part_path dest ->
  let w1 := snd (download_file net url dest retries backoff_s dry_run w) in
  w_tree w1 !! p = w_tree w !! p
  \/ (w_tree w !! p = None /\ w_tree w1 !! p = Some Dir /\ p `prefix_of` parent dest).
Proof.
  intros Hp Hq w1.
  destruct (download_file_log net url dest retries backoff_s dry_run w _ _
              (surjective_pairing _)) as [Hframe _].
  exact (Hframe p Hp Hq).
Qed.

Lemma download_file_spares_others_witness :
  let w1 := snd (@download_file ascii_runtime flaky_net song_url song_path 2 1 false
                   empty_world) in
  let p := [lit "downloaded_midis"; lit "ah-my-goddess"] in
  w_tree w1 !! p = w_tree empty_world !! p
  \/ (w_tree empty_world !! p = None /\ w_tree w1 !! p = Some Dir
      /\ p `prefix_of` parent song_path).
Proof.
  apply (@download_file_spares_others ascii_runtime flaky_net song_url song_path 2 1
           false empty_world [lit "downloaded_midis"; lit "ah-my-goddess"]);
    intros E; apply (f_equal (@length (list Z))) in E; vm_compute in E; lia.
Defined.

(** X11: whatever the arguments and the outcome, the requests of a call
    of [download_file] are [k] requests for the normalised URL with
    [k <= max 0 (retries + 1)], none when the URL cannot be normalised; a
    call that reports a download has made at least one. *)
Theorem download_file_requests `{RT : Runtime} (net : network) (url : str)
    (dest : path) (retries : Z) (backoff_s : Q) (dry_run : bool) (w : world) :
  let run := download_file net url dest retries backoff_s dry_run w in
  exists k,
    Z.of_nat k <= Z.max 0 (retries + 1)
    /\ w_requests (snd run) = w_requests w ++ requests_of url k
    /\ (forall msg, fst run = Ok (true, msg) ->
          (1 <= k)%nat /\ exists u, normalize_url url = Ok u).
Proof.
  intros run.
  destruct (download_file_log net url dest retries backoff_s dry_run w _ _
              (surjective_pairing _)) as [_ Hreq].
  exact Hreq.
Qed.



(** X13: when [normalize_url] rejects the URL with the error [e], no
    call of [download_file] makes a request or puts anything at the
    destination, and the answer, if the call returns one, is [False] with
    [exists], [dry-run], [error: None] or [error: ] followed by the text of
    [e]: the error is caught and retried like a failure of the network. *)
Theorem download_file_rejected_url `{RT : Runtime} (net : network) (url : str)
    (dest : path) (retries : Z) (backoff_s : Q) (e : exn) (dry_run : bool)
    (w : world) (r : result (bool * str)) (w1 : world) :
  normalize_url url = Raise e ->
  download_file net url dest retries backoff_s dry_run w = (r, w1) ->
  w_requests w1 = w_requests w
  /\ w_tree w1 !! dest = w_tree w !! dest
  /\ (forall b msg, r = Ok (b, msg) ->
        b = false
        /\ (msg = lit "exists" \/ msg = lit "dry-run" \/ msg = lit "error: None"
            \/ msg = lit "error: " ++ exn_str e)).
Proof.
  intros Hu.
  destruct (tree_exists (w_tree w) dest) eqn:Hex.
  { rewrite download_file_exists by exact Hex. intros [= <- <-].
    split; [reflexivity|]. split; [reflexivity|]. intros b msg [= <- <-]. tauto. }
  destruct dry_run.
  { rewrite download_file_dry_run by exact Hex. intros [= <- <-].
    split; [reflexivity|]. split; [reflexivity|]. intros b msg [= <- <-]. tauto. }
  rewrite (download_file_run net url dest retries backoff_s w Hex).
  destruct (mkdir_parents (w_tree w) (parent dest)) as [t'|e0] eqn:Hmk.
  2:{ intros [= <- <-]. split; [reflexivity|]. split; [reflexivity | discriminate]. }
  destruct (after_mkdir dest w t' Hex Hmk) as (Hne & Habs & _ & _ & _).
  destruct (tree_exists_None _ _ Hex) as [_ Hnone].
  destruct (with_suffix dest (suffix (name dest) ++ lit ".part")) as [tmp'|e0] eqn:Hsfx.
  2:{ intros [= <- <-]. split; [reflexivity|].
      split; [cbn [w_tree with_tree]; unfold absent in Habs; congruence | discriminate]. }
  apply with_suffix_part_inv in Hsfx as [-> _]. intros H.
  apply (attempts_loop_rejected net url _ dest retries backoff_s e _ Hu) in H
    as (Hsame & Hreq & Hmsg); [|now left].
  cbn [w_tree w_requests with_tree] in Hsame, Hreq.
  split; [exact Hreq|]. split.
  - rewrite (Hsame dest); [unfold absent in Habs; congruence | |];
      intros E; now apply (part_path_neq dest).
  - intros b msg E. destruct (Hmsg b msg E) as [-> Hm]. split; [reflexivity | tauto].
Qed.


Lemma download_file_rejected_url_witness :
  let run := @download_file ascii_runtime steady_net (lit "//[") song_path 2 1 false
               empty_world in
  w_requests (snd run) = w_requests empty_world
  /\ w_tree (snd run) !! song_path = w_tree empty_world !! song_path
  /\ (forall b msg, fst run = Ok (b, msg) ->
        b = false
        /\ (msg = lit "exists" \/ msg = lit "dry-run" \/ msg = lit "error: None"
            \/ msg = lit "error: " ++ exn_str (ValueError (lit "Invalid IPv6 URL")))).
Proof.
  intros run.
  apply (@download_file_rejected_url ascii_runtime steady_net (lit "//[") song_path 2 1
           (ValueError (lit "Invalid IPv6 URL")) false empty_world (fst run) (snd run)).
  - vm_compute. reflexivity.
  - apply surjective_pairing.
Defined.
